(** * temporal-key-rotation: the KMS codec server

    A shallow embedding of the envelope-encryption codec server
    (codec-server/main.go and its KMS manager): the AES-GCM helpers
    [EncryptWithDataKey] / [DecryptWithDataKey], the [KMSManager] with its
    current data key and its decryption cache, and the two HTTP handlers
    [handleEncode] / [handleDecode].  Beside them: the codec with a local
    key of the same file, the key generator, the statistics of the manager
    and the [RemoteCodecClient] that talks to a codec server.

    Conventions.
    - [[]byte] is [list byte]; a Go [string] is [string].
    - A byte slice that the program keeps and later overwrites in place (the
      plaintext data keys) is a reference into an explicit [heap]; two
      holders of the same slice see the same bytes.
    - [time.Time] and [time.Duration] are integers (nanoseconds) in [Z].
    - The outside world (wall clock, random source, the remote KMS) is an
      [Env] of oracles; the number of clock readings, random reads and KMS
      calls made so far is part of the state, and every KMS call is also
      appended to a trace so that calls can be counted.
    - The mutex of the manager is not modelled: each operation runs alone. *)

From Stdlib Require Import NArith ZArith Lia List Ascii String.
From Stdlib.Strings Require Import Byte.
From stdpp Require Import base option list gmap strings.
Import ListNotations.

(** ** encoding/base64, [StdEncoding]

    The standard library's padded RFC 4648 codec, as the program uses it:
    [EncodeToString] and [DecodeString].  The decoder skips CR and LF
    anywhere in its input and is not strict about trailing bits. *)

Module Base64.
Local Open Scope N_scope.

Definition encodeStd : list ascii :=
  list_ascii_of_string
    "ABCDEFGHIJKLMNOPQRSTUVWXYZabcdefghijklmnopqrstuvwxyz0123456789+/".

Definition padChar : ascii := "="%char.

(** [enc.encode[v]] *)
Definition encode (v : N) : ascii := nth (N.to_nat v) encodeStd padChar.

Fixpoint index_of (c : ascii) (l : list ascii) (i : N) : option N :=
  match l with
  | [] => None
  | x :: l' => if Ascii.eqb c x then Some i else index_of c l' (N.succ i)
  end.

(** [enc.decodeMap[c]], with [None] for the library's 0xff. *)
Definition decodeMap (c : ascii) : option N := index_of c encodeStd 0.

Definition uint (b : byte) : N := Byte.to_N b.

(** The conversion [byte(v)] of an unsigned integer: the low eight bits. *)
Definition byte_of_uint (v : N) : byte :=
  match Byte.of_N (v mod 256) with
  | Some b => b
  | None => x00
  end.

(** [enc.encode[val>>k&0x3F]] *)
Definition sextet (val k : N) : ascii := encode (N.land (N.shiftr val k) 63).

Fixpoint Encode (src : list byte) : list ascii :=
  match src with
  | [] => []
  | [b0] =>
      let val := N.shiftl (uint b0) 16 in
      [sextet val 18; sextet val 12; padChar; padChar]
  | [b0; b1] =>
      let val := N.lor (N.shiftl (uint b0) 16) (N.shiftl (uint b1) 8) in
      [sextet val 18; sextet val 12; sextet val 6; padChar]
  | b0 :: b1 :: b2 :: rest =>
      let val :=
        N.lor (N.lor (N.shiftl (uint b0) 16) (N.shiftl (uint b1) 8)) (uint b2) in
      sextet val 18 :: sextet val 12 :: sextet val 6 :: sextet val 0
        :: Encode rest
  end.

Definition EncodeToString (src : list byte) : string :=
  string_of_list_ascii (Encode src).

Definition is_newline (c : ascii) : bool :=
  Ascii.eqb c "010"%char || Ascii.eqb c "013"%char.

(** One quantum of four characters at a time; [=] may only close the input. *)
Fixpoint decodeQuanta (src : list ascii) : option (list byte) :=
  match src with
  | [] => Some []
  | c0 :: c1 :: c2 :: c3 :: rest =>
      match decodeMap c0, decodeMap c1 with
      | Some d0, Some d1 =>
          if Ascii.eqb c2 padChar then
            if Ascii.eqb c3 padChar then
              match rest with
              | [] =>
                  let val := N.lor (N.shiftl d0 18) (N.shiftl d1 12) in
                  Some [byte_of_uint (N.shiftr val 16)]
              | _ :: _ => None
              end
            else None
          else
            match decodeMap c2 with
            | Some d2 =>
                if Ascii.eqb c3 padChar then
                  match rest with
                  | [] =>
                      let val :=
                        N.lor (N.lor (N.shiftl d0 18) (N.shiftl d1 12))
                              (N.shiftl d2 6) in
                      Some [byte_of_uint (N.shiftr val 16);
                            byte_of_uint (N.shiftr val 8)]
                  | _ :: _ => None
                  end
                else
                  match decodeMap c3 with
                  | Some d3 =>
                      let val :=
                        N.lor (N.lor (N.lor (N.shiftl d0 18) (N.shiftl d1 12))
                                     (N.shiftl d2 6)) d3 in
                      match decodeQuanta rest with
                      | Some tl =>
                          Some (byte_of_uint (N.shiftr val 16)
                                  :: byte_of_uint (N.shiftr val 8)
                                  :: byte_of_uint val :: tl)
                      | None => None
                      end
                  | None => None
                  end
            | None => None
            end
      | _, _ => None
      end
  | _ => None
  end.

Definition DecodeString (s : string) : option (list byte) :=
  decodeQuanta
    (List.filter (fun c => negb (is_newline c)) (list_ascii_of_string s)).

End Base64.

(** ** crypto/aes, crypto/cipher

    [aes.NewCipher] accepts keys of 16, 24 or 32 bytes and fails with a
    key-size error otherwise; [cipher.NewGCM] fails only for a block cipher
    whose block is not 16 bytes long, which an AES block never is.  The
    resulting [cipher.AEAD] is an interface of the library: the program only
    relies on its contract, so it is a class here, with the contract that
    [Open] undoes [Seal] for the same key, nonce and additional data. *)

Record Block := { block_key : list byte }.

Definition aes_NewCipher (key : list byte) : option Block :=
  let n := length key in
  if (n =? 16)%nat || (n =? 24)%nat || (n =? 32)%nat
  then Some {| block_key := key |}
  else None.

Class AEAD := {
  NonceSize : nat;
  Overhead : nat;
  (** [Seal key nonce plaintext additionalData]: ciphertext followed by tag *)
  Seal : list byte -> list byte -> list byte -> list byte -> list byte;
  (** [Open key nonce ciphertext additionalData] *)
  Open : list byte -> list byte -> list byte -> list byte -> option (list byte);
  Open_Seal : forall key nonce plaintext ad,
    length nonce = NonceSize ->
    Open key nonce (Seal key nonce plaintext ad) ad = Some plaintext
}.

(** The AEAD handle of [cipher.NewGCM(block)]: it remembers the key. *)
Record GCM := { gcm_key : list byte }.

Definition cipher_NewGCM (block : Block) : option GCM :=
  Some {| gcm_key := block_key block |}.

(** [io.ReadFull(r, buf)] with [len(buf) = n]: exactly [n] bytes or an error. *)
Definition ReadFull (r : nat -> option (list byte)) (n : nat)
  : option (list byte) :=
  match r n with
  | Some bs => if (length bs =? n)%nat then Some bs else None
  | None => None
  end.

(** ** Errors *)

(** The errors of the KMS manager, one constructor per error the code builds
    or passes on. *)
Inductive error :=
| ErrInvalidKeyLength      (* "key must be 32 bytes for AES-256" *)
| ErrKeySize               (* aes.NewCipher *)
| ErrNewGCM                (* cipher.NewGCM *)
| ErrRandom                (* io.ReadFull(rand.Reader, nonce) *)
| ErrBase64Decode          (* "base64 decode failed: ..." *)
| ErrCiphertextTooShort    (* "ciphertext too short" *)
| ErrAuthentication        (* gcm.Open *)
| ErrGenerateDataKey       (* "failed to generate data key: ..." *)
| ErrDecodeEncryptedKey    (* "failed to decode encrypted key: ..." *)
| ErrDecryptDataKey.       (* "failed to decrypt data key: ..." *)

(** What a handler answers instead of a payload batch ([http.Error]). *)
Inductive http_error :=
| KeyRetrievalFailed (e : error)     (* 500 "Key retrieval failed: ..." *)
| EncryptionFailed (e : error)       (* 500 "Encryption failed: ..." *)
| MissingEncryptedDataKey            (* 400 "Missing encrypted data key" *)
| KeyDecryptionFailed (e : error)    (* 500 "Key decryption failed: ..." *)
| DataDecryptionFailed (e : error)   (* 500 "Data decryption failed: ..." *)
| NilDereference.                    (* a panic: [currentKey] was nil *)

Inductive result (E A : Type) :=
| Ok (a : A)
| Err (e : E).
Arguments Ok {E A} a.
Arguments Err {E A} e.

(** ** Data model *)

(** A [[]byte] held by reference: the index of its buffer in the heap. *)
Definition slice := nat.

Record CurrentDataKey := {
  PlaintextKey : slice;
  EncryptedKey : string;
  GeneratedAt : Z;
  ExpiresAt : Z
}.

Record CachedKey := {
  Key : slice;
  CachedKey_ExpiresAt : Z
}.

Record KMSManager := {
  keyID : string;
  currentDataKey : option CurrentDataKey;
  decryptionCache : gmap string CachedKey;
  cacheTTL : Z;
  keyRotationInterval : Z
}.

Record PayloadData := {
  Metadata : gmap string string;
  Data : string;
  KMSKeyID : string;
  EncryptedDataKey : string;
  Algorithm : string
}.

Record CodecRequest := { Payloads : list PayloadData }.
Record CodecResponse := { Response_Payloads : list PayloadData }.

(** ** The outside world *)

(** A call that reached the remote KMS. *)
Inductive KMSCall :=
| CallGenerateDataKey (KeyId : string) (timestamp : Z)
| CallDecrypt (CiphertextBlob : list byte) (KeyId : string).

Record Env := {
  (** the [n]-th reading of [time.Now()] *)
  env_now : nat -> Z;
  (** the [n]-th read of [rand.Reader], asked for that many bytes *)
  env_rand : nat -> nat -> option (list byte);
  (** the answer to the [n]-th KMS call when it is [GenerateDataKey]:
      [(Plaintext, CiphertextBlob)] *)
  env_GenerateDataKey : nat -> string -> option (list byte * list byte);
  (** the answer to the [n]-th KMS call when it is [Decrypt] *)
  env_Decrypt : nat -> list byte -> string -> option (list byte)
}.

Record State := {
  manager : KMSManager;
  heap : list (list byte);
  clock_reads : nat;
  rand_reads : nat;
  kms_calls : list KMSCall
}.

Definition with_manager (k : KMSManager) (s : State) : State :=
  {| manager := k; heap := heap s; clock_reads := clock_reads s;
     rand_reads := rand_reads s; kms_calls := kms_calls s |}.

Definition with_heap (h : list (list byte)) (s : State) : State :=
  {| manager := manager s; heap := h; clock_reads := clock_reads s;
     rand_reads := rand_reads s; kms_calls := kms_calls s |}.

Definition with_currentDataKey (c : option CurrentDataKey) (k : KMSManager)
  : KMSManager :=
  {| keyID := keyID k; currentDataKey := c;
     decryptionCache := decryptionCache k; cacheTTL := cacheTTL k;
     keyRotationInterval := keyRotationInterval k |}.

Definition with_decryptionCache (m : gmap string CachedKey) (k : KMSManager)
  : KMSManager :=
  {| keyID := keyID k; currentDataKey := currentDataKey k;
     decryptionCache := m; cacheTTL := cacheTTL k;
     keyRotationInterval := keyRotationInterval k |}.

(** The bytes a slice points at (a slice outside the heap reads as empty). *)
Definition bytes_at (h : list (list byte)) (p : slice) : list byte :=
  default [] (h !! p).

(** [for i := range buf { buf[i] = 0 }] *)
Definition zero_bytes (buf : list byte) : list byte :=
  foldl (fun b i => <[i := x00]> b) buf (seq 0 (length buf)).

Definition zero_at (p : slice) (h : list (list byte)) : list (list byte) :=
  match h !! p with
  | Some buf => <[p := zero_bytes buf]> h
  | None => h
  end.

(** ** State and error monad *)

Definition M (E A : Type) : Type := State -> result E A * State.

Definition ret {E A} (a : A) : M E A := fun s => (Ok a, s).
Definition fail {E A} (e : E) : M E A := fun s => (Err e, s).
Definition bind {E A B} (m : M E A) (f : A -> M E B) : M E B :=
  fun s => match m s with
           | (Ok a, s') => f a s'
           | (Err e, s') => (Err e, s')
           end.
(** Runs [m] and wraps its error, as [http.Error(w, "...: "+err.Error(), ...)]. *)
Definition wrap_err {E E' A} (f : E -> E') (m : M E A) : M E' A :=
  fun s => match m s with
           | (Ok a, s') => (Ok a, s')
           | (Err e, s') => (Err (f e), s')
           end.

Declare Scope m_scope.
Delimit Scope m_scope with M.
Notation "x <- m ;; k" := (bind m (fun x => k))
  (at level 100, m at next level, k at level 200, right associativity)
  : m_scope.
Notation "m ;;; k" := (bind m (fun _ => k))
  (at level 100, k at level 200, right associativity) : m_scope.
Local Open Scope m_scope.

Definition get {E} : M E State := fun s => (Ok s, s).
Definition modify {E} (f : State -> State) : M E unit := fun s => (Ok tt, f s).

Section Program.
Context (env : Env) {gcm : AEAD}.

(** [time.Now()] *)
Definition Now {E} : M E Z := fun s =>
  (Ok (env_now env (clock_reads s)),
   {| manager := manager s; heap := heap s; clock_reads := S (clock_reads s);
      rand_reads := rand_reads s; kms_calls := kms_calls s |}).

(** [io.ReadFull(rand.Reader, make([]byte, n))] *)
Definition rand_ReadFull {E} (n : nat) : M E (option (list byte)) := fun s =>
  (Ok (ReadFull (env_rand env (rand_reads s)) n),
   {| manager := manager s; heap := heap s; clock_reads := clock_reads s;
      rand_reads := S (rand_reads s); kms_calls := kms_calls s |}).

Definition log_call (c : KMSCall) (s : State) : State :=
  {| manager := manager s; heap := heap s; clock_reads := clock_reads s;
     rand_reads := rand_reads s; kms_calls := kms_calls s ++ [c] |}.

(** [k.client.GenerateDataKey(ctx, input)] *)
Definition client_GenerateDataKey {E} (KeyId : string) (timestamp : Z)
  : M E (option (list byte * list byte)) := fun s =>
  (Ok (env_GenerateDataKey env (length (kms_calls s)) KeyId),
   log_call (CallGenerateDataKey KeyId timestamp) s).

(** [k.client.Decrypt(ctx, input)] *)
Definition client_Decrypt {E} (blob : list byte) (KeyId : string)
  : M E (option (list byte)) := fun s =>
  (Ok (env_Decrypt env (length (kms_calls s)) blob KeyId),
   log_call (CallDecrypt blob KeyId) s).

(** A byte slice handed to the program by a library: a new buffer. *)
Definition alloc {E} (bs : list byte) : M E slice := fun s =>
  (Ok (length (heap s)), with_heap (heap s ++ [bs]) s).

(** *** The AES-GCM helpers *)

Definition EncryptWithDataKey (data key : list byte) : M error string :=
  if negb (length key =? 32)%nat then fail ErrInvalidKeyLength else
  match aes_NewCipher key with
  | None => fail ErrKeySize
  | Some block =>
      match cipher_NewGCM block with
      | None => fail ErrNewGCM
      | Some aead =>
          r <- rand_ReadFull NonceSize ;;
          match r with
          | None => fail ErrRandom
          | Some nonce =>
              (* gcm.Seal(nonce, nonce, data, nil) *)
              let ciphertext := nonce ++ Seal (gcm_key aead) nonce data [] in
              ret (Base64.EncodeToString ciphertext)
          end
      end
  end.

Definition DecryptWithDataKey (encodedData : string) (key : list byte)
  : result error (list byte) :=
  if negb (length key =? 32)%nat then Err ErrInvalidKeyLength else
  match Base64.DecodeString encodedData with
  | None => Err ErrBase64Decode
  | Some data =>
      match aes_NewCipher key with
      | None => Err ErrKeySize
      | Some block =>
          match cipher_NewGCM block with
          | None => Err ErrNewGCM
          | Some aead =>
              let nonceSize := NonceSize in
              if (length data <? nonceSize)%nat then Err ErrCiphertextTooShort
              else
                let nonce := take nonceSize data in
                let ciphertext := drop nonceSize data in
                match Open (gcm_key aead) nonce ciphertext [] with
                | None => Err ErrAuthentication
                | Some plaintext => Ok plaintext
                end
          end
      end
  end.

(** *** KMSManager *)

(** [time.Time.Unix()]: whole seconds. *)
Definition Unix (t : Z) : Z := (t / 1000000000)%Z.

Definition rotateDataKeyLocked : M error unit :=
  t <- Now ;;
  s <- get ;;
  let k := manager s in
  result <- client_GenerateDataKey (keyID k) (Unix t) ;;
  match result with
  | None => fail ErrGenerateDataKey
  | Some (Plaintext, CiphertextBlob) =>
      plaintext <- alloc Plaintext ;;
      (* zero out the old key if it exists *)
      match currentDataKey k with
      | Some old => modify (fun s => with_heap (zero_at (PlaintextKey old) (heap s)) s)
      | None => ret tt
      end ;;;
      now <- Now ;;
      modify (fun s =>
        with_manager
          (with_currentDataKey
             (Some {| PlaintextKey := plaintext;
                      EncryptedKey := Base64.EncodeToString CiphertextBlob;
                      GeneratedAt := now;
                      ExpiresAt := (now + keyRotationInterval k)%Z |})
             (manager s)) s)
  end.

Definition rotateDataKey : M error unit := rotateDataKeyLocked.

(** [currentKey == nil || time.Now().After(currentKey.ExpiresAt)]; the clock
    is only read for a key that exists. *)
Definition needs_rotation (currentKey : option CurrentDataKey) : M error bool :=
  match currentKey with
  | None => ret true
  | Some c => now <- Now ;; ret (ExpiresAt c <? now)%Z
  end.

Definition GetCurrentDataKey : M error (option CurrentDataKey) :=
  s <- get ;;
  let currentKey := currentDataKey (manager s) in
  stale <- needs_rotation currentKey ;;
  if stale then
    (* double-check after acquiring the write lock *)
    s <- get ;;
    still <- needs_rotation (currentDataKey (manager s)) ;;
    (if still then rotateDataKeyLocked else ret tt) ;;;
    s <- get ;;
    ret (currentDataKey (manager s))
  else ret currentKey.

(** [fmt.Sprintf("%s:%s", encryptedKey, masterKeyARN)] *)
Definition cacheKey (encryptedKey masterKeyARN : string) : string :=
  encryptedKey +:+ ":" +:+ masterKeyARN.

Definition DecryptDataKey (encryptedKey masterKeyARN : string)
  : M error slice :=
  s <- get ;;
  let k := manager s in
  (* the current key (most common case) *)
  let current :=
    match currentDataKey k with
    | Some c =>
        if String.eqb (EncryptedKey c) encryptedKey
        then Some (PlaintextKey c) else None
    | None => None
    end in
  match current with
  | Some key => ret key
  | None =>
      (* the decryption cache for older keys *)
      hit <-
        match decryptionCache k !! cacheKey encryptedKey masterKeyARN with
        | Some cached =>
            now <- Now ;;
            ret (if (now <? CachedKey_ExpiresAt cached)%Z
                 then Some (Key cached) else None)
        | None => ret None
        end ;;
      match hit with
      | Some key => ret key
      | None =>
          (* decrypt using KMS (for older keys) *)
          match Base64.DecodeString encryptedKey with
          | None => fail ErrDecodeEncryptedKey
          | Some encryptedBlob =>
              result <- client_Decrypt encryptedBlob masterKeyARN ;;
              match result with
              | None => fail ErrDecryptDataKey
              | Some Plaintext =>
                  plaintext <- alloc Plaintext ;;
                  now <- Now ;;
                  modify (fun s =>
                    let k := manager s in
                    with_manager
                      (with_decryptionCache
                         (<[encryptedKey :=
                              {| Key := plaintext;
                                 CachedKey_ExpiresAt := (now + cacheTTL k)%Z |}]>
                            (decryptionCache k)) k) s) ;;;
                  ret plaintext
              end
          end
      end
  end.

(** The loop of [CleanupCache]: every entry the clock has passed has its
    key bytes zeroed and is deleted. *)
Definition CleanupCache {E} : M E unit :=
  now <- Now ;;
  modify (fun s =>
    let k := manager s in
    let swept :=
      map_fold
        (fun key cached (acc : list (list byte) * gmap string CachedKey) =>
           if (CachedKey_ExpiresAt cached <? now)%Z
           then (zero_at (Key cached) (fst acc), delete key (snd acc))
           else acc)
        (heap s, decryptionCache k) (decryptionCache k) in
    with_manager (with_decryptionCache (snd swept) k) (with_heap (fst swept) s)).

Definition NewKMSManager (keyID : string) (cacheTTL rotationInterval : Z)
  : M error unit :=
  modify (with_manager
            {| keyID := keyID; currentDataKey := None; decryptionCache := ∅;
               cacheTTL := cacheTTL;
               keyRotationInterval := rotationInterval |}) ;;;
  (* generate the initial data key *)
  rotateDataKey.

(** *** The codec handlers

    Both take the request as decoded from JSON and answer either a payload
    batch or an [http.Error]. *)

(** The body of the loop of [handleEncode]; the result is [response.Payloads]
    after the iteration. *)
Definition encodePayload (payload : PayloadData) (response : list PayloadData)
  : M http_error (list PayloadData) :=
  let encoding := Metadata payload !! "encoding" in
  if match encoding with
     | None => true
     | Some e => String.eqb e "json/plain"
     end
  then
    currentKey <- wrap_err KeyRetrievalFailed GetCurrentDataKey ;;
    match currentKey with
    | None => fail NilDereference
    | Some currentKey =>
        let dataToEncrypt :=
          if String.eqb (Data payload) "" then []
          else match Base64.DecodeString (Data payload) with
               | Some decoded => decoded
               | None => list_byte_of_string (Data payload)
               end in
        s <- get ;;
        encryptedData <-
          wrap_err EncryptionFailed
            (EncryptWithDataKey dataToEncrypt
               (bytes_at (heap s) (PlaintextKey currentKey))) ;;
        k <- get ;;
        let encodedPayload :=
          {| Metadata := {[ "encoding" := "binary/encrypted" ]};
             Data := encryptedData;
             KMSKeyID := keyID (manager k);
             EncryptedDataKey := EncryptedKey currentKey;
             Algorithm := "AES-256-GCM" |} in
        ret (response ++ [encodedPayload])
    end
  else ret response.

Fixpoint encodeLoop (payloads response : list PayloadData)
  : M http_error (list PayloadData) :=
  match payloads with
  | [] => ret response
  | payload :: rest =>
      response' <- encodePayload payload response ;;
      encodeLoop rest response'
  end.

Definition handleEncode (req : CodecRequest) : M http_error CodecResponse :=
  ps <- encodeLoop (Payloads req) [] ;;
  ret {| Response_Payloads := ps |}.

(** The body of the loop of [handleDecode]. *)
Definition decodePayload (payload : PayloadData) (response : list PayloadData)
  : M http_error (list PayloadData) :=
  if negb (String.eqb (default "" (Metadata payload !! "encoding"))
                      "binary/encrypted")
  then ret (response ++ [payload])
  else if String.eqb (EncryptedDataKey payload) ""
  then fail MissingEncryptedDataKey
  else
    dataKey <-
      wrap_err KeyDecryptionFailed
        (DecryptDataKey (EncryptedDataKey payload) (KMSKeyID payload)) ;;
    s <- get ;;
    match DecryptWithDataKey (Data payload) (bytes_at (heap s) dataKey) with
    | Err e => fail (DataDecryptionFailed e)
    | Ok decryptedData =>
        let decodedPayload :=
          {| Metadata := {[ "encoding" := "json/plain" ]};
             Data := Base64.EncodeToString decryptedData;
             KMSKeyID := "";
             EncryptedDataKey := "";
             Algorithm := "" |} in
        ret (response ++ [decodedPayload])
    end.

Fixpoint decodeLoop (payloads response : list PayloadData)
  : M http_error (list PayloadData) :=
  match payloads with
  | [] => ret response
  | payload :: rest =>
      response' <- decodePayload payload response ;;
      decodeLoop rest response'
  end.

Definition handleDecode (req : CodecRequest) : M http_error CodecResponse :=
  ps <- decodeLoop (Payloads req) [] ;;
  ret {| Response_Payloads := ps |}.

(** *** The codec without KMS

    The loop of [handleEncode] of the local-key [EncryptionCodec], the
    sibling of the KMS codec, for comparison with [encodePayload]. *)

Record EncryptionCodec := { codec_keyID : string; codec_key : list byte }.

Definition EncryptionCodec_encrypt (c : EncryptionCodec) (data : list byte)
  : M error string :=
  match aes_NewCipher (codec_key c) with
  | None => fail ErrKeySize
  | Some block =>
      match cipher_NewGCM block with
      | None => fail ErrNewGCM
      | Some aead =>
          r <- rand_ReadFull NonceSize ;;
          match r with
          | None => fail ErrRandom
          | Some nonce =>
              let ciphertext := nonce ++ Seal (gcm_key aead) nonce data [] in
              ret (Base64.EncodeToString ciphertext)
          end
      end
  end.

Definition EncryptionCodec_encodePayload (c : EncryptionCodec)
    (payload : PayloadData) (response : list PayloadData)
  : M http_error (list PayloadData) :=
  let encoding := Metadata payload !! "encoding" in
  if match encoding with
     | None => true
     | Some e => String.eqb e "json/plain"
     end
  then
    let dataToEncrypt :=
      if String.eqb (Data payload) "" then []
      else match Base64.DecodeString (Data payload) with
           | Some decoded => decoded
           | None => list_byte_of_string (Data payload)
           end in
    encryptedData <-
      wrap_err EncryptionFailed (EncryptionCodec_encrypt c dataToEncrypt) ;;
    let encodedPayload :=
      {| Metadata := <[ "keyID" := codec_keyID c ]>
                       {[ "encoding" := "binary/encrypted" ]};
         Data := encryptedData;
         KMSKeyID := ""; EncryptedDataKey := ""; Algorithm := "" |} in
    ret (response ++ [encodedPayload])
  else
    (* already encrypted or different encoding, return as-is *)
    ret (response ++ [payload]).

End Program.

(** *** The rest of the codec without KMS

    The constructor of [EncryptionCodec], its [decrypt], its two handlers
    and the choice of the key in its [main].  The payloads of this codec
    have no key fields: they stay empty here. *)

(** What this codec's [handleDecode] answers instead of a payload batch. *)
Inductive local_http_error :=
| DecryptionFailed (e : error).       (* 500 "Decryption failed: ..." *)

Section LocalCodec.
Context (env : Env) {gcm : AEAD}.

(** [NewEncryptionCodec]; [None] is its panic. *)
Definition NewEncryptionCodec (key : list byte) (keyID : string)
  : option EncryptionCodec :=
  if negb (length key =? 32)%nat then None
  else Some {| codec_keyID := keyID; codec_key := key |}.

Definition EncryptionCodec_decrypt (c : EncryptionCodec) (encodedData : string)
  : result error (list byte) :=
  match Base64.DecodeString encodedData with
  | None => Err ErrBase64Decode
  | Some data =>
      match aes_NewCipher (codec_key c) with
      | None => Err ErrKeySize
      | Some block =>
          match cipher_NewGCM block with
          | None => Err ErrNewGCM
          | Some aead =>
              let nonceSize := NonceSize in
              if (length data <? nonceSize)%nat then Err ErrCiphertextTooShort
              else
                let nonce := take nonceSize data in
                let ciphertext := drop nonceSize data in
                match Open (gcm_key aead) nonce ciphertext [] with
                | None => Err ErrAuthentication
                | Some plaintext => Ok plaintext
                end
          end
      end
  end.

Fixpoint EncryptionCodec_encodeLoop (c : EncryptionCodec)
    (payloads response : list PayloadData) : M http_error (list PayloadData) :=
  match payloads with
  | [] => ret response
  | payload :: rest =>
      response' <- EncryptionCodec_encodePayload env c payload response ;;
      EncryptionCodec_encodeLoop c rest response'
  end.

Definition EncryptionCodec_handleEncode (c : EncryptionCodec)
    (req : CodecRequest) : M http_error CodecResponse :=
  ps <- EncryptionCodec_encodeLoop c (Payloads req) [] ;;
  ret {| Response_Payloads := ps |}.

(** The body of the loop of this codec's [handleDecode]. *)
Definition EncryptionCodec_decodePayload (c : EncryptionCodec)
    (payload : PayloadData) (response : list PayloadData)
  : M local_http_error (list PayloadData) :=
  if negb (String.eqb (default "" (Metadata payload !! "encoding"))
                      "binary/encrypted")
  then ret (response ++ [payload])
  else
    match EncryptionCodec_decrypt c (Data payload) with
    | Err e => fail (DecryptionFailed e)
    | Ok decryptedData =>
        let decodedPayload :=
          {| Metadata := <[ "keyID" := codec_keyID c ]>
                           {[ "encoding" := "json/plain" ]};
             Data := Base64.EncodeToString decryptedData;
             KMSKeyID := ""; EncryptedDataKey := ""; Algorithm := "" |} in
        ret (response ++ [decodedPayload])
    end.

Fixpoint EncryptionCodec_decodeLoop (c : EncryptionCodec)
    (payloads response : list PayloadData)
  : M local_http_error (list PayloadData) :=
  match payloads with
  | [] => ret response
  | payload :: rest =>
      response' <- EncryptionCodec_decodePayload c payload response ;;
      EncryptionCodec_decodeLoop c rest response'
  end.

Definition EncryptionCodec_handleDecode (c : EncryptionCodec)
    (req : CodecRequest) : M local_http_error CodecResponse :=
  ps <- EncryptionCodec_decodeLoop c (Payloads req) [] ;;
  ret {| Response_Payloads := ps |}.

(** The codec that the [main] of this server builds for the value of
    [CODEC_KEY] in its environment; [None] is [log.Fatal] or a panic. *)
Definition EncryptionCodec_main (CODEC_KEY : string) : option EncryptionCodec :=
  let keyStr :=
    if String.eqb CODEC_KEY "" then "12345678901234567890123456789012"
    else CODEC_KEY in
  if negb (String.length keyStr =? 32)%nat then None
  else
    let keyID := "123abc" in
    NewEncryptionCodec (list_byte_of_string keyStr) keyID.

End LocalCodec.

(** *** keygen

    [main] of keygen.go for the random source [r]: the line it prints;
    [None] is its panic. *)
Definition keygen_main (r : nat -> option (list byte)) : option string :=
  match ReadFull r 32 with
  | Some key => Some (Base64.EncodeToString key)
  | None => None
  end.

(** *** The statistics of the manager *)

(** The values of the map of [GetKeyStats]: a count, a duration (the code
    stores its rendering as text) or a flag. *)
Inductive stat :=
| StatCount (n : nat)
| StatDuration (d : Z)
| StatFlag (b : bool).

Section Stats.
Context (env : Env).

Definition GetKeyStats {E} : M E (gmap string stat) :=
  s <- get ;;
  let k := manager s in
  let stats : gmap string stat :=
    {[ "cached_keys_count" := StatCount (size (decryptionCache k)) ]} in
  match currentDataKey k with
  | Some c =>
      now1 <- Now env ;;
      now2 <- Now env ;;
      now3 <- Now env ;;
      ret (<[ "current_key_expired" := StatFlag (ExpiresAt c <? now3)%Z ]>
           (<[ "current_key_expires_in" := StatDuration (ExpiresAt c - now2)%Z ]>
            (<[ "current_key_age" := StatDuration (now1 - GeneratedAt c)%Z ]>
             stats)))
  | None => ret stats
  end.

End Stats.

(** *** The client of a codec server

    [RemoteCodecClient] turns the payloads of the workflow engine into a
    codec request, posts it and turns the answer back.  What answers at
    [c.endpoint] is a parameter: [Post path request] is the exchange with
    that server, whose state it may change. *)

(** [commonpb.Payload] *)
Record Payload := {
  Payload_Metadata : gmap string (list byte);
  Payload_Data : list byte
}.

(** The answer to a POST: its status, and the [CodecResponse] its body
    parses to, if it does. *)
Record http_response := {
  StatusCode : nat;
  Body : option CodecResponse
}.

Inductive send_error :=
| ErrHTTPRequest            (* "HTTP request failed: ..." *)
| ErrStatus (code : nat)    (* "codec server returned status %d" *)
| ErrDecodeResponse.        (* "failed to decode response: ..." *)

Inductive client_error :=
| EncodeRequestFailed (e : send_error)  (* "encode request failed: ..." *)
| DecodeRequestFailed (e : send_error)  (* "decode request failed: ..." *)
| ErrResponseData.                      (* "failed to decode base64 data: ..." *)

(** The status of an [http.Error] of the KMS codec; a panic of the handler
    leaves the client without a response. *)
Definition http_status (e : http_error) : option nat :=
  match e with
  | KeyRetrievalFailed _ => Some 500%nat
  | EncryptionFailed _ => Some 500%nat
  | MissingEncryptedDataKey => Some 400%nat
  | KeyDecryptionFailed _ => Some 500%nat
  | DataDecryptionFailed _ => Some 500%nat
  | NilDereference => None
  end.

Definition local_http_status (e : local_http_error) : option nat :=
  match e with
  | DecryptionFailed _ => Some 500%nat
  end.

(** A handler seen from the network: status 200 with the response as body,
    or the status of its [http.Error]. *)
Definition serve {E} (status : E -> option nat)
    (handler : CodecRequest -> M E CodecResponse) (req : CodecRequest)
  : State -> option http_response * State := fun s =>
  match handler req s with
  | (Ok resp, s') => (Some {| StatusCode := 200; Body := Some resp |}, s')
  | (Err e, s') =>
      (match status e with
       | Some code => Some {| StatusCode := code; Body := None |}
       | None => None
       end, s')
  end.

Section Client.
Context (Post : string -> CodecRequest -> State -> option http_response * State).

Definition sendRequest (endpoint : string) (request : CodecRequest)
  : M send_error CodecResponse := fun s =>
  match Post endpoint request s with
  | (None, s') => (Err ErrHTTPRequest, s')
  | (Some resp, s') =>
      if negb (StatusCode resp =? 200)%nat
      then (Err (ErrStatus (StatusCode resp)), s')
      else match Body resp with
           | None => (Err ErrDecodeResponse, s')
           | Some response => (Ok response, s')
           end
  end.

(** The request entry built for a payload: the metadata as strings, the
    data in base64 and nothing else. *)
Definition to_PayloadData (payload : Payload) : PayloadData :=
  {| Metadata := string_of_list_byte <$> Payload_Metadata payload;
     Data := Base64.EncodeToString (Payload_Data payload);
     KMSKeyID := ""; EncryptedDataKey := ""; Algorithm := "" |}.

(** The payload built from a response entry; [None] when its data is not
    base64. *)
Definition to_Payload (payloadData : PayloadData) : option Payload :=
  match Base64.DecodeString (Data payloadData) with
  | None => None
  | Some data =>
      Some {| Payload_Metadata := list_byte_of_string <$> Metadata payloadData;
              Payload_Data := data |}
  end.

Fixpoint to_Payloads (payloads : list PayloadData) : option (list Payload) :=
  match payloads with
  | [] => Some []
  | payloadData :: rest =>
      match to_Payload payloadData with
      | None => None
      | Some p =>
          match to_Payloads rest with
          | None => None
          | Some ps => Some (p :: ps)
          end
      end
  end.

Definition RemoteCodecClient_Encode (payloads : list Payload)
  : M client_error (list Payload) :=
  if (length payloads =? 0)%nat then ret payloads else
  let request := {| Payloads := to_PayloadData <$> payloads |} in
  response <- wrap_err EncodeRequestFailed (sendRequest "/encode" request) ;;
  match to_Payloads (Response_Payloads response) with
  | None => fail ErrResponseData
  | Some result => ret result
  end.

Definition RemoteCodecClient_Decode (payloads : list Payload)
  : M client_error (list Payload) :=
  if (length payloads =? 0)%nat then ret payloads else
  let request := {| Payloads := to_PayloadData <$> payloads |} in
  response <- wrap_err DecodeRequestFailed (sendRequest "/decode" request) ;;
  match to_Payloads (Response_Payloads response) with
  | None => fail ErrResponseData
  | Some result => ret result
  end.

End Client.

(** * The vocabulary of the statements

    Predicates and closed forms that the theorems below are stated with. *)

Section Vocabulary.
Context (env : Env).

(** The key a successful rotation installs in state [s] when the KMS
    answers with the wrapped key [blob]. *)
Definition rotated_key (s : State) (blob : list byte) : CurrentDataKey :=
  let now := env_now env (S (clock_reads s)) in
  {| PlaintextKey := length (heap s);
     EncryptedKey := Base64.EncodeToString blob;
     GeneratedAt := now;
     ExpiresAt := (now + keyRotationInterval (manager s))%Z |}.

(** [k.currentDataKey != nil && k.currentDataKey.EncryptedKey == encryptedKey] *)
Definition is_current (s : State) (encryptedKey : string) : bool :=
  match currentDataKey (manager s) with
  | Some c => String.eqb (EncryptedKey c) encryptedKey
  | None => false
  end.

(** Every key of the decryption cache is a string that base64-decodes. *)
Definition cache_keys_base64 (s : State) : Prop :=
  forall key c,
    decryptionCache (manager s) !! key = Some c ->
    is_Some (Base64.DecodeString key).

(** The entry [DecryptDataKey] stores after a KMS decryption in state [s]. *)
Definition cached_entry (s : State) : CachedKey :=
  {| Key := length (heap s);
     CachedKey_ExpiresAt :=
       (env_now env (clock_reads s) + cacheTTL (manager s))%Z |}.

(** The state [DecryptDataKey] leaves after a KMS decryption of [raw] that
    answered [plaintext]. *)
Definition after_kms_decrypt (s : State) (encryptedKey masterKeyARN : string)
    (raw plaintext : list byte) : State :=
  {| manager :=
       with_decryptionCache
         (<[encryptedKey := cached_entry s]> (decryptionCache (manager s)))
         (manager s);
     heap := heap s ++ [plaintext];
     clock_reads := S (clock_reads s);
     rand_reads := rand_reads s;
     kms_calls := kms_calls s ++ [CallDecrypt raw masterKeyARN] |}.

Definition expired (now : Z) (c : CachedKey) : bool :=
  (CachedKey_ExpiresAt c <? now)%Z.

(** The loop of [CleanupCache], run at clock reading [now] over the map
    [m], starting from heap [h] and map [m0]. *)
Definition sweep (now : Z) (h : list (list byte)) (m0 m : gmap string CachedKey)
  : list (list byte) * gmap string CachedKey :=
  map_fold
    (fun key cached (acc : list (list byte) * gmap string CachedKey) =>
       if (CachedKey_ExpiresAt cached <? now)%Z
       then (zero_at (Key cached) (fst acc), delete key (snd acc))
       else acc)
    (h, m0) m.

(** The wrapped key [blob] was handed out by the KMS. *)
Definition from_kms (blob : list byte) : Prop :=
  exists n KeyId Plaintext,
    env_GenerateDataKey env n KeyId = Some (Plaintext, blob).

(** The data key [c] carries a wrapped key that the KMS handed out in one
    of the calls recorded in [s]. *)
Definition issued_before (s : State) (c : CurrentDataKey) : Prop :=
  exists n KeyId Plaintext blob,
    (n < length (kms_calls s))%nat
    /\ env_GenerateDataKey env n KeyId = Some (Plaintext, blob)
    /\ EncryptedKey c = Base64.EncodeToString blob.

(** The current key, if there is one, was issued by the KMS and its
    plaintext buffer is in the heap. *)
Definition current_key_issued (s : State) : Prop :=
  forall c,
    currentDataKey (manager s) = Some c ->
    issued_before s c /\ (PlaintextKey c < length (heap s))%nat.

(** The KMS never hands out the same wrapped key twice. *)
Definition kms_never_repeats : Prop :=
  forall n m KeyId KeyId' Plaintext Plaintext' blob blob',
    env_GenerateDataKey env n KeyId = Some (Plaintext, blob) ->
    env_GenerateDataKey env m KeyId' = Some (Plaintext', blob') ->
    n <> m -> blob <> blob'.

(** The KMS never hands out an empty wrapped key. *)
Definition kms_blobs_nonempty : Prop :=
  forall blob, from_kms blob -> blob <> [].

(** The manager [k'] is [k], possibly with a newly generated current key. *)
Definition same_or_rotated (k k' : KMSManager) : Prop :=
  k' = k
  \/ exists p t blob,
       from_kms blob
       /\ k' = with_currentDataKey
                 (Some {| PlaintextKey := p;
                          EncryptedKey := Base64.EncodeToString blob;
                          GeneratedAt := t;
                          ExpiresAt := (t + keyRotationInterval k)%Z |}) k.

(** The test of [handleEncode]: [!exists || encoding == "json/plain"]. *)
Definition is_candidate (payload : PayloadData) : bool :=
  match Metadata payload !! "encoding" with
  | None => true
  | Some e => String.eqb e "json/plain"
  end.

(** The key metadata of an emitted payload: marked as encrypted, with the
    master key identifier of the manager [k], a wrapped data key and the
    algorithm tag. *)
Definition carries_key_metadata (k : KMSManager) (p : PayloadData) : Prop :=
  Metadata p !! "encoding" = Some "binary/encrypted"
  /\ KMSKeyID p = keyID k /\ KMSKeyID p <> ""
  /\ EncryptedDataKey p <> ""
  /\ Algorithm p = "AES-256-GCM".

(** The manager has a master key identifier, and its current key a blob. *)
Definition has_key_ids (k : KMSManager) : Prop :=
  keyID k <> ""
  /\ forall c, currentDataKey k = Some c -> EncryptedKey c <> "".

(** The bytes [handleEncode] encrypts for a payload: its [data] decoded
    from base64 when it decodes, and as it is otherwise. *)
Definition dataToEncrypt (payload : PayloadData) : list byte :=
  if String.eqb (Data payload) "" then []
  else match Base64.DecodeString (Data payload) with
       | Some decoded => decoded
       | None => list_byte_of_string (Data payload)
       end.

(** The test of [handleDecode]: [payload.Metadata["encoding"] ==
    "binary/encrypted"]. *)
Definition is_encrypted (payload : PayloadData) : bool :=
  String.eqb (default "" (Metadata payload !! "encoding")) "binary/encrypted".

(** An encrypted payload that comes without its wrapped data key. *)
Definition missing_key_material (payload : PayloadData) : Prop :=
  is_encrypted payload = true /\ EncryptedDataKey payload = "".

(** What a decode iteration appends: the payload itself when it is not
    encrypted, and otherwise a payload whose only metadata is the plain
    encoding and whose key fields are empty. *)
Definition decoded_from (payload q : PayloadData) : Prop :=
  if is_encrypted payload
  then Metadata q = {[ "encoding" := "json/plain" ]}
       /\ KMSKeyID q = "" /\ EncryptedDataKey q = "" /\ Algorithm q = ""
  else q = payload.

End Vocabulary.

(** The states of a running server: what [NewKMSManager] builds, and what
    any operation or request makes of such a state, whatever its outcome. *)
Inductive reachable (env : Env) {gcm : AEAD} : State -> Prop :=
| reachable_new s0 keyID cacheTTL rotationInterval :
    reachable env (snd (NewKMSManager env keyID cacheTTL rotationInterval s0))
| reachable_GetCurrentDataKey s :
    reachable env s -> reachable env (snd (GetCurrentDataKey env s))
| reachable_rotateDataKey s :
    reachable env s -> reachable env (snd (rotateDataKey env s))
| reachable_DecryptDataKey s encryptedKey masterKeyARN :
    reachable env s ->
    reachable env (snd (DecryptDataKey env encryptedKey masterKeyARN s))
| reachable_CleanupCache s :
    reachable env s -> reachable env (snd (@CleanupCache env error s))
| reachable_handleEncode s req :
    reachable env s -> reachable env (snd (handleEncode env req s))
| reachable_handleDecode s req :
    reachable env s -> reachable env (snd (handleDecode env req s)).

(** ** The vocabulary for the codec without KMS and for the client *)

Section LocalVocabulary.
Context {gcm : AEAD}.

(** What an encode iteration of the codec without KMS appends for
    [payload]: the payload itself when it is no candidate, and otherwise a
    payload marked as encrypted that names the key of the codec and whose
    data the codec decrypts to the bytes that were to be encrypted. *)
Definition local_encoded_from (c : EncryptionCodec) (payload q : PayloadData)
  : Prop :=
  if is_candidate payload
  then Metadata q = <[ "keyID" := codec_keyID c ]>
                      {[ "encoding" := "binary/encrypted" ]}
       /\ EncryptionCodec_decrypt c (Data q) = Ok (dataToEncrypt payload)
  else q = payload.

End LocalVocabulary.

(** What encoding and then decoding with the codec without KMS makes of
    [payload]. *)
Definition local_round_trip (c : EncryptionCodec) (payload : PayloadData)
  : PayloadData :=
  if is_candidate payload
  then {| Metadata := <[ "keyID" := codec_keyID c ]>
                        {[ "encoding" := "json/plain" ]};
          Data := Base64.EncodeToString (dataToEncrypt payload);
          KMSKeyID := ""; EncryptedDataKey := ""; Algorithm := "" |}
  else payload.

(** The [encoding] entry of a payload of the workflow engine, as the
    string the client sends. *)
Definition Payload_encoding (p : Payload) : option string :=
  string_of_list_byte <$> (Payload_Metadata p !! "encoding").

(** The payload is marked as encrypted. *)
Definition Payload_is_encrypted (p : Payload) : bool :=
  String.eqb (default "" (Payload_encoding p)) "binary/encrypted".

(** The payload is one that the encode handlers encrypt. *)
Definition Payload_is_candidate (p : Payload) : bool :=
  match Payload_encoding p with
  | None => true
  | Some e => String.eqb e "json/plain"
  end.

(** The link between client and server loses nothing: posting to [path]
    runs [handler] on the request as the client built it, and the client
    reads the answer as the server gave it. *)
Definition lossless_link {E}
    (Post : string -> CodecRequest -> State -> option http_response * State)
    (path : string) (status : E -> option nat)
    (handler : CodecRequest -> M E CodecResponse) : Prop :=
  forall req s, Post path req s = serve status handler req s.

(** What the client gets back for [p] after encoding and decoding through
    the codec without KMS: the payload itself when it is no candidate, and
    otherwise its data under the metadata the decode handler writes. *)
Definition client_round_trip (c : EncryptionCodec) (p : Payload) : Payload :=
  if Payload_is_candidate p
  then {| Payload_Metadata :=
            <[ "keyID" := list_byte_of_string (codec_keyID c) ]>
              {[ "encoding" := list_byte_of_string "json/plain" ]};
          Payload_Data := Payload_Data p |}
  else p.

Section ManagerVocabulary.
Context (env : Env).


(** The buffers of the keys: every cached key has its buffer in the heap;
    the current key has a buffer that no cached key shares, and that buffer
    holds the plaintext the KMS issued, for the master key of the manager,
    together with the wrapped key that the current key carries. *)
Definition key_buffers_sound (s : State) : Prop :=
  (forall key e,
      decryptionCache (manager s) !! key = Some e ->
      (Key e < length (heap s))%nat)
  /\ forall c,
       currentDataKey (manager s) = Some c ->
       (PlaintextKey c < length (heap s))%nat
       /\ (forall key e,
             decryptionCache (manager s) !! key = Some e ->
             Key e <> PlaintextKey c)
       /\ exists n blob,
            env_GenerateDataKey env n (keyID (manager s))
              = Some (bytes_at (heap s) (PlaintextKey c), blob)
            /\ EncryptedKey c = Base64.EncodeToString blob.

End ManagerVocabulary.


(** What an encode request may make of the state [s] when it holds [n]
    candidates: the decryption cache and the master key identifier stay,
    and the only calls of the KMS are at most [n] requests for a new data
    key under the master key. *)
Definition encode_frame (n : nat) (s s' : State) : Prop :=
  decryptionCache (manager s') = decryptionCache (manager s)
  /\ keyID (manager s') = keyID (manager s)
  /\ exists calls,
       kms_calls s' = kms_calls s ++ calls
       /\ Forall (fun c => exists t,
                    c = CallGenerateDataKey (keyID (manager s)) t) calls
       /\ (length calls <= n)%nat.

(** What a decode request may make of the state [s] when it holds [n]
    payloads marked as encrypted: the current data key and the master key
    identifier stay, no random bytes are drawn, the buffers that exist stay
    as they are, and the only calls of the KMS are at most [n] decryptions
    of a wrapped key. *)
Definition decode_frame (n : nat) (s s' : State) : Prop :=
  currentDataKey (manager s') = currentDataKey (manager s)
  /\ keyID (manager s') = keyID (manager s)
  /\ rand_reads s' = rand_reads s
  /\ (exists new, heap s' = heap s ++ new)
  /\ exists calls,
       kms_calls s' = kms_calls s ++ calls
       /\ Forall (fun c => exists blob KeyId, c = CallDecrypt blob KeyId) calls
       /\ (length calls <= n)%nat.

(** Nothing in the manager refers to the buffer [p]: it is neither the
    buffer of a cached key nor that of the current key. *)
Definition unreferenced (s : State) (p : slice) : Prop :=
  (forall key e, decryptionCache (manager s) !! key = Some e -> Key e <> p)
  /\ (forall c, currentDataKey (manager s) = Some c -> PlaintextKey c <> p).

(** The states that a server in state [s] may get to: by any operation of
    the manager and any request, whatever its outcome. *)
Inductive runs_to (env : Env) {gcm : AEAD} (s : State) : State -> Prop :=
| runs_to_refl : runs_to env s s
| runs_to_GetCurrentDataKey s' :
    runs_to env s s' -> runs_to env s (snd (GetCurrentDataKey env s'))
| runs_to_rotateDataKey s' :
    runs_to env s s' -> runs_to env s (snd (rotateDataKey env s'))
| runs_to_DecryptDataKey s' encryptedKey masterKeyARN :
    runs_to env s s' ->
    runs_to env s (snd (DecryptDataKey env encryptedKey masterKeyARN s'))
| runs_to_CleanupCache s' :
    runs_to env s s' -> runs_to env s (snd (@CleanupCache env error s'))
| runs_to_handleEncode s' req :
    runs_to env s s' -> runs_to env s (snd (handleEncode env req s'))
| runs_to_handleDecode s' req :
    runs_to env s s' -> runs_to env s (snd (handleDecode env req s')).

(** The errors an encode request of the KMS codec can be answered with. *)
Definition encode_error (e : http_error) : Prop :=
  e = KeyRetrievalFailed ErrGenerateDataKey
  \/ e = EncryptionFailed ErrInvalidKeyLength
  \/ e = EncryptionFailed ErrRandom.

(** The errors a decode request of the KMS codec can be answered with. *)
Definition decode_error (e : http_error) : Prop :=
  e = MissingEncryptedDataKey
  \/ e = KeyDecryptionFailed ErrDecodeEncryptedKey
  \/ e = KeyDecryptionFailed ErrDecryptDataKey
  \/ e = DataDecryptionFailed ErrInvalidKeyLength
  \/ e = DataDecryptionFailed ErrBase64Decode
  \/ e = DataDecryptionFailed ErrCiphertextTooShort
  \/ e = DataDecryptionFailed ErrAuthentication.

(** * Facts about the base64 codec *)

Module Base64Facts.
Import Base64.
Local Open Scope N_scope.

Lemma lor_disjoint x b n : x mod 2 ^ n = 0 -> b < 2 ^ n -> N.lor x b = x + b.
Proof.
  intros Hx Hb.
  assert (Hl : N.land x b = 0).
  { apply N.bits_inj. intros m. rewrite N.land_spec, N.bits_0.
    destruct (N.lt_ge_cases m n) as [Hm|Hm].
    - rewrite <- (N.mod_pow2_bits_low x n m Hm), Hx, N.bits_0. reflexivity.
    - rewrite <- (N.mod_small b (2 ^ n) Hb), (N.mod_pow2_bits_high b n m Hm).
      apply andb_false_r. }
  rewrite (N.add_nocarry_lxor _ _ Hl). symmetry. apply N.lxor_lor, Hl.
Qed.

Lemma land_63 x : N.land x 63 = x mod 64.
Proof. change 63 with (N.ones 6). rewrite N.land_ones. reflexivity. Qed.

Lemma land_63_lt x : N.land x 63 < 64.
Proof. rewrite land_63. apply N.mod_lt. discriminate. Qed.

Lemma uint_lt b : uint b < 256.
Proof. unfold uint. pose proof (Byte.to_N_bounded b). lia. Qed.

Lemma byte_of_uint_eq x b : x mod 256 = uint b -> byte_of_uint x = b.
Proof.
  intros H. unfold byte_of_uint. rewrite H. unfold uint.
  rewrite Byte.of_to_N. reflexivity.
Qed.

Ltac arith := zify; Z.to_euclidean_division_equations; lia.

(** The three bytes of a quantum packed into one integer. *)
Lemma pack3 b0 b1 b2 :
  b0 < 256 -> b1 < 256 -> b2 < 256 ->
  N.lor (N.lor (N.shiftl b0 16) (N.shiftl b1 8)) b2
  = b0 * 65536 + b1 * 256 + b2.
Proof.
  intros H0 H1 H2. rewrite !N.shiftl_mul_pow2.
  change (2 ^ 16) with 65536. change (2 ^ 8) with 256.
  rewrite (lor_disjoint (b0 * 65536) (b1 * 256) 16).
  - rewrite (lor_disjoint _ b2 8).
    + reflexivity.
    + change (2 ^ 8) with 256. arith.
    + exact H2.
  - change (2 ^ 16) with 65536. arith.
  - change (2 ^ 16) with 65536. arith.
Qed.

(** The four sextets of a quantum packed into one integer. *)
Lemma pack4 d0 d1 d2 d3 :
  d0 < 64 -> d1 < 64 -> d2 < 64 -> d3 < 64 ->
  N.lor (N.lor (N.lor (N.shiftl d0 18) (N.shiftl d1 12)) (N.shiftl d2 6)) d3
  = d0 * 262144 + d1 * 4096 + d2 * 64 + d3.
Proof.
  intros H0 H1 H2 H3. rewrite !N.shiftl_mul_pow2.
  change (2 ^ 18) with 262144. change (2 ^ 12) with 4096.
  change (2 ^ 6) with 64.
  rewrite (lor_disjoint (d0 * 262144) (d1 * 4096) 18).
  - rewrite (lor_disjoint _ (d2 * 64) 12).
    + rewrite (lor_disjoint _ d3 6).
      * reflexivity.
      * change (2 ^ 6) with 64. arith.
      * exact H3.
    + change (2 ^ 12) with 4096. arith.
    + change (2 ^ 12) with 4096. arith.
  - change (2 ^ 18) with 262144. arith.
  - change (2 ^ 18) with 262144. arith.
Qed.

Lemma encode_cases (P : N -> Prop) :
  (forall n : nat, (n < 64)%nat -> P (N.of_nat n)) -> forall v, v < 64 -> P v.
Proof.
  intros H v Hv. rewrite <- (N2Nat.id v). apply H. lia.
Qed.

Lemma decodeMap_encode v : v < 64 -> decodeMap (encode v) = Some v.
Proof.
  revert v. apply encode_cases. intros n Hn.
  do 64 (destruct n as [|n]; [reflexivity|]). lia.
Qed.

Lemma encode_not_pad v : v < 64 -> Ascii.eqb (encode v) padChar = false.
Proof.
  revert v. apply encode_cases. intros n Hn.
  do 64 (destruct n as [|n]; [reflexivity|]). lia.
Qed.

Lemma encode_not_newline v : v < 64 -> is_newline (encode v) = false.
Proof.
  revert v. apply encode_cases. intros n Hn.
  do 64 (destruct n as [|n]; [reflexivity|]). lia.
Qed.

Lemma list_ind3 {A} (P : list A -> Prop) :
  P [] -> (forall a, P [a]) -> (forall a b, P [a; b]) ->
  (forall a b c l, P l -> P (a :: b :: c :: l)) ->
  forall l, P l.
Proof.
  intros H0 H1 H2 H3.
  fix IH 1. intros [|a [|b [|c l]]].
  - exact H0.
  - apply H1.
  - apply H2.
  - apply H3, IH.
Qed.


Ltac pows :=
  change (2 ^ 18) with 262144 in *; change (2 ^ 16) with 65536 in *;
  change (2 ^ 12) with 4096 in *; change (2 ^ 8) with 256 in *;
  change (2 ^ 6) with 64 in *; change (2 ^ 0) with 1 in *.

Lemma unpack1 b : b < 256 ->
  let val := N.shiftl b 16 in
  let d0 := N.land (N.shiftr val 18) 63 in
  let d1 := N.land (N.shiftr val 12) 63 in
  N.shiftr (N.lor (N.shiftl d0 18) (N.shiftl d1 12)) 16 mod 256 = b.
Proof.
  intros Hb val d0 d1. subst val d0 d1.
  rewrite !land_63, !N.shiftr_div_pow2, !N.shiftl_mul_pow2. pows.
  rewrite (lor_disjoint _ _ 18); pows; arith.
Qed.

Lemma unpack2 b0 b1 : b0 < 256 -> b1 < 256 ->
  let val := N.lor (N.shiftl b0 16) (N.shiftl b1 8) in
  let d0 := N.land (N.shiftr val 18) 63 in
  let d1 := N.land (N.shiftr val 12) 63 in
  let d2 := N.land (N.shiftr val 6) 63 in
  let val' := N.lor (N.lor (N.shiftl d0 18) (N.shiftl d1 12)) (N.shiftl d2 6) in
  N.shiftr val' 16 mod 256 = b0 /\ N.shiftr val' 8 mod 256 = b1.
Proof.
  intros H0 H1 val d0 d1 d2 val'.
  assert (Hval : val = b0 * 65536 + b1 * 256).
  { subst val. rewrite !N.shiftl_mul_pow2. pows.
    apply (lor_disjoint _ _ 16); pows; arith. }
  assert (Hval' : val' = d0 * 262144 + d1 * 4096 + d2 * 64).
  { assert (d0 < 64) by apply land_63_lt.
    assert (d1 < 64) by apply land_63_lt.
    assert (d2 < 64) by apply land_63_lt.
    subst val'. clearbody d0 d1 d2. rewrite !N.shiftl_mul_pow2. pows.
    rewrite (lor_disjoint (d0 * 262144) _ 18) by (pows; arith).
    apply (lor_disjoint _ _ 12); pows; arith. }
  rewrite Hval'. subst d0 d1 d2. rewrite !land_63, !N.shiftr_div_pow2, Hval. pows.
  split; arith.
Qed.

Lemma unpack3 b0 b1 b2 : b0 < 256 -> b1 < 256 -> b2 < 256 ->
  let val := N.lor (N.lor (N.shiftl b0 16) (N.shiftl b1 8)) b2 in
  let d0 := N.land (N.shiftr val 18) 63 in
  let d1 := N.land (N.shiftr val 12) 63 in
  let d2 := N.land (N.shiftr val 6) 63 in
  let d3 := N.land (N.shiftr val 0) 63 in
  let val' :=
    N.lor (N.lor (N.lor (N.shiftl d0 18) (N.shiftl d1 12)) (N.shiftl d2 6)) d3 in
  N.shiftr val' 16 mod 256 = b0 /\ N.shiftr val' 8 mod 256 = b1
  /\ val' mod 256 = b2.
Proof.
  intros H0 H1 H2 val d0 d1 d2 d3 val'.
  assert (Hval : val = b0 * 65536 + b1 * 256 + b2) by (apply pack3; assumption).
  assert (Hval' : val' = d0 * 262144 + d1 * 4096 + d2 * 64 + d3)
    by (apply pack4; apply land_63_lt).
  rewrite Hval'. subst d0 d1 d2 d3.
  rewrite !land_63, !N.shiftr_div_pow2, Hval. pows.
  repeat split; arith.
Qed.

Lemma decodeQuanta_Encode src : decodeQuanta (Encode src) = Some src.
Proof.
  induction src as [|b|b0 b1|b0 b1 b2 rest IH] using list_ind3.
  - reflexivity.
  - cbn [Encode decodeQuanta]. unfold sextet.
    rewrite !decodeMap_encode by apply land_63_lt.
    change (Ascii.eqb padChar padChar) with true. cbv iota.
    rewrite (byte_of_uint_eq _ b); [reflexivity|].
    apply unpack1, uint_lt.
  - cbn [Encode decodeQuanta]. unfold sextet.
    rewrite !decodeMap_encode by apply land_63_lt.
    rewrite encode_not_pad by apply land_63_lt.
    change (Ascii.eqb padChar padChar) with true. cbv iota.
    destruct (unpack2 (uint b0) (uint b1) (uint_lt _) (uint_lt _)) as [E0 E1].
    rewrite (byte_of_uint_eq _ b0 E0), (byte_of_uint_eq _ b1 E1). reflexivity.
  - cbn [Encode decodeQuanta]. unfold sextet.
    rewrite !decodeMap_encode by apply land_63_lt.
    rewrite !encode_not_pad by apply land_63_lt.
    rewrite IH.
    destruct (unpack3 (uint b0) (uint b1) (uint b2)
                (uint_lt _) (uint_lt _) (uint_lt _)) as (E0 & E1 & E2).
    rewrite (byte_of_uint_eq _ b0 E0), (byte_of_uint_eq _ b1 E1),
      (byte_of_uint_eq _ b2 E2).
    reflexivity.
Qed.

Lemma Encode_no_newline src :
  List.filter (fun c => negb (is_newline c)) (Encode src) = Encode src.
Proof.
  assert (Hpad : is_newline padChar = false) by reflexivity.
  induction src as [|b|b0 b1|b0 b1 b2 rest IH] using list_ind3;
    cbn [Encode List.filter]; unfold sextet;
    rewrite ?encode_not_newline by apply land_63_lt;
    rewrite ?Hpad; cbn [negb]; congruence.
Qed.

(** [DecodeString] undoes [EncodeToString]. *)
Lemma DecodeString_EncodeToString src :
  DecodeString (EncodeToString src) = Some src.
Proof.
  unfold DecodeString, EncodeToString.
  rewrite list_ascii_of_string_of_list_ascii, Encode_no_newline.
  apply decodeQuanta_Encode.
Qed.

Lemma EncodeToString_inj a b : EncodeToString a = EncodeToString b -> a = b.
Proof.
  intros H. apply (f_equal DecodeString) in H.
  rewrite !DecodeString_EncodeToString in H. congruence.
Qed.

Lemma EncodeToString_nonempty src : src <> [] -> EncodeToString src <> "".
Proof.
  intros Hne H. apply Hne.
  change "" with (EncodeToString []) in H. apply EncodeToString_inj, H.
Qed.

Lemma list_ind4 {A} (P : list A -> Prop) :
  P [] -> (forall a, P [a]) -> (forall a b, P [a; b]) ->
  (forall a b c, P [a; b; c]) ->
  (forall a b c d l, P l -> P (a :: b :: c :: d :: l)) ->
  forall l, P l.
Proof.
  intros H0 H1 H2 H3 H4.
  fix IH 1. intros [|a [|b [|c [|d l]]]].
  - exact H0.
  - apply H1.
  - apply H2.
  - apply H3.
  - apply H4, IH.
Qed.

Ltac break_match :=
  match goal with
  | |- context [match ?x with _ => _ end] => destruct x eqn:?
  end.

(** A colon is neither in the alphabet nor padding nor a line break: no
    input that holds one decodes. *)
Lemma decodeQuanta_colon l : In ":"%char l -> decodeQuanta l = None.
Proof.
  assert (Hmap : decodeMap ":" = None) by reflexivity.
  assert (Hpad : Ascii.eqb ":" padChar = false) by reflexivity.
  induction l as [|a|a b|a b c|c0 c1 c2 c3 rest IH] using list_ind4;
    intros Hin; try reflexivity.
  - destruct Hin.
  - cbn [decodeQuanta].
    destruct Hin as [->|[->|[->|[->|Hin]]]].
    + rewrite Hmap. reflexivity.
    + rewrite Hmap. destruct (decodeMap c0); reflexivity.
    + rewrite Hpad, Hmap. destruct (decodeMap c0), (decodeMap c1); reflexivity.
    + rewrite Hpad, Hmap. repeat break_match; reflexivity.
    + rewrite (IH Hin). destruct rest as [|r rest]; [destruct Hin|].
      repeat break_match; reflexivity.
Qed.

Lemma list_ascii_of_string_app s1 s2 :
  list_ascii_of_string (s1 +:+ s2)
  = list_ascii_of_string s1 ++ list_ascii_of_string s2.
Proof.
  induction s1 as [|c s1 IH]; [reflexivity|].
  change (list_ascii_of_string (String c s1 +:+ s2))
    with (c :: list_ascii_of_string (s1 +:+ s2)).
  rewrite IH. reflexivity.
Qed.

Lemma DecodeString_colon s1 s2 : DecodeString (s1 +:+ ":" +:+ s2) = None.
Proof.
  unfold DecodeString. apply decodeQuanta_colon.
  apply filter_In. split; [|reflexivity].
  rewrite list_ascii_of_string_app. apply in_or_app. right. left. reflexivity.
Qed.

End Base64Facts.

(** * The AES-GCM helpers *)

Section CipherFacts.
Context (env : Env) {gcm : AEAD}.
Import Base64Facts.

Lemma aes_NewCipher_32 (key : list byte) :
  length key = 32%nat -> aes_NewCipher key = Some {| block_key := key |}.
Proof. intros H. unfold aes_NewCipher. rewrite H. reflexivity. Qed.

Lemma ReadFull_length r n (bs : list byte) : ReadFull r n = Some bs -> length bs = n.
Proof.
  unfold ReadFull. destruct (r n) as [bs'|]; [|discriminate].
  destruct (Nat.eqb_spec (length bs') n); [|discriminate].
  intros [= <-]. assumption.
Qed.

Lemma key_length_test (key : list byte) :
  negb (length key =? 32)%nat = true <-> length key <> 32%nat.
Proof.
  destruct (Nat.eqb_spec (length key) 32); cbn; split; congruence.
Qed.

(** What [EncryptWithDataKey] returns for a key of 32 bytes. *)
Lemma EncryptWithDataKey_32 (data key : list byte) s :
  length key = 32%nat ->
  fst (EncryptWithDataKey env data key s) =
  match ReadFull (env_rand env (rand_reads s)) NonceSize with
  | Some nonce => Ok (Base64.EncodeToString (nonce ++ Seal key nonce data []))
  | None => Err ErrRandom
  end.
Proof.
  intros H. unfold EncryptWithDataKey.
  rewrite H, (aes_NewCipher_32 key H). cbn.
  unfold bind, rand_ReadFull. cbn.
  destruct (ReadFull _ _); reflexivity.
Qed.

(** What [DecryptWithDataKey] does under a key of 32 bytes. *)
Lemma DecryptWithDataKey_32 encodedData (key : list byte) :
  length key = 32%nat ->
  DecryptWithDataKey encodedData key =
  match Base64.DecodeString encodedData with
  | None => Err ErrBase64Decode
  | Some data =>
      if (length data <? NonceSize)%nat then Err ErrCiphertextTooShort
      else match Open key (take NonceSize data) (drop NonceSize data) [] with
           | None => Err ErrAuthentication
           | Some plaintext => Ok plaintext
           end
  end.
Proof.
  intros H. unfold DecryptWithDataKey.
  rewrite (proj2 (Nat.eqb_eq _ _) H), (aes_NewCipher_32 key H). reflexivity.
Qed.


(** C8: both helpers answer the key-length error exactly for the keys that
    are not 32 bytes long; a 32-byte key never meets it. *)
Theorem C8_invalid_key_length_iff :
  (forall (data key : list byte) s,
      fst (EncryptWithDataKey env data key s) = Err ErrInvalidKeyLength
      <-> length key <> 32%nat)
  /\ (forall encodedData (key : list byte),
      DecryptWithDataKey encodedData key = Err ErrInvalidKeyLength
      <-> length key <> 32%nat).
Proof.
  split.
  - intros data key s. destruct (Nat.eq_dec (length key) 32) as [H|H].
    + rewrite (EncryptWithDataKey_32 data key s H).
      destruct (ReadFull _ _); split; congruence.
    + unfold EncryptWithDataKey.
      rewrite (proj2 (key_length_test key) H). cbn. tauto.
  - intros encodedData key.
    destruct (Nat.eq_dec (length key) 32) as [H|H].
    + rewrite (DecryptWithDataKey_32 _ key H).
      repeat break_match; split; congruence.
    + unfold DecryptWithDataKey.
      rewrite (proj2 (key_length_test key) H). tauto.
Qed.

(** C1: what [EncryptWithDataKey] produces under a 32-byte key,
    [DecryptWithDataKey] turns back into the plaintext under that key; the
    encryption itself succeeds as soon as the random source delivers the
    nonce. *)
Theorem C1_encrypt_decrypt_round_trip (p key : list byte) s nonce :
  length key = 32%nat ->
  ReadFull (env_rand env (rand_reads s)) NonceSize = Some nonce ->
  exists c,
    fst (EncryptWithDataKey env p key s) = Ok c
    /\ DecryptWithDataKey c key = Ok p.
Proof.
  intros Hkey Hrand.
  rewrite (EncryptWithDataKey_32 p key s Hkey), Hrand.
  eexists. split; [reflexivity|].
  rewrite (DecryptWithDataKey_32 _ key Hkey), DecodeString_EncodeToString.
  pose proof (ReadFull_length _ _ _ Hrand) as Hlen.
  destruct (Nat.ltb_spec (length (nonce ++ Seal key nonce p [])) NonceSize)
    as [Hlt|_].
  { rewrite length_app in Hlt. lia. }
  rewrite take_app_length' by (symmetry; exact Hlen).
  rewrite drop_app_length' by (symmetry; exact Hlen).
  rewrite Open_Seal by exact Hlen. reflexivity.
Qed.

End CipherFacts.

(** * The KMS manager *)

Section ManagerFacts.
Context (env : Env) {gcm : AEAD}.
Import Base64Facts.

Lemma zero_bytes_replicate buf : zero_bytes buf = replicate (length buf) x00.
Proof.
  unfold zero_bytes.
  assert (H : forall n (b : list byte), (n <= length b)%nat ->
             foldl (fun b i => <[i := x00]> b) b (seq 0 n)
             = replicate n x00 ++ drop n b).
  { induction n as [|n IH]; intros b Hn.
    - rewrite drop_0. reflexivity.
    - rewrite seq_S, foldl_app, IH by lia. cbn [foldl Nat.add].
      destruct (lookup_lt_is_Some_2 b n ltac:(lia)) as [x Hx].
      rewrite (drop_S b x n Hx).
      rewrite insert_app_r_alt by (rewrite length_replicate; lia).
      rewrite length_replicate, Nat.sub_diag. cbn [insert list_insert].
      rewrite replicate_S_end, <- app_assoc. reflexivity. }
  rewrite H by lia. rewrite drop_all, app_nil_r. reflexivity.
Qed.

(** The state after a call of [rotateDataKeyLocked] whose KMS request fails:
    the clock was read once and the call recorded, nothing else changed. *)
Lemma rotateDataKeyLocked_fails s :
  env_GenerateDataKey env (length (kms_calls s)) (keyID (manager s)) = None ->
  rotateDataKeyLocked env s =
  (Err ErrGenerateDataKey,
   {| manager := manager s; heap := heap s;
      clock_reads := S (clock_reads s); rand_reads := rand_reads s;
      kms_calls := kms_calls s ++
        [CallGenerateDataKey (keyID (manager s))
           (Unix (env_now env (clock_reads s)))] |}).
Proof.
  intros H. unfold rotateDataKeyLocked, bind, Now, get, client_GenerateDataKey.
  cbn. rewrite H. reflexivity.
Qed.

Lemma rotateDataKeyLocked_succeeds s Plaintext CiphertextBlob :
  env_GenerateDataKey env (length (kms_calls s)) (keyID (manager s))
    = Some (Plaintext, CiphertextBlob) ->
  rotateDataKeyLocked env s =
  (Ok tt,
   {| manager :=
        with_currentDataKey (Some (rotated_key env s CiphertextBlob)) (manager s);
      heap :=
        match currentDataKey (manager s) with
        | Some old => zero_at (PlaintextKey old) (heap s ++ [Plaintext])
        | None => heap s ++ [Plaintext]
        end;
      clock_reads := S (S (clock_reads s)); rand_reads := rand_reads s;
      kms_calls := kms_calls s ++
        [CallGenerateDataKey (keyID (manager s))
           (Unix (env_now env (clock_reads s)))] |}).
Proof.
  intros H. unfold rotateDataKeyLocked, bind, Now, get, client_GenerateDataKey.
  cbn. rewrite H. cbn.
  destruct (currentDataKey (manager s)); reflexivity.
Qed.

(** [GetCurrentDataKey] on a key that is still valid: the key, and one look
    at the clock. *)
Lemma GetCurrentDataKey_valid s c :
  currentDataKey (manager s) = Some c ->
  (env_now env (clock_reads s) <= ExpiresAt c)%Z ->
  GetCurrentDataKey env s =
  (Ok (Some c),
   {| manager := manager s; heap := heap s;
      clock_reads := S (clock_reads s); rand_reads := rand_reads s;
      kms_calls := kms_calls s |}).
Proof.
  intros Hc Hnow. unfold GetCurrentDataKey, bind, get, needs_rotation.
  rewrite Hc. unfold bind, Now, ret. cbn.
  destruct (Z.ltb_spec (ExpiresAt c) (env_now env (clock_reads s))); [lia|].
  reflexivity.
Qed.

(** [GetCurrentDataKey] on a key that both checks find expired: the outcome
    of the rotation, started after the two looks at the clock. *)
Lemma GetCurrentDataKey_expired s c :
  currentDataKey (manager s) = Some c ->
  (ExpiresAt c < env_now env (clock_reads s))%Z ->
  (ExpiresAt c < env_now env (S (clock_reads s)))%Z ->
  let s2 := {| manager := manager s; heap := heap s;
               clock_reads := S (S (clock_reads s));
               rand_reads := rand_reads s; kms_calls := kms_calls s |} in
  GetCurrentDataKey env s =
  match rotateDataKeyLocked env s2 with
  | (Ok _, s') => (Ok (currentDataKey (manager s')), s')
  | (Err e, s') => (Err e, s')
  end.
Proof.
  intros Hc H1 H2 s2. unfold GetCurrentDataKey, bind, get, needs_rotation.
  rewrite Hc. unfold bind, Now, ret. cbn -[rotateDataKeyLocked].
  rewrite (proj2 (Z.ltb_lt _ _) H1). cbn -[rotateDataKeyLocked].
  rewrite Hc. cbn -[rotateDataKeyLocked].
  rewrite (proj2 (Z.ltb_lt _ _) H2). cbn -[rotateDataKeyLocked].
  fold s2. destruct (rotateDataKeyLocked env s2) as [[[]|e] s']; reflexivity.
Qed.

(** C5: when the current key has expired and the KMS refuses to generate a
    new one, [GetCurrentDataKey] fails with the generation error and leaves
    the manager and the heap as they were: the old key, with its plaintext
    bytes, its blob and both timestamps, stays installed. *)
Theorem C5_failed_rotation_keeps_current_key s c :
  currentDataKey (manager s) = Some c ->
  (ExpiresAt c < env_now env (clock_reads s))%Z ->
  (ExpiresAt c < env_now env (S (clock_reads s)))%Z ->
  env_GenerateDataKey env (length (kms_calls s)) (keyID (manager s)) = None ->
  fst (GetCurrentDataKey env s) = Err ErrGenerateDataKey
  /\ manager (snd (GetCurrentDataKey env s)) = manager s
  /\ heap (snd (GetCurrentDataKey env s)) = heap s
  /\ currentDataKey (manager (snd (GetCurrentDataKey env s))) = Some c
  /\ bytes_at (heap (snd (GetCurrentDataKey env s))) (PlaintextKey c)
     = bytes_at (heap s) (PlaintextKey c).
Proof.
  intros Hc H1 H2 Hkms.
  rewrite (GetCurrentDataKey_expired s c Hc H1 H2).
  rewrite rotateDataKeyLocked_fails by exact Hkms. cbn.
  repeat split; try reflexivity. exact Hc.
Qed.

Lemma bytes_at_zero_at_same h p :
  bytes_at (zero_at p h) p = replicate (length (bytes_at h p)) x00.
Proof.
  unfold bytes_at, zero_at. destruct (h !! p) as [buf|] eqn:Hp.
  - rewrite list_lookup_insert_eq by (eapply lookup_lt_Some; exact Hp).
    cbn. apply zero_bytes_replicate.
  - rewrite Hp. reflexivity.
Qed.

Lemma bytes_at_zero_at_other h p q :
  p <> q -> bytes_at (zero_at p h) q = bytes_at h q.
Proof.
  intros Hne. unfold bytes_at, zero_at. destruct (h !! p) as [buf|]; [|reflexivity].
  rewrite list_lookup_insert_ne by exact Hne. reflexivity.
Qed.

Lemma bytes_at_app_l h bs p :
  (p < length h)%nat -> bytes_at (h ++ [bs]) p = bytes_at h p.
Proof. intros H. unfold bytes_at. rewrite lookup_app_l by exact H. reflexivity. Qed.

Lemma bytes_at_app_new h bs : bytes_at (h ++ [bs]) (length h) = bs.
Proof.
  unfold bytes_at. rewrite lookup_app_r by lia.
  rewrite Nat.sub_diag. reflexivity.
Qed.

(** *** DecryptDataKey *)

(** The current key is answered from memory: no clock, no cache, no KMS. *)
Lemma DecryptDataKey_current s c encryptedKey masterKeyARN :
  currentDataKey (manager s) = Some c ->
  EncryptedKey c = encryptedKey ->
  DecryptDataKey env encryptedKey masterKeyARN s = (Ok (PlaintextKey c), s).
Proof.
  intros Hc He. unfold DecryptDataKey, bind, get. cbn. rewrite Hc.
  rewrite (proj2 (String.eqb_eq _ _) He). reflexivity.
Qed.

(** The look-up key always holds a colon, the stored keys never do. *)
Lemma cache_lookup_misses s encryptedKey masterKeyARN :
  cache_keys_base64 s ->
  decryptionCache (manager s) !! cacheKey encryptedKey masterKeyARN = None.
Proof.
  intros Hinv.
  destruct (decryptionCache (manager s) !! cacheKey encryptedKey masterKeyARN)
    as [c|] eqn:Hc; [|reflexivity].
  destruct (Hinv _ _ Hc) as [raw Hraw].
  unfold cacheKey in Hraw. rewrite DecodeString_colon in Hraw. discriminate.
Qed.

(** [DecryptDataKey] for a blob that is not the current key's, when the
    look-up in the cache finds nothing. *)
Lemma DecryptDataKey_slow_path s encryptedKey masterKeyARN :
  is_current s encryptedKey = false ->
  decryptionCache (manager s) !! cacheKey encryptedKey masterKeyARN = None ->
  DecryptDataKey env encryptedKey masterKeyARN s =
  match Base64.DecodeString encryptedKey with
  | None => (Err ErrDecodeEncryptedKey, s)
  | Some raw =>
      match env_Decrypt env (length (kms_calls s)) raw masterKeyARN with
      | None => (Err ErrDecryptDataKey, log_call (CallDecrypt raw masterKeyARN) s)
      | Some plaintext =>
          (Ok (length (heap s)),
           after_kms_decrypt env s encryptedKey masterKeyARN raw plaintext)
      end
  end.
Proof.
  intros Hcur Hmiss. unfold DecryptDataKey, bind, get. cbn.
  unfold is_current in Hcur.
  replace (match currentDataKey (manager s) with
           | Some c => if String.eqb (EncryptedKey c) encryptedKey
                       then Some (PlaintextKey c) else None
           | None => None
           end) with (@None slice)
    by (destruct (currentDataKey (manager s)); [rewrite Hcur|]; reflexivity).
  rewrite Hmiss. cbn.
  destruct (Base64.DecodeString encryptedKey) as [raw|]; [|reflexivity].
  unfold bind, client_Decrypt. cbn.
  destruct (env_Decrypt env _ raw masterKeyARN); reflexivity.
Qed.

Lemma DecryptDataKey_keeps_invariant s encryptedKey masterKeyARN :
  cache_keys_base64 s ->
  cache_keys_base64 (snd (DecryptDataKey env encryptedKey masterKeyARN s)).
Proof.
  intros Hinv. destruct (is_current s encryptedKey) eqn:Hcur.
  - unfold is_current in Hcur.
    destruct (currentDataKey (manager s)) as [c|] eqn:Hc; [|discriminate].
    rewrite (DecryptDataKey_current s c _ _ Hc (proj1 (String.eqb_eq _ _) Hcur)).
    exact Hinv.
  - rewrite DecryptDataKey_slow_path
      by (try apply cache_lookup_misses; assumption).
    destruct (Base64.DecodeString encryptedKey) as [raw|] eqn:Hraw; [|exact Hinv].
    destruct (env_Decrypt env _ raw masterKeyARN); [|exact Hinv].
    intros key c. cbn. intros Hk.
    destruct (decide (encryptedKey = key)) as [<-|Hne].
    + rewrite Hraw. eexists. reflexivity.
    + rewrite lookup_insert_ne in Hk by exact Hne. eapply Hinv, Hk.
Qed.

(** Whatever the KMS answers, the slow path of a blob that decodes makes
    exactly one [Decrypt] call. *)
Lemma DecryptDataKey_slow_path_calls s encryptedKey masterKeyARN raw :
  cache_keys_base64 s ->
  is_current s encryptedKey = false ->
  Base64.DecodeString encryptedKey = Some raw ->
  kms_calls (snd (DecryptDataKey env encryptedKey masterKeyARN s))
  = kms_calls s ++ [CallDecrypt raw masterKeyARN].
Proof.
  intros Hinv Hcur Hraw.
  rewrite DecryptDataKey_slow_path
    by (try apply cache_lookup_misses; assumption).
  rewrite Hraw. destruct (env_Decrypt env _ raw masterKeyARN); reflexivity.
Qed.

(** *** CleanupCache *)

Lemma CleanupCache_sweep {E} s :
  @CleanupCache env E s =
  (Ok tt,
   let now := env_now env (clock_reads s) in
   let swept := sweep now (heap s) (decryptionCache (manager s))
                  (decryptionCache (manager s)) in
   {| manager := with_decryptionCache (snd swept) (manager s);
      heap := fst swept;
      clock_reads := S (clock_reads s);
      rand_reads := rand_reads s;
      kms_calls := kms_calls s |}).
Proof. reflexivity. Qed.

Lemma sweep_lookup now h m0 m key :
  snd (sweep now h m0 m) !! key =
  match m !! key with
  | Some c => if expired now c then None else m0 !! key
  | None => m0 !! key
  end.
Proof.
  unfold sweep. revert key.
  apply (map_fold_weak_ind
    (fun r (m : gmap string CachedKey) => forall key,
       snd r !! key = match m !! key with
                      | Some c => if expired now c then None else m0 !! key
                      | None => m0 !! key
                      end)).
  - intros key. rewrite lookup_empty. reflexivity.
  - intros i x m' r Hi IH key. unfold expired in *.
    destruct (decide (i = key)) as [->|Hne].
    + rewrite lookup_insert_eq.
      destruct (CachedKey_ExpiresAt x <? now)%Z; cbn.
      * apply lookup_delete_eq.
      * rewrite IH, Hi. reflexivity.
    + rewrite lookup_insert_ne by exact Hne.
      destruct (CachedKey_ExpiresAt x <? now)%Z; cbn.
      * rewrite lookup_delete_ne by exact Hne. apply IH.
      * apply IH.
Qed.

(** After [CleanupCache] the cache holds exactly the entries the clock has
    not passed. *)
Lemma CleanupCache_lookup {E} s key :
  decryptionCache (manager (snd (@CleanupCache env E s))) !! key =
  match decryptionCache (manager s) !! key with
  | Some c => if expired (env_now env (clock_reads s)) c then None else Some c
  | None => None
  end.
Proof.
  rewrite CleanupCache_sweep. cbn. rewrite sweep_lookup.
  destruct (decryptionCache (manager s) !! key); reflexivity.
Qed.

Lemma zero_at_all_zero h p q :
  Forall (fun b => b = x00) (bytes_at h q) ->
  Forall (fun b => b = x00) (bytes_at (zero_at p h) q).
Proof.
  intros H. destruct (decide (p = q)) as [->|Hne].
  - rewrite bytes_at_zero_at_same. apply Forall_replicate. reflexivity.
  - rewrite bytes_at_zero_at_other by exact Hne. exact H.
Qed.

(** The sweep leaves only zero bytes in the buffer of every entry it
    removes. *)
Lemma sweep_zeroes now h m0 m key c :
  m !! key = Some c -> expired now c = true ->
  Forall (fun b => b = x00) (bytes_at (fst (sweep now h m0 m)) (Key c)).
Proof.
  unfold sweep. revert key c.
  apply (map_fold_weak_ind
    (fun r (m : gmap string CachedKey) => forall key c,
       m !! key = Some c -> expired now c = true ->
       Forall (fun b => b = x00) (bytes_at (fst r) (Key c)))).
  - intros key c Hc. rewrite lookup_empty in Hc. discriminate.
  - intros i x m' r Hi IH key c Hc Hexp. unfold expired in *.
    destruct (decide (i = key)) as [->|Hne].
    + rewrite lookup_insert_eq in Hc. injection Hc as ->.
      rewrite Hexp. cbn. rewrite bytes_at_zero_at_same.
      apply Forall_replicate. reflexivity.
    + rewrite lookup_insert_ne in Hc by exact Hne.
      specialize (IH key c Hc Hexp).
      destruct (CachedKey_ExpiresAt x <? now)%Z; cbn; [|exact IH].
      apply zero_at_all_zero, IH.
Qed.

End ManagerFacts.

(** * The codec handlers *)

Section HandlerFacts.
Context (env : Env) {gcm : AEAD}.
Import Base64Facts.

Lemma rotateDataKeyLocked_Ok s u s' :
  rotateDataKeyLocked env s = (Ok u, s') ->
  same_or_rotated env (manager s) (manager s')
  /\ is_Some (currentDataKey (manager s')).
Proof.
  destruct (env_GenerateDataKey env (length (kms_calls s)) (keyID (manager s)))
    as [[pt blob]|] eqn:Hkms.
  - rewrite (rotateDataKeyLocked_succeeds env s pt blob Hkms).
    intros [= <- <-]. cbn. split; [|eexists; reflexivity].
    right. eexists _, _, blob. split; [|reflexivity].
    eexists _, _, _. exact Hkms.
  - rewrite (rotateDataKeyLocked_fails env s Hkms). discriminate.
Qed.

(** A successful [GetCurrentDataKey] returns the key that is current when it
    returns, and that key is never nil. *)
Lemma GetCurrentDataKey_Ok s r s' :
  GetCurrentDataKey env s = (Ok r, s') ->
  r = currentDataKey (manager s')
  /\ is_Some r
  /\ same_or_rotated env (manager s) (manager s').
Proof.
  unfold GetCurrentDataKey, bind, get, needs_rotation.
  cbn -[rotateDataKeyLocked].
  destruct (currentDataKey (manager s)) as [c|] eqn:Hc.
  - unfold bind, Now, ret. cbn -[rotateDataKeyLocked].
    destruct (ExpiresAt c <? env_now env (clock_reads s))%Z.
    + cbn -[rotateDataKeyLocked]. rewrite Hc. cbn -[rotateDataKeyLocked].
      destruct (ExpiresAt c <? env_now env (S (clock_reads s)))%Z.
      * match goal with
        | |- context [rotateDataKeyLocked env ?x] =>
            destruct (rotateDataKeyLocked env x) as [[u|e] s1] eqn:Hrot;
              [|discriminate]
        end.
        intros [= <- <-]. apply rotateDataKeyLocked_Ok in Hrot.
        destruct Hrot as [Hrot Hsome]. auto.
      * intros [= <- <-]. cbn. rewrite ?Hc.
        split; [reflexivity|]. split; [eexists; reflexivity|left; reflexivity].
    + intros [= <- <-]. cbn. rewrite ?Hc.
      split; [reflexivity|]. split; [eexists; reflexivity|left; reflexivity].
  - unfold ret. rewrite ?Hc.
    destruct (rotateDataKeyLocked env s) as [[u|e] s1] eqn:Hrot; [|discriminate].
    intros [= <- <-]. apply rotateDataKeyLocked_Ok in Hrot.
    destruct Hrot as [Hrot Hsome]. auto.
Qed.

Lemma EncryptWithDataKey_manager (data key : list byte) s :
  manager (snd (EncryptWithDataKey env data key s)) = manager s.
Proof.
  unfold EncryptWithDataKey, bind, rand_ReadFull, fail, ret.
  repeat break_match; cbn; try reflexivity;
    repeat match goal with H : (_, _) = (_, _) |- _ => injection H as <- <- end;
    reflexivity.
Qed.

Lemma same_or_rotated_keyID k k' :
  same_or_rotated env k k' -> keyID k' = keyID k.
Proof. intros [->|(p & t & blob & _ & ->)]; reflexivity. Qed.

Lemma same_or_rotated_trans k1 k2 k3 :
  same_or_rotated env k1 k2 -> same_or_rotated env k2 k3 -> same_or_rotated env k1 k3.
Proof.
  intros H12 [->|(p & t & blob & Hb & ->)]; [exact H12|].
  right. exists p, t, blob. split; [exact Hb|].
  destruct H12 as [->|(p' & t' & blob' & _ & ->)]; reflexivity.
Qed.

(** *** handleEncode *)

(** A payload that is not a candidate leaves the response as it is: the
    loop has no branch that appends it. *)
Lemma encodePayload_skip payload response s :
  is_candidate payload = false ->
  encodePayload env payload response s = (Ok response, s).
Proof.
  intros H. unfold encodePayload. unfold is_candidate in H. rewrite H.
  reflexivity.
Qed.

(** What an iteration over a candidate appends. *)
Lemma encodePayload_Ok payload response s response' s' :
  is_candidate payload = true ->
  encodePayload env payload response s = (Ok response', s') ->
  exists ck data,
    response' = response ++
      [{| Metadata := {[ "encoding" := "binary/encrypted" ]};
          Data := data;
          KMSKeyID := keyID (manager s);
          EncryptedDataKey := EncryptedKey ck;
          Algorithm := "AES-256-GCM" |}]
    /\ currentDataKey (manager s') = Some ck
    /\ same_or_rotated env (manager s) (manager s').
Proof.
  intros Hcand. unfold encodePayload. unfold is_candidate in Hcand.
  rewrite Hcand. unfold bind at 1. unfold wrap_err at 1.
  destruct (GetCurrentDataKey env s) as [[r|e] s1] eqn:Hget; [|discriminate].
  destruct (GetCurrentDataKey_Ok s r s1 Hget) as (Hr & [ck ->] & Hrot).
  unfold bind, get, wrap_err, ret.
  match goal with
  | |- context [EncryptWithDataKey env ?d ?k s1] =>
      pose proof (EncryptWithDataKey_manager d k s1) as Hm;
      destruct (EncryptWithDataKey env d k s1) as [[data|e] s2]
  end; [|discriminate].
  cbn in Hm. intros [= <- <-].
  exists ck, data. rewrite Hm.
  rewrite (same_or_rotated_keyID _ _ Hrot).
  split; [reflexivity|]. split; [symmetry; exact Hr|exact Hrot].
Qed.

(** The loop of [handleEncode], for an invariant [I] of the states and a
    property [Q] of what each iteration appends. *)
Lemma encodeLoop_Ok (I : State -> Prop) (Q : PayloadData -> Prop) :
  (forall payload response s response' s',
      I s -> encodePayload env payload response s = (Ok response', s') ->
      I s' /\ (response' = response
               \/ exists p, response' = response ++ [p] /\ Q p)) ->
  forall payloads response s out s',
    I s -> encodeLoop env payloads response s = (Ok out, s') ->
    I s' /\ exists added, out = response ++ added /\ Forall Q added.
Proof.
  intros Hstep payloads.
  induction payloads as [|payload rest IH]; intros response s out s' HI.
  - cbn. intros [= <- <-]. split; [exact HI|].
    exists []. rewrite app_nil_r. split; [reflexivity|constructor].
  - cbn [encodeLoop]. unfold bind.
    destruct (encodePayload env payload response s) as [[r1|e] s1] eqn:H1;
      [|discriminate].
    intros Hrest.
    destruct (Hstep _ _ _ _ _ HI H1) as [HI1 Hr1].
    destruct (IH _ _ _ _ HI1 Hrest) as (HI' & added & -> & Hadded).
    split; [exact HI'|].
    destruct Hr1 as [->|(p & -> & Hp)].
    + exists added. split; [reflexivity|exact Hadded].
    + exists (p :: added). split.
      * rewrite <- app_assoc. reflexivity.
      * constructor; assumption.
Qed.

Lemma encodeLoop_length payloads : forall response s out s',
  encodeLoop env payloads response s = (Ok out, s') ->
  length out = (length response + length (List.filter is_candidate payloads))%nat.
Proof.
  induction payloads as [|payload rest IH]; intros response s out s'.
  - cbn. intros [= <- <-]. lia.
  - cbn [encodeLoop List.filter]. unfold bind.
    destruct (encodePayload env payload response s) as [[r1|e] s1] eqn:H1;
      [|discriminate].
    intros Hrest. rewrite (IH _ _ _ _ Hrest).
    destruct (is_candidate payload) eqn:Hcand.
    + destruct (encodePayload_Ok _ _ _ _ _ Hcand H1) as (ck & data & -> & _).
      rewrite length_app. cbn. lia.
    + rewrite (encodePayload_skip _ _ _ Hcand) in H1.
      injection H1 as <- <-. lia.
Qed.

(** The sibling codec does pass such a payload through. *)
Lemma EncryptionCodec_passes_through c payload response s :
  is_candidate payload = false ->
  EncryptionCodec_encodePayload env c payload response s
  = (Ok (response ++ [payload]), s).
Proof.
  intros H. unfold EncryptionCodec_encodePayload.
  unfold is_candidate in H. rewrite H. reflexivity.
Qed.

(** C3 (where the code departs from it): a payload whose [encoding] is
    present and is not [json/plain] is not passed through by [handleEncode].
    The iteration appends nothing for it, so a request of that payload alone
    is answered by an empty batch, and in general the response holds one
    payload per candidate of the request and none for the others. *)
Theorem C3_other_encodings_are_dropped payload e response s :
  Metadata payload !! "encoding" = Some e ->
  e <> "json/plain" ->
  encodePayload env payload response s = (Ok response, s)
  /\ handleEncode env {| Payloads := [payload] |} s
     = (Ok {| Response_Payloads := [] |}, s)
  /\ forall req resp s',
       handleEncode env req s = (Ok resp, s') ->
       length (Response_Payloads resp)
       = length (List.filter is_candidate (Payloads req)).
Proof.
  intros He Hne.
  assert (Hcand : is_candidate payload = false).
  { unfold is_candidate. rewrite He. apply String.eqb_neq, Hne. }
  split; [apply encodePayload_skip, Hcand|]. split.
  - unfold handleEncode, bind. cbn [Payloads encodeLoop]. unfold bind.
    rewrite (encodePayload_skip _ _ _ Hcand). reflexivity.
  - intros req resp s'. unfold handleEncode, bind.
    destruct (encodeLoop env (Payloads req) [] s) as [[out|err] s1] eqn:Hloop;
      [|discriminate].
    intros [= <- <-]. cbn. apply (encodeLoop_length _ _ _ _ _ Hloop).
Qed.

Lemma same_or_rotated_has_key_ids k k' :
  (forall blob, from_kms env blob -> blob <> []) ->
  has_key_ids k -> same_or_rotated env k k' -> has_key_ids k'.
Proof.
  intros Hkms [Hid Hblob] [->|(p & t & blob & Hb & ->)]; [split; assumption|].
  split; [exact Hid|]. cbn. intros c [= <-]. cbn.
  apply EncodeToString_nonempty, Hkms, Hb.
Qed.

Lemma encodePayload_carries s :
  (forall blob, from_kms env blob -> blob <> []) ->
  has_key_ids (manager s) ->
  forall payload response response' s',
    encodePayload env payload response s = (Ok response', s') ->
    has_key_ids (manager s')
    /\ same_or_rotated env (manager s) (manager s')
    /\ (response' = response
        \/ exists p ck,
             response' = response ++ [p]
             /\ currentDataKey (manager s') = Some ck
             /\ EncryptedDataKey p = EncryptedKey ck
             /\ carries_key_metadata (manager s) p).
Proof.
  intros Hkms Hids payload response response' s' Hrun.
  destruct (is_candidate payload) eqn:Hcand.
  - destruct (encodePayload_Ok _ _ _ _ _ Hcand Hrun)
      as (ck & data & -> & Hck & Hrot).
    pose proof (same_or_rotated_has_key_ids _ _ Hkms Hids Hrot) as Hids'.
    split; [exact Hids'|]. split; [exact Hrot|].
    right. eexists _, ck. split; [reflexivity|].
    split; [exact Hck|]. split; [reflexivity|].
    unfold carries_key_metadata. cbn.
    split; [apply lookup_singleton_eq|]. split; [reflexivity|].
    split; [apply Hids|]. split; [|reflexivity].
    apply (proj2 Hids'), Hck.
  - rewrite (encodePayload_skip _ _ _ Hcand) in Hrun.
    injection Hrun as <- <-.
    split; [exact Hids|]. split; [left; reflexivity|]. left. reflexivity.
Qed.

(** *** handleDecode *)

Lemma decodePayload_plain payload response s :
  is_encrypted payload = false ->
  decodePayload env payload response s = (Ok (response ++ [payload]), s).
Proof.
  intros H. unfold decodePayload. unfold is_encrypted in H. rewrite H.
  reflexivity.
Qed.

Lemma decodePayload_missing payload response s :
  missing_key_material payload ->
  decodePayload env payload response s = (Err MissingEncryptedDataKey, s).
Proof.
  intros [Henc Hkey]. unfold decodePayload. unfold is_encrypted in Henc.
  rewrite Henc, Hkey. reflexivity.
Qed.

Lemma decodePayload_Ok payload response s response' s' :
  decodePayload env payload response s = (Ok response', s') ->
  exists q, response' = response ++ [q] /\ decoded_from payload q.
Proof.
  unfold decoded_from. destruct (is_encrypted payload) eqn:Henc.
  - unfold decodePayload. unfold is_encrypted in Henc. rewrite Henc.
    cbn [negb]. destruct (String.eqb (EncryptedDataKey payload) "");
      [discriminate|].
    unfold bind, wrap_err, get.
    destruct (DecryptDataKey env _ _ s) as [[dataKey|e] s1]; [|discriminate].
    destruct (DecryptWithDataKey _ _) as [d|e]; [|discriminate].
    intros [= <- <-]. eexists. split; [reflexivity|]. cbn. auto.
  - rewrite (decodePayload_plain _ _ _ Henc). intros [= <- <-].
    exists payload. split; reflexivity.
Qed.

Lemma decodeLoop_Ok payloads : forall response s out s',
  decodeLoop env payloads response s = (Ok out, s') ->
  exists added, out = response ++ added /\ Forall2 decoded_from payloads added.
Proof.
  induction payloads as [|payload rest IH]; intros response s out s'.
  - cbn. intros [= <- <-]. exists []. rewrite app_nil_r.
    split; [reflexivity|constructor].
  - cbn [decodeLoop]. unfold bind.
    destruct (decodePayload env payload response s) as [[r1|e] s1] eqn:H1;
      [|discriminate].
    intros Hrest.
    destruct (decodePayload_Ok _ _ _ _ _ H1) as (q & -> & Hq).
    destruct (IH _ _ _ _ Hrest) as (added & -> & Hadded).
    exists (q :: added). split.
    + rewrite <- app_assoc. reflexivity.
    + constructor; assumption.
Qed.

Lemma decodeLoop_app pre rest : forall response s,
  decodeLoop env (pre ++ rest) response s =
  match decodeLoop env pre response s with
  | (Ok out, s1) => decodeLoop env rest out s1
  | (Err e, s1) => (Err e, s1)
  end.
Proof.
  induction pre as [|payload pre IH]; intros response s; [reflexivity|].
  cbn [app decodeLoop]. unfold bind.
  destruct (decodePayload env payload response s) as [[r1|e] s1];
    [apply IH|reflexivity].
Qed.

(** A batch that holds a payload without key material never yields a
    response. *)
Lemma decodeLoop_missing payloads : forall response s,
  Exists missing_key_material payloads ->
  exists e, fst (decodeLoop env payloads response s) = Err e.
Proof.
  induction payloads as [|payload rest IH]; intros response s Hex.
  - inversion Hex.
  - cbn [decodeLoop]. unfold bind.
    destruct (decodePayload env payload response s) as [[r1|e] s1] eqn:H1.
    + apply IH. inversion Hex as [? ? Hp|? ? Hrest]; subst; [|exact Hrest].
      rewrite (decodePayload_missing _ _ _ Hp) in H1. discriminate.
    + exists e. reflexivity.
Qed.

(** C4 (as the code has it): a decode request that holds an encrypted
    payload without its wrapped data key is never answered by a payload
    batch.  The payloads are processed in order and the first failure ends
    the request: the answer is the missing-key error when the payloads in
    front of the one without key material were all processed, and otherwise
    the error of the earlier payload that failed. *)
Theorem C4_missing_key_material_fails_the_batch req s :
  Exists missing_key_material (Payloads req) ->
  (exists e, fst (handleDecode env req s) = Err e)
  /\ (forall pre payload post out s1,
        Payloads req = pre ++ payload :: post ->
        missing_key_material payload ->
        decodeLoop env pre [] s = (Ok out, s1) ->
        handleDecode env req s = (Err MissingEncryptedDataKey, s1))
  /\ (forall pre post e s1,
        Payloads req = pre ++ post ->
        decodeLoop env pre [] s = (Err e, s1) ->
        handleDecode env req s = (Err e, s1)).
Proof.
  intros Hex. split; [|split].
  - destruct (decodeLoop_missing (Payloads req) [] s Hex) as [e He].
    exists e. unfold handleDecode, bind.
    destruct (decodeLoop env (Payloads req) [] s) as [[out|e'] s1];
      [discriminate|].
    cbn in *. congruence.
  - intros pre payload post out s1 Hreq Hmiss Hpre.
    unfold handleDecode, bind. rewrite Hreq, decodeLoop_app, Hpre.
    cbn [decodeLoop]. unfold bind.
    rewrite (decodePayload_missing _ _ _ Hmiss). reflexivity.
  - intros pre post e s1 Hreq Hpre.
    unfold handleDecode, bind. rewrite Hreq, decodeLoop_app, Hpre.
    reflexivity.
Qed.

(** C10: a payload that [handleEncode] or [handleDecode] builds has a
    metadata map with the single entry [encoding]; whatever else the input
    payload had in its metadata is gone, and a decoded payload has empty
    [kms_key_id], [encrypted_data_key] and [algorithm] fields.  Payloads that
    [handleDecode] does not transform are passed on as they are. *)
Theorem C10_built_payloads_have_only_encoding req s :
  (forall resp s',
      handleEncode env req s = (Ok resp, s') ->
      Forall (fun q => Metadata q = {[ "encoding" := "binary/encrypted" ]})
             (Response_Payloads resp))
  /\ (forall resp s',
      handleDecode env req s = (Ok resp, s') ->
      Forall2 decoded_from (Payloads req) (Response_Payloads resp))
  /\ (forall (q : PayloadData) (v key : string),
      Metadata q = {[ "encoding" := v ]} ->
      size (Metadata q) = 1%nat
      /\ Metadata q !! "encoding" = Some v
      /\ (key <> "encoding" -> Metadata q !! key = None)).
Proof.
  split; [|split].
  - intros resp s'. unfold handleEncode, bind.
    destruct (encodeLoop env (Payloads req) [] s) as [[out|err] s1] eqn:Hloop;
      [|discriminate].
    intros [= <- <-]. cbn.
    destruct (encodeLoop_Ok (fun _ => True)
      (fun q => Metadata q = {[ "encoding" := "binary/encrypted" ]}))
      with (payloads := Payloads req) (response := @nil PayloadData)
           (s := s) (out := out) (s' := s1)
      as (_ & added & -> & Hadded); [|exact I|exact Hloop|exact Hadded].
    intros payload response si response' si' _ Hrun. split; [exact I|].
    destruct (is_candidate payload) eqn:Hcand.
    + destruct (encodePayload_Ok _ _ _ _ _ Hcand Hrun)
        as (ck & data & -> & _ & _).
      right. eexists. split; reflexivity.
    + rewrite (encodePayload_skip _ _ _ Hcand) in Hrun.
      injection Hrun as <- <-. left. reflexivity.
  - intros resp s'. unfold handleDecode, bind.
    destruct (decodeLoop env (Payloads req) [] s) as [[out|err] s1] eqn:Hloop;
      [|discriminate].
    intros [= <- <-]. cbn.
    destruct (decodeLoop_Ok _ _ _ _ _ Hloop) as (added & -> & Hadded).
    exact Hadded.
  - intros q v key ->. split; [apply map_size_singleton|].
    split; [apply lookup_singleton_eq|].
    intros Hne. apply lookup_singleton_ne. congruence.
Qed.

(** *** The cache keys of a running server *)

Lemma same_or_rotated_cache k k' :
  same_or_rotated env k k' -> decryptionCache k' = decryptionCache k.
Proof. intros [->|(p & t & blob & _ & ->)]; reflexivity. Qed.

Lemma rotateDataKeyLocked_manager s :
  same_or_rotated env (manager s) (manager (snd (rotateDataKeyLocked env s))).
Proof.
  destruct (env_GenerateDataKey env (length (kms_calls s)) (keyID (manager s)))
    as [[pt blob]|] eqn:Hkms.
  - rewrite (rotateDataKeyLocked_succeeds env s pt blob Hkms). cbn.
    right. eexists _, _, blob. split; [|reflexivity].
    eexists _, _, _. exact Hkms.
  - rewrite (rotateDataKeyLocked_fails env s Hkms). left. reflexivity.
Qed.

Lemma GetCurrentDataKey_manager s :
  same_or_rotated env (manager s) (manager (snd (GetCurrentDataKey env s))).
Proof.
  unfold GetCurrentDataKey, bind, get, needs_rotation.
  cbn -[rotateDataKeyLocked].
  destruct (currentDataKey (manager s)) as [c|] eqn:Hc.
  - unfold bind, Now, ret. cbn -[rotateDataKeyLocked].
    destruct (ExpiresAt c <? env_now env (clock_reads s))%Z;
      [|left; reflexivity].
    cbn -[rotateDataKeyLocked]. rewrite Hc. cbn -[rotateDataKeyLocked].
    destruct (ExpiresAt c <? env_now env (S (clock_reads s)))%Z;
      [|left; reflexivity].
    match goal with
    | |- context [rotateDataKeyLocked env ?x] =>
        pose proof (rotateDataKeyLocked_manager x) as Hrot;
        destruct (rotateDataKeyLocked env x) as [[u|e] s1]
    end; exact Hrot.
  - unfold ret. rewrite ?Hc.
    pose proof (rotateDataKeyLocked_manager s) as Hrot.
    destruct (rotateDataKeyLocked env s) as [[u|e] s1]; exact Hrot.
Qed.

Lemma encodePayload_cache payload response s :
  decryptionCache (manager (snd (encodePayload env payload response s)))
  = decryptionCache (manager s).
Proof.
  unfold encodePayload.
  destruct (match Metadata payload !! "encoding" with
            | Some e => String.eqb e "json/plain"
            | None => true
            end); [|reflexivity].
  unfold bind at 1. unfold wrap_err at 1.
  pose proof (same_or_rotated_cache _ _ (GetCurrentDataKey_manager s)) as Hget.
  destruct (GetCurrentDataKey env s) as [[[ck|]|e] s1]; try exact Hget.
  unfold bind, get, wrap_err, ret.
  match goal with
  | |- context [EncryptWithDataKey env ?d ?k s1] =>
      pose proof (EncryptWithDataKey_manager d k s1) as Hm;
      destruct (EncryptWithDataKey env d k s1) as [[data|e] s2]
  end; cbn in *; rewrite Hm; exact Hget.
Qed.

Lemma encodeLoop_cache payloads : forall response s,
  decryptionCache (manager (snd (encodeLoop env payloads response s)))
  = decryptionCache (manager s).
Proof.
  induction payloads as [|payload rest IH]; intros response s; [reflexivity|].
  cbn [encodeLoop]. unfold bind.
  pose proof (encodePayload_cache payload response s) as H1.
  destruct (encodePayload env payload response s) as [[r1|e] s1];
    [rewrite IH|]; exact H1.
Qed.

Lemma decodePayload_keeps_invariant payload response s :
  cache_keys_base64 s ->
  cache_keys_base64 (snd (decodePayload env payload response s)).
Proof.
  intros Hinv. unfold decodePayload.
  destruct (negb _); [exact Hinv|].
  destruct (String.eqb (EncryptedDataKey payload) ""); [exact Hinv|].
  unfold bind, wrap_err, get.
  pose proof (DecryptDataKey_keeps_invariant env s
                (EncryptedDataKey payload) (KMSKeyID payload) Hinv) as H1.
  destruct (DecryptDataKey env _ _ s) as [[dataKey|e] s1]; [|exact H1].
  destruct (DecryptWithDataKey _ _); exact H1.
Qed.

Lemma decodeLoop_keeps_invariant payloads : forall response s,
  cache_keys_base64 s ->
  cache_keys_base64 (snd (decodeLoop env payloads response s)).
Proof.
  induction payloads as [|payload rest IH]; intros response s Hinv;
    [exact Hinv|].
  cbn [decodeLoop]. unfold bind.
  pose proof (decodePayload_keeps_invariant payload response s Hinv) as H1.
  destruct (decodePayload env payload response s) as [[r1|e] s1];
    [apply IH|]; exact H1.
Qed.

Lemma cache_keys_base64_same_cache s s' :
  decryptionCache (manager s') = decryptionCache (manager s) ->
  cache_keys_base64 s -> cache_keys_base64 s'.
Proof. intros Heq Hinv key c Hc. rewrite Heq in Hc. eapply Hinv, Hc. Qed.

(** *** The current key of a running server *)

Lemma current_key_issued_frame s s' :
  currentDataKey (manager s') = currentDataKey (manager s) ->
  (length (kms_calls s) <= length (kms_calls s'))%nat ->
  (length (heap s) <= length (heap s'))%nat ->
  current_key_issued env s -> current_key_issued env s'.
Proof.
  intros Hcur Hcalls Hheap Hinv c Hc. rewrite Hcur in Hc.
  destruct (Hinv c Hc) as [(n & KeyId & pt & blob & Hn & Hkms & Hblob) Hp].
  split; [|lia]. exists n, KeyId, pt, blob. split; [lia|]. split; assumption.
Qed.

Lemma length_zero_at p h : length (zero_at p h) = length h.
Proof.
  unfold zero_at. destruct (h !! p); [apply length_insert|reflexivity].
Qed.

Lemma rotateDataKeyLocked_issued s :
  current_key_issued env s ->
  current_key_issued env (snd (rotateDataKeyLocked env s)).
Proof.
  intros Hinv.
  destruct (env_GenerateDataKey env (length (kms_calls s)) (keyID (manager s)))
    as [[pt blob]|] eqn:Hkms.
  - rewrite (rotateDataKeyLocked_succeeds env s pt blob Hkms).
    intros c. cbn. intros [= <-]. split.
    + exists (length (kms_calls s)), (keyID (manager s)), pt, blob.
      cbn [kms_calls]. rewrite length_app. cbn [length].
      split; [lia|]. split; [exact Hkms|reflexivity].
    + cbn. destruct (currentDataKey (manager s));
        rewrite ?length_zero_at, length_app; cbn; lia.
  - rewrite (rotateDataKeyLocked_fails env s Hkms).
    eapply current_key_issued_frame; [| | |exact Hinv]; cbn;
      rewrite ?length_app; try reflexivity; lia.
Qed.

Lemma GetCurrentDataKey_issued s :
  current_key_issued env s ->
  current_key_issued env (snd (GetCurrentDataKey env s)).
Proof.
  intros Hinv.
  assert (Htick : forall n,
    current_key_issued env
      {| manager := manager s; heap := heap s; clock_reads := n;
         rand_reads := rand_reads s; kms_calls := kms_calls s |}).
  { intros n. eapply current_key_issued_frame; [| | |exact Hinv];
      reflexivity. }
  unfold GetCurrentDataKey, bind, get, needs_rotation.
  cbn -[rotateDataKeyLocked].
  destruct (currentDataKey (manager s)) as [c|] eqn:Hc.
  - unfold bind, Now, ret. cbn -[rotateDataKeyLocked].
    destruct (ExpiresAt c <? env_now env (clock_reads s))%Z; [|apply Htick].
    cbn -[rotateDataKeyLocked]. rewrite Hc. cbn -[rotateDataKeyLocked].
    destruct (ExpiresAt c <? env_now env (S (clock_reads s)))%Z;
      [|apply Htick].
    match goal with
    | |- context [rotateDataKeyLocked env ?x] =>
        pose proof (rotateDataKeyLocked_issued x (Htick _)) as Hrot;
        destruct (rotateDataKeyLocked env x) as [[u|e] s1]
    end; exact Hrot.
  - unfold ret. rewrite ?Hc.
    pose proof (rotateDataKeyLocked_issued s Hinv) as Hrot.
    destruct (rotateDataKeyLocked env s) as [[u|e] s1]; exact Hrot.
Qed.

Lemma EncryptWithDataKey_frame (data key : list byte) s :
  manager (snd (EncryptWithDataKey env data key s)) = manager s
  /\ heap (snd (EncryptWithDataKey env data key s)) = heap s
  /\ kms_calls (snd (EncryptWithDataKey env data key s)) = kms_calls s.
Proof.
  unfold EncryptWithDataKey, bind, rand_ReadFull, fail, ret.
  repeat break_match; cbn; try (repeat split; reflexivity);
    repeat match goal with H : (_, _) = (_, _) |- _ => injection H as <- <- end;
    repeat split; reflexivity.
Qed.

Lemma encodePayload_issued payload response s :
  current_key_issued env s ->
  current_key_issued env (snd (encodePayload env payload response s)).
Proof.
  intros Hinv. unfold encodePayload.
  destruct (match Metadata payload !! "encoding" with
            | Some e => String.eqb e "json/plain"
            | None => true
            end); [|exact Hinv].
  unfold bind at 1. unfold wrap_err at 1.
  pose proof (GetCurrentDataKey_issued s Hinv) as Hget.
  destruct (GetCurrentDataKey env s) as [[[ck|]|e] s1]; try exact Hget.
  unfold bind, get, wrap_err, ret.
  match goal with
  | |- context [EncryptWithDataKey env ?d ?k s1] =>
      destruct (EncryptWithDataKey_frame d k s1) as (Hm & Hh & Hk);
      destruct (EncryptWithDataKey env d k s1) as [[data|e] s2]
  end; cbn in *;
    (eapply current_key_issued_frame; [| | |exact Hget];
     [rewrite Hm|rewrite Hk|rewrite Hh]; reflexivity).
Qed.

Lemma encodeLoop_issued payloads : forall response s,
  current_key_issued env s ->
  current_key_issued env (snd (encodeLoop env payloads response s)).
Proof.
  induction payloads as [|payload rest IH]; intros response s Hinv;
    [exact Hinv|].
  cbn [encodeLoop]. unfold bind.
  pose proof (encodePayload_issued payload response s Hinv) as H1.
  destruct (encodePayload env payload response s) as [[r1|e] s1];
    [apply IH|]; exact H1.
Qed.

Lemma DecryptDataKey_issued s encryptedKey masterKeyARN :
  cache_keys_base64 s ->
  current_key_issued env s ->
  current_key_issued env (snd (DecryptDataKey env encryptedKey masterKeyARN s)).
Proof.
  intros Hcache Hinv. destruct (is_current s encryptedKey) eqn:Hcur.
  - unfold is_current in Hcur.
    destruct (currentDataKey (manager s)) as [c|] eqn:Hc; [|discriminate].
    rewrite (DecryptDataKey_current env s c _ _ Hc
               (proj1 (String.eqb_eq _ _) Hcur)).
    exact Hinv.
  - rewrite DecryptDataKey_slow_path
      by (try apply cache_lookup_misses; assumption).
    destruct (Base64.DecodeString encryptedKey) as [raw|]; [|exact Hinv].
    destruct (env_Decrypt env _ raw masterKeyARN);
      (eapply current_key_issued_frame; [| | |exact Hinv]; cbn;
       rewrite ?length_app; try reflexivity; lia).
Qed.

Lemma decodePayload_issued payload response s :
  cache_keys_base64 s ->
  current_key_issued env s ->
  current_key_issued env (snd (decodePayload env payload response s)).
Proof.
  intros Hcache Hinv. unfold decodePayload.
  destruct (negb _); [exact Hinv|].
  destruct (String.eqb (EncryptedDataKey payload) ""); [exact Hinv|].
  unfold bind, wrap_err, get.
  pose proof (DecryptDataKey_issued s (EncryptedDataKey payload)
                (KMSKeyID payload) Hcache Hinv) as H1.
  destruct (DecryptDataKey env _ _ s) as [[dataKey|e] s1]; [|exact H1].
  destruct (DecryptWithDataKey _ _); exact H1.
Qed.

Lemma decodeLoop_issued payloads : forall response s,
  cache_keys_base64 s ->
  current_key_issued env s ->
  current_key_issued env (snd (decodeLoop env payloads response s)).
Proof.
  induction payloads as [|payload rest IH]; intros response s Hcache Hinv;
    [exact Hinv|].
  cbn [decodeLoop]. unfold bind.
  pose proof (decodePayload_issued payload response s Hcache Hinv) as H1.
  pose proof (decodePayload_keeps_invariant payload response s Hcache) as H2.
  destruct (decodePayload env payload response s) as [[r1|e] s1];
    [apply IH|]; assumption.
Qed.

Lemma length_sweep now h m0 m : length (fst (sweep now h m0 m)) = length h.
Proof.
  unfold sweep.
  apply (map_fold_weak_ind
    (fun r (_ : gmap string CachedKey) => length (fst r) = length h)).
  - reflexivity.
  - intros i x m' r _ IH.
    destruct (CachedKey_ExpiresAt x <? now)%Z; cbn; [|exact IH].
    rewrite length_zero_at. exact IH.
Qed.

(** In every state of a running server the keys of the decryption cache
    are base64 strings. *)
Lemma reachable_cache_keys_base64 s : reachable env s -> cache_keys_base64 s.
Proof.
  induction 1 as [s0 keyID ttl interval|s _ IH|s _ IH|s k arn _ IH|s _ IH
                 |s req _ IH|s req _ IH].
  - unfold NewKMSManager, bind, modify. cbn -[rotateDataKey].
    match goal with
    | |- context [rotateDataKey env ?x] =>
        pose proof (same_or_rotated_cache _ _ (rotateDataKeyLocked_manager x))
          as Hrot;
        unfold rotateDataKey;
        destruct (rotateDataKeyLocked env x) as [[u|e] s1]
    end; intros key c Hc; cbn in Hrot, Hc; rewrite Hrot, lookup_empty in Hc;
      discriminate.
  - eapply cache_keys_base64_same_cache; [|exact IH].
    apply same_or_rotated_cache, GetCurrentDataKey_manager.
  - eapply cache_keys_base64_same_cache; [|exact IH].
    apply same_or_rotated_cache, rotateDataKeyLocked_manager.
  - apply DecryptDataKey_keeps_invariant, IH.
  - intros key c Hc. rewrite CleanupCache_lookup in Hc.
    destruct (decryptionCache (manager s) !! key) as [c'|] eqn:Hc';
      [|discriminate].
    eapply IH, Hc'.
  - eapply cache_keys_base64_same_cache; [|exact IH].
    unfold handleEncode, bind.
    pose proof (encodeLoop_cache (Payloads req) [] s) as H1.
    destruct (encodeLoop env (Payloads req) [] s) as [[out|e] s1]; exact H1.
  - unfold handleDecode, bind.
    pose proof (decodeLoop_keeps_invariant (Payloads req) [] s IH) as H1.
    destruct (decodeLoop env (Payloads req) [] s) as [[out|e] s1]; exact H1.
Qed.

(** In every state of a running server the current key was issued by the
    KMS in a recorded call, and its plaintext buffer is allocated. *)
Lemma reachable_current_key_issued s :
  reachable env s -> current_key_issued env s.
Proof.
  induction 1 as [s0 keyID ttl interval|s _ IH|s _ IH|s k arn Hs IH|s _ IH
                 |s req _ IH|s req Hs IH].
  - unfold NewKMSManager, bind, modify. cbn -[rotateDataKey].
    match goal with
    | |- context [rotateDataKey env ?x] =>
        assert (Hx : current_key_issued env x) by (intros c; discriminate);
        pose proof (rotateDataKeyLocked_issued x Hx) as Hrot;
        unfold rotateDataKey;
        destruct (rotateDataKeyLocked env x) as [[u|e] s1]
    end; exact Hrot.
  - apply GetCurrentDataKey_issued, IH.
  - apply rotateDataKeyLocked_issued, IH.
  - apply DecryptDataKey_issued; [apply reachable_cache_keys_base64, Hs|exact IH].
  - rewrite CleanupCache_sweep.
    eapply current_key_issued_frame; [| | |exact IH]; cbn;
      rewrite ?length_sweep; reflexivity.
  - unfold handleEncode, bind.
    pose proof (encodeLoop_issued (Payloads req) [] s IH) as H1.
    destruct (encodeLoop env (Payloads req) [] s) as [[out|e] s1]; exact H1.
  - unfold handleDecode, bind.
    pose proof (decodeLoop_issued (Payloads req) [] s
                  (reachable_cache_keys_base64 s Hs) IH) as H1.
    destruct (decodeLoop env (Payloads req) [] s) as [[out|e] s1]; exact H1.
Qed.

(** C6: a successful rotation on a running server with an existing key,
    for a KMS that never hands out the same wrapped key twice.  The key
    then installed, which [GetCurrentDataKey] returns as long as the clock
    has not passed its expiry, has another blob than the old key, expires
    one rotation interval after its generation time, and the buffer of the
    old plaintext key holds only zero bytes. *)
Theorem C6_rotation_replaces_and_zeroes s old Plaintext CiphertextBlob :
  reachable env s ->
  kms_never_repeats env ->
  currentDataKey (manager s) = Some old ->
  env_GenerateDataKey env (length (kms_calls s)) (keyID (manager s))
    = Some (Plaintext, CiphertextBlob) ->
  let s' := snd (rotateDataKey env s) in
  let new := rotated_key env s CiphertextBlob in
  (env_now env (clock_reads s') <= ExpiresAt new)%Z ->
  fst (rotateDataKey env s) = Ok tt
  /\ fst (GetCurrentDataKey env s') = Ok (Some new)
  /\ EncryptedKey new <> EncryptedKey old
  /\ ExpiresAt new = (GeneratedAt new + keyRotationInterval (manager s))%Z
  /\ bytes_at (heap s') (PlaintextKey old)
     = replicate (length (bytes_at (heap s) (PlaintextKey old))) x00
  /\ bytes_at (heap s') (PlaintextKey new) = Plaintext.
Proof.
  intros Hreach Hfresh Hold Hkms s' new.
  destruct (reachable_current_key_issued s Hreach old Hold)
    as [(n & KeyId & pt0 & blob0 & Hn & Hkms0 & Hblob0) Halloc].
  subst s'. unfold rotateDataKey.
  rewrite (rotateDataKeyLocked_succeeds env s _ _ Hkms), Hold.
  cbn [fst snd]. intros Hclock.
  split; [reflexivity|]. split.
  { erewrite GetCurrentDataKey_valid; [reflexivity|reflexivity|exact Hclock]. }
  split.
  { rewrite Hblob0. cbn. intros Heq. apply EncodeToString_inj in Heq.
    apply (Hfresh _ _ _ _ _ _ _ _ Hkms0 Hkms); [lia|]. symmetry. exact Heq. }
  split; [reflexivity|]. cbn [heap]. split.
  - rewrite bytes_at_zero_at_same, bytes_at_app_l by exact Halloc. reflexivity.
  - cbn [new rotated_key PlaintextKey].
    rewrite bytes_at_zero_at_other by lia. apply bytes_at_app_new.
Qed.

(** C9: on a running server that was set up with a master key identifier,
    and for a KMS that never hands out an empty wrapped key, every payload that
    [handleEncode] emits is marked [binary/encrypted] and carries the
    master key identifier, a non-empty wrapped data key and the algorithm
    tag; the wrapped data key of a payload is that of the data key which is
    current when the iteration that emitted it ends. *)
Theorem C9_emitted_payloads_carry_key_metadata s :
  reachable env s ->
  keyID (manager s) <> "" ->
  kms_blobs_nonempty env ->
  (forall payload response response' s',
      encodePayload env payload response s = (Ok response', s') ->
      response' = response
      \/ exists p ck,
           response' = response ++ [p]
           /\ currentDataKey (manager s') = Some ck
           /\ EncryptedDataKey p = EncryptedKey ck
           /\ carries_key_metadata (manager s) p)
  /\ (forall req resp s',
      handleEncode env req s = (Ok resp, s') ->
      Forall (carries_key_metadata (manager s)) (Response_Payloads resp)).
Proof.
  intros Hreach Hid Hkms.
  assert (Hids : has_key_ids (manager s)).
  { split; [exact Hid|]. intros c Hc.
    destruct (reachable_current_key_issued s Hreach c Hc)
      as [(n & KeyId & pt & blob & _ & Hissued & ->) _].
    apply EncodeToString_nonempty, Hkms. eexists _, _, _. exact Hissued. }
  split.
  - intros payload response response' s' Hrun.
    apply (encodePayload_carries s Hkms Hids _ _ _ _ Hrun).
  - intros req resp s'. unfold handleEncode, bind.
    destruct (encodeLoop env (Payloads req) [] s) as [[out|err] s1] eqn:Hloop;
      [|discriminate].
    intros [= <- <-]. cbn.
    assert (Hstep : forall payload response si response' si',
      has_key_ids (manager si) /\ same_or_rotated env (manager s) (manager si) ->
      encodePayload env payload response si = (Ok response', si') ->
      (has_key_ids (manager si') /\ same_or_rotated env (manager s) (manager si'))
      /\ (response' = response
          \/ exists p, response' = response ++ [p]
                       /\ carries_key_metadata (manager s) p)).
    { intros payload response si response' si' [Hi Hrot] Hrun.
      destruct (encodePayload_carries si Hkms Hi _ _ _ _ Hrun)
        as (Hi' & Hrot' & Hres).
      split; [split; [exact Hi'|eapply same_or_rotated_trans; eassumption]|].
      destruct Hres as [->|(p & ck & -> & _ & _ & Hp)]; [left; reflexivity|].
      right. exists p. split; [reflexivity|].
      unfold carries_key_metadata in *.
      rewrite <- (same_or_rotated_keyID _ _ Hrot). exact Hp. }
    destruct (encodeLoop_Ok _ _ Hstep _ _ _ _ _
                (conj Hids (or_introl eq_refl)) Hloop)
      as (_ & added & -> & Hadded).
    exact Hadded.
Qed.

End HandlerFacts.

(** * Further properties of the server *)

Section EndToEnd.
Context (env : Env) {gcm : AEAD}.
Import Base64Facts.



Lemma decodeLoop_plain payloads : forall response s,
  Forall (fun p => is_encrypted p = false) payloads ->
  decodeLoop env payloads response s = (Ok (response ++ payloads), s).
Proof.
  induction payloads as [|payload rest IH]; intros response s Hall.
  - cbn. rewrite app_nil_r. reflexivity.
  - inversion Hall as [|? ? Hp Hrest]; subst.
    cbn [decodeLoop]. unfold bind.
    rewrite (decodePayload_plain env _ _ _ Hp), (IH _ _ Hrest),
      <- app_assoc.
    reflexivity.
Qed.



(** X2: a decode request without encrypted payloads is answered by the
    request's own payloads, in order, and nothing else happens. *)
Theorem X2_decode_passes_plain_payloads req s :
  Forall (fun p => is_encrypted p = false) (Payloads req) ->
  handleDecode env req s = (Ok {| Response_Payloads := Payloads req |}, s).
Proof.
  intros Hall. unfold handleDecode, bind.
  rewrite (decodeLoop_plain _ _ _ Hall). reflexivity.
Qed.

(** X3: the blob of the current data key is resolved from memory:
    [DecryptDataKey] answers the current plaintext key and leaves the state
    as it is, so the clock is not read and no KMS call is made. *)
Theorem X3_current_key_resolved_without_kms s c masterKeyARN :
  currentDataKey (manager s) = Some c ->
  DecryptDataKey env (EncryptedKey c) masterKeyARN s = (Ok (PlaintextKey c), s).
Proof. intros Hc. apply (DecryptDataKey_current env s c _ _ Hc eq_refl). Qed.

(** X4: [CleanupCache] keeps exactly the cache entries whose expiry the
    clock has not passed, and touches neither the current key nor the KMS. *)
Theorem X4_CleanupCache_keeps_unexpired s key :
  decryptionCache (manager (snd (@CleanupCache env error s))) !! key
  = match decryptionCache (manager s) !! key with
    | Some c =>
        if (CachedKey_ExpiresAt c <? env_now env (clock_reads s))%Z
        then None else Some c
    | None => None
    end
  /\ currentDataKey (manager (snd (@CleanupCache env error s)))
     = currentDataKey (manager s)
  /\ kms_calls (snd (@CleanupCache env error s)) = kms_calls s
  /\ fst (@CleanupCache env error s) = Ok tt.
Proof.
  split; [apply CleanupCache_lookup|]. repeat split; reflexivity.
Qed.

(** X5: while the current key has not expired, [GetCurrentDataKey] returns
    it after one look at the clock; nothing is rotated and the KMS is not
    called. *)
Theorem X5_valid_key_is_returned_as_is s c :
  currentDataKey (manager s) = Some c ->
  (env_now env (clock_reads s) <= ExpiresAt c)%Z ->
  fst (GetCurrentDataKey env s) = Ok (Some c)
  /\ manager (snd (GetCurrentDataKey env s)) = manager s
  /\ heap (snd (GetCurrentDataKey env s)) = heap s
  /\ kms_calls (snd (GetCurrentDataKey env s)) = kms_calls s.
Proof.
  intros Hc Hnow. rewrite (GetCurrentDataKey_valid env s c Hc Hnow).
  repeat split; reflexivity.
Qed.

(** X6: the look-up of [DecryptDataKey] never finds an entry: on a running
    server no key of the decryption cache has the form
    [encryptedKey:masterKeyARN]. *)
Theorem X6_cache_lookup_never_hits s encryptedKey masterKeyARN :
  reachable env s ->
  decryptionCache (manager s) !! cacheKey encryptedKey masterKeyARN = None.
Proof.
  intros Hreach. apply cache_lookup_misses.
  apply (reachable_cache_keys_base64 env), Hreach.
Qed.


End EndToEnd.

(** * The decryption cache of a running server *)

Section CacheFacts.
Context (env : Env) {gcm : AEAD}.

(** C2 (where the code departs from it): a blob that is not the current
    key's is resolved by one KMS [Decrypt] call and stored in the cache under
    the blob with the configured TTL; the next call for the same blob, at any
    time and so also before the TTL has elapsed, looks the cache up under
    [blob:masterKeyARN], finds nothing and calls the KMS again. *)
Theorem C2_resolved_blob_is_decrypted_again s blob arn raw plaintext :
  reachable env s ->
  is_current s blob = false ->
  Base64.DecodeString blob = Some raw ->
  env_Decrypt env (length (kms_calls s)) raw arn = Some plaintext ->
  let s1 := snd (DecryptDataKey env blob arn s) in
  let s2 := snd (DecryptDataKey env blob arn s1) in
  fst (DecryptDataKey env blob arn s) = Ok (length (heap s))
  /\ decryptionCache (manager s1) !! blob = Some (cached_entry env s)
  /\ kms_calls s1 = kms_calls s ++ [CallDecrypt raw arn]
  /\ kms_calls s2 = kms_calls s1 ++ [CallDecrypt raw arn].
Proof.
  intros Hreach Hcur Hraw Hkms s1 s2.
  pose proof (reachable_cache_keys_base64 env s Hreach) as Hinv.
  assert (Hinv1 : cache_keys_base64 s1)
    by (apply DecryptDataKey_keeps_invariant, Hinv).
  assert (Hs1 : DecryptDataKey env blob arn s
                = (Ok (length (heap s)), after_kms_decrypt env s blob arn raw plaintext)).
  { rewrite DecryptDataKey_slow_path
      by (try apply cache_lookup_misses; assumption).
    rewrite Hraw, Hkms. reflexivity. }
  assert (Hcur1 : is_current s1 blob = false).
  { subst s1. rewrite Hs1. exact Hcur. }
  split; [rewrite Hs1; reflexivity|].
  split; [subst s1; rewrite Hs1; cbn; apply lookup_insert_eq|].
  split; [subst s1; rewrite Hs1; reflexivity|].
  subst s2. apply DecryptDataKey_slow_path_calls; assumption.
Qed.

(** C7 (as the code has it): a call for a blob whose cache entry has
    expired does not answer from that entry; it makes one KMS [Decrypt]
    call.  The call removes nothing: if the KMS fails the cache is as it
    was, with the expired entry still in it, and if the KMS answers the
    entry is overwritten by the new one.  Removal is the work of
    [CleanupCache], which deletes the entry and zeroes its key bytes. *)
Theorem C7_expired_entry_bypassed_not_removed s blob arn raw c :
  reachable env s ->
  is_current s blob = false ->
  Base64.DecodeString blob = Some raw ->
  decryptionCache (manager s) !! blob = Some c ->
  (CachedKey_ExpiresAt c < env_now env (clock_reads s))%Z ->
  let r := DecryptDataKey env blob arn s in
  kms_calls (snd r) = kms_calls s ++ [CallDecrypt raw arn]
  /\ match env_Decrypt env (length (kms_calls s)) raw arn with
     | Some plaintext =>
         fst r = Ok (length (heap s))
         /\ bytes_at (heap (snd r)) (length (heap s)) = plaintext
         /\ decryptionCache (manager (snd r))
            = <[blob := cached_entry env s]> (decryptionCache (manager s))
     | None =>
         fst r = Err ErrDecryptDataKey
         /\ decryptionCache (manager (snd r)) = decryptionCache (manager s)
     end
  /\ is_Some (decryptionCache (manager (snd r)) !! blob)
  /\ decryptionCache (manager (snd (@CleanupCache env error s))) !! blob = None
  /\ Forall (fun b => b = x00)
       (bytes_at (heap (snd (@CleanupCache env error s))) (Key c)).
Proof.
  intros Hreach Hcur Hraw Hc Hexp r.
  pose proof (reachable_cache_keys_base64 env s Hreach) as Hinv.
  assert (Hexp' : expired (env_now env (clock_reads s)) c = true)
    by (apply Z.ltb_lt, Hexp).
  split; [apply DecryptDataKey_slow_path_calls; assumption|].
  subst r. rewrite DecryptDataKey_slow_path
    by (try apply cache_lookup_misses; assumption).
  rewrite Hraw.
  split; [|split; [|split]].
  - destruct (env_Decrypt env _ raw arn) as [plaintext|]; cbn.
    + split; [reflexivity|]. split; [apply bytes_at_app_new|reflexivity].
    + split; reflexivity.
  - destruct (env_Decrypt env _ raw arn) as [plaintext|]; cbn.
    + rewrite lookup_insert_eq. eexists. reflexivity.
    + rewrite Hc. eexists. reflexivity.
  - rewrite CleanupCache_lookup, Hc, Hexp'. reflexivity.
  - rewrite CleanupCache_sweep. cbn. eapply sweep_zeroes; eassumption.
Qed.

End CacheFacts.

(** * The codec without KMS *)

Section LocalCodecFacts.
Context (env : Env) {gcm : AEAD}.
Import Base64Facts.

Lemma NewEncryptionCodec_Some (key : list byte) keyID c :
  NewEncryptionCodec key keyID = Some c ->
  c = {| codec_keyID := keyID; codec_key := key |} /\ length key = 32%nat.
Proof.
  unfold NewEncryptionCodec.
  destruct (Nat.eqb_spec (length key) 32) as [H|H]; cbn [negb];
    [|discriminate].
  intros [= <-]. split; [reflexivity|exact H].
Qed.

(** What a successful [encrypt] returns, whatever the key. *)
Lemma EncryptionCodec_encrypt_Ok c (data : list byte) s enc s' :
  EncryptionCodec_encrypt env c data s = (Ok enc, s') ->
  exists nonce,
    length nonce = NonceSize
    /\ enc = Base64.EncodeToString
               (nonce ++ Seal (codec_key c) nonce data [])
    /\ is_Some (aes_NewCipher (codec_key c))
    /\ manager s' = manager s /\ heap s' = heap s
    /\ kms_calls s' = kms_calls s /\ clock_reads s' = clock_reads s.
Proof.
  unfold EncryptionCodec_encrypt.
  destruct (aes_NewCipher (codec_key c)) as [block|] eqn:Hblock;
    [|discriminate].
  assert (Hkey : block_key block = codec_key c).
  { unfold aes_NewCipher in Hblock.
    destruct (_ || _); [|discriminate]. injection Hblock as <-. reflexivity. }
  cbn [cipher_NewGCM gcm_key]. unfold bind, rand_ReadFull, fail, ret.
  destruct (ReadFull (env_rand env (rand_reads s)) NonceSize) as [nonce|] eqn:Hr;
    [|discriminate].
  intros [= <- <-]. exists nonce. rewrite Hkey.
  split; [eapply ReadFull_length, Hr|]. split; [reflexivity|].
  split; [eexists; reflexivity|]. repeat split.
Qed.

(** [decrypt] opens what was sealed under the key of the codec. *)
Lemma EncryptionCodec_decrypt_sealed c (nonce p : list byte) :
  is_Some (aes_NewCipher (codec_key c)) ->
  length nonce = NonceSize ->
  EncryptionCodec_decrypt c
    (Base64.EncodeToString (nonce ++ Seal (codec_key c) nonce p [])) = Ok p.
Proof.
  intros [block Hblock] Hlen. unfold EncryptionCodec_decrypt.
  rewrite DecodeString_EncodeToString, Hblock.
  assert (Hkey : block_key block = codec_key c).
  { unfold aes_NewCipher in Hblock.
    destruct (_ || _); [|discriminate]. injection Hblock as <-. reflexivity. }
  cbn [cipher_NewGCM gcm_key]. rewrite Hkey.
  destruct (Nat.ltb_spec (length (nonce ++ Seal (codec_key c) nonce p []))
              NonceSize) as [Hlt|_].
  { rewrite length_app in Hlt. lia. }
  rewrite take_app_length' by (symmetry; exact Hlen).
  rewrite drop_app_length' by (symmetry; exact Hlen).
  rewrite Open_Seal by exact Hlen. reflexivity.
Qed.

(** X8: the codec without KMS reads back what it wrote.  For a codec that
    [NewEncryptionCodec] built, [encrypt] fails only when the random source
    does not deliver the nonce, and [decrypt] turns what it returned back
    into the plaintext. *)
Theorem X8_local_encrypt_then_decrypt (key : list byte) keyID c
    (data : list byte) s :
  NewEncryptionCodec key keyID = Some c ->
  match EncryptionCodec_encrypt env c data s with
  | (Ok enc, _) => EncryptionCodec_decrypt c enc = Ok data
  | (Err e, _) => e = ErrRandom
  end.
Proof.
  intros Hnew. destruct (NewEncryptionCodec_Some _ _ _ Hnew) as [-> Hlen].
  destruct (EncryptionCodec_encrypt env _ data s) as [[enc|e] s'] eqn:Henc.
  - destruct (EncryptionCodec_encrypt_Ok _ _ _ _ _ Henc)
      as (nonce & Hnonce & -> & Hsome & _).
    apply EncryptionCodec_decrypt_sealed; assumption.
  - revert Henc. unfold EncryptionCodec_encrypt. cbn [codec_key].
    rewrite (aes_NewCipher_32 key Hlen). cbn [cipher_NewGCM].
    unfold bind, rand_ReadFull, fail, ret.
    destruct (ReadFull _ _); [discriminate|]. intros [= <- _]. reflexivity.
Qed.

(** What an encode iteration of this codec appends for a candidate. *)
Lemma EncryptionCodec_encodePayload_Ok c payload response s response' s' :
  is_candidate payload = true ->
  EncryptionCodec_encodePayload env c payload response s = (Ok response', s') ->
  exists nonce,
    length nonce = NonceSize
    /\ is_Some (aes_NewCipher (codec_key c))
    /\ response' = response ++
         [{| Metadata := <[ "keyID" := codec_keyID c ]>
                           {[ "encoding" := "binary/encrypted" ]};
             Data := Base64.EncodeToString
                       (nonce ++ Seal (codec_key c) nonce
                                   (dataToEncrypt payload) []);
             KMSKeyID := ""; EncryptedDataKey := ""; Algorithm := "" |}].
Proof.
  intros Hcand. unfold EncryptionCodec_encodePayload.
  unfold is_candidate in Hcand. rewrite Hcand.
  fold (dataToEncrypt payload). unfold bind, wrap_err, ret.
  destruct (EncryptionCodec_encrypt env c (dataToEncrypt payload) s)
    as [[enc|e] s1] eqn:Henc; [|discriminate].
  destruct (EncryptionCodec_encrypt_Ok _ _ _ _ _ Henc)
    as (nonce & Hnonce & -> & Hsome & _).
  intros [= <- <-]. exists nonce. auto.
Qed.

(** The payloads an encode iteration of this codec may append for
    [payload], with the ciphertext spelled out. *)
Definition local_sealed_from (c : EncryptionCodec) (payload q : PayloadData)
  : Prop :=
  if is_candidate payload
  then exists nonce,
         length nonce = NonceSize
         /\ is_Some (aes_NewCipher (codec_key c))
         /\ q = {| Metadata := <[ "keyID" := codec_keyID c ]>
                                 {[ "encoding" := "binary/encrypted" ]};
                   Data := Base64.EncodeToString
                             (nonce ++ Seal (codec_key c) nonce
                                         (dataToEncrypt payload) []);
                   KMSKeyID := ""; EncryptedDataKey := "";
                   Algorithm := "" |}
  else q = payload.

Lemma EncryptionCodec_encodeLoop_Ok c payloads : forall response s out s',
  EncryptionCodec_encodeLoop env c payloads response s = (Ok out, s') ->
  exists added,
    out = response ++ added /\ Forall2 (local_sealed_from c) payloads added.
Proof.
  induction payloads as [|payload rest IH]; intros response s out s'.
  - cbn. intros [= <- <-]. exists []. rewrite app_nil_r.
    split; [reflexivity|constructor].
  - cbn [EncryptionCodec_encodeLoop]. unfold bind.
    destruct (EncryptionCodec_encodePayload env c payload response s)
      as [[r1|e] s1] eqn:H1; [|discriminate].
    intros Hrest. destruct (IH _ _ _ _ Hrest) as (added & -> & Hadded).
    assert (Hq : exists q, r1 = response ++ [q] /\ local_sealed_from c payload q).
    { unfold local_sealed_from.
      destruct (is_candidate payload) eqn:Hcand.
      - destruct (EncryptionCodec_encodePayload_Ok _ _ _ _ _ _ Hcand H1)
          as (nonce & Hnonce & Hsome & ->).
        eexists. split; [reflexivity|]. exists nonce. auto.
      - rewrite (EncryptionCodec_passes_through env _ _ _ _ Hcand) in H1.
        injection H1 as <- <-. exists payload. auto. }
    destruct Hq as (q & -> & Hq). exists (q :: added). split.
    + rewrite <- app_assoc. reflexivity.
    + constructor; assumption.
Qed.

Lemma local_sealed_encoded c payload q :
  local_sealed_from c payload q -> local_encoded_from c payload q.
Proof.
  unfold local_sealed_from, local_encoded_from.
  destruct (is_candidate payload); [|auto].
  intros (nonce & Hnonce & Hsome & ->). cbn [Metadata Data].
  split; [reflexivity|]. apply EncryptionCodec_decrypt_sealed; assumption.
Qed.

(** X9: the encode handler of the codec without KMS answers one payload
    per payload of the request, in order: a payload that is no candidate
    (its [encoding] is present and is not [json/plain]) is passed on as it
    is, and a candidate becomes a payload marked [binary/encrypted] that
    names the codec's key and whose data [decrypt] turns back into the
    bytes that were encrypted. *)
Theorem X9_local_handleEncode_keeps_every_payload c req s resp s' :
  EncryptionCodec_handleEncode env c req s = (Ok resp, s') ->
  Forall2 (local_encoded_from c) (Payloads req) (Response_Payloads resp).
Proof.
  unfold EncryptionCodec_handleEncode, bind.
  destruct (EncryptionCodec_encodeLoop env c (Payloads req) [] s)
    as [[out|e] s1] eqn:Hloop; [|discriminate].
  intros [= <- <-]. cbn [Response_Payloads].
  destruct (EncryptionCodec_encodeLoop_Ok _ _ _ _ _ _ Hloop)
    as (added & -> & Hadded).
  cbn [app]. eapply Forall2_impl; [exact Hadded|].
  intros p q. apply local_sealed_encoded.
Qed.

(** A decode iteration of this codec over what an encode iteration made of
    a payload that was not marked as encrypted. *)
Lemma EncryptionCodec_decodePayload_sealed c payload q response s :
  is_encrypted payload = false ->
  local_sealed_from c payload q ->
  EncryptionCodec_decodePayload c q response s
  = (Ok (response ++ [local_round_trip c payload]), s).
Proof.
  intros Hplain. unfold local_sealed_from, local_round_trip.
  destruct (is_candidate payload) eqn:Hcand.
  - intros (nonce & Hnonce & Hsome & ->).
    unfold EncryptionCodec_decodePayload. cbn [Metadata Data].
    rewrite lookup_insert_ne by discriminate. rewrite lookup_singleton_eq.
    cbn [default negb String.eqb].
    change (String.eqb "binary/encrypted" "binary/encrypted") with true.
    cbn [negb].
    rewrite (EncryptionCodec_decrypt_sealed _ _ _ Hsome Hnonce). reflexivity.
  - intros ->. unfold EncryptionCodec_decodePayload.
    unfold is_encrypted in Hplain. rewrite Hplain. reflexivity.
Qed.

Lemma EncryptionCodec_decodeLoop_sealed c payloads : forall added response s,
  Forall (fun p => is_encrypted p = false) payloads ->
  Forall2 (local_sealed_from c) payloads added ->
  EncryptionCodec_decodeLoop c added response s
  = (Ok (response ++ (local_round_trip c <$> payloads)), s).
Proof.
  induction payloads as [|payload rest IH]; intros added response s Hall H2.
  - inversion H2; subst. cbn. rewrite app_nil_r. reflexivity.
  - inversion H2 as [|? q ? added' Hq Hrest]; subst.
    inversion Hall as [|? ? Hp Hall']; subst.
    cbn [EncryptionCodec_decodeLoop]. unfold bind.
    rewrite (EncryptionCodec_decodePayload_sealed _ _ _ _ _ Hp Hq).
    rewrite (IH _ _ _ Hall' Hrest), <- app_assoc. reflexivity.
Qed.

(** X10: what the codec without KMS encoded it decodes again.  For a
    request without payloads marked [binary/encrypted]: when the encode
    handler answers it, the decode handler answers that batch, without a
    change of state, with one payload per payload of the request, in order:
    a payload that was no candidate comes back as it was, and a candidate
    comes back as a [json/plain] payload that names the codec's key and
    holds, in base64, the bytes that were encrypted; whatever else the
    candidate had in its metadata is gone. *)
Theorem X10_local_encode_then_decode c req s resp s1 :
  Forall (fun p => is_encrypted p = false) (Payloads req) ->
  EncryptionCodec_handleEncode env c req s = (Ok resp, s1) ->
  EncryptionCodec_handleDecode c {| Payloads := Response_Payloads resp |} s1
  = (Ok {| Response_Payloads := local_round_trip c <$> Payloads req |}, s1).
Proof.
  intros Hall. unfold EncryptionCodec_handleEncode, bind.
  destruct (EncryptionCodec_encodeLoop env c (Payloads req) [] s)
    as [[out|e] s'] eqn:Hloop; [|discriminate].
  intros [= <- <-]. cbn [Response_Payloads].
  destruct (EncryptionCodec_encodeLoop_Ok _ _ _ _ _ _ Hloop)
    as (added & -> & Hadded).
  unfold EncryptionCodec_handleDecode, bind. cbn [Payloads app].
  rewrite (EncryptionCodec_decodeLoop_sealed _ _ _ _ _ Hall Hadded).
  reflexivity.
Qed.

End LocalCodecFacts.

(** * The start of the codec without KMS, and keygen *)

Section StartFacts.
Context (env : Env) {gcm : AEAD}.
Import Base64Facts.

Lemma length_list_ascii_of_string s :
  length (list_ascii_of_string s) = String.length s.
Proof. induction s as [|a s IH]; cbn; congruence. Qed.

Lemma length_string_of_list_ascii l :
  String.length (string_of_list_ascii l) = length l.
Proof. induction l as [|a l IH]; cbn; congruence. Qed.

Lemma length_list_byte_of_string s :
  length (list_byte_of_string s) = String.length s.
Proof.
  unfold list_byte_of_string.
  rewrite length_map. apply length_list_ascii_of_string.
Qed.

(** [EncodedLen] of the padded encoding: four characters per started group
    of three bytes. *)
Lemma Encode_length src :
  length (Base64.Encode src) = (4 * ((length src + 2) / 3))%nat.
Proof.
  induction src as [| |a b|a b c l IH] using list_ind3; try reflexivity.
  change (length (Base64.Encode (a :: b :: c :: l)))
    with (4 + length (Base64.Encode l))%nat.
  rewrite IH. cbn [length].
  replace (S (S (S (length l))) + 2)%nat with (length l + 2 + 1 * 3)%nat by lia.
  rewrite Nat.div_add by lia. lia.
Qed.

(** X11: the codec without KMS starts for an unset [CODEC_KEY] and for one
    of exactly 32 characters, and stops for every other value.  When it
    starts, the codec has the key identifier [123abc] and a key of 32
    bytes (the bytes of [CODEC_KEY] when that is set), so the panic of
    [NewEncryptionCodec] is never reached and [encrypt] can only fail for
    want of random bytes. *)
Theorem X11_main_starts_for_32_characters CODEC_KEY :
  (EncryptionCodec_main CODEC_KEY = None
   <-> CODEC_KEY <> "" /\ String.length CODEC_KEY <> 32%nat)
  /\ forall c,
       EncryptionCodec_main CODEC_KEY = Some c ->
       codec_keyID c = "123abc"
       /\ length (codec_key c) = 32%nat
       /\ (CODEC_KEY <> "" -> codec_key c = list_byte_of_string CODEC_KEY)
       /\ forall (data : list byte) s e,
            fst (EncryptionCodec_encrypt env c data s) = Err e -> e = ErrRandom.
Proof.
  unfold EncryptionCodec_main.
  destruct (String.eqb_spec CODEC_KEY "") as [->|Hne].
  - cbn [String.length Nat.eqb negb]. split.
    + split; [discriminate|]. intros [H _]. congruence.
    + intros c Hc. destruct (NewEncryptionCodec_Some _ _ _ Hc) as [-> Hlen].
      cbn [codec_keyID codec_key]. split; [reflexivity|].
      split; [exact Hlen|]. split; [congruence|].
      intros data s e. unfold EncryptionCodec_encrypt. cbn [codec_key].
      rewrite (aes_NewCipher_32 _ Hlen). cbn [cipher_NewGCM].
      unfold bind, rand_ReadFull, fail, ret. cbn [fst].
      destruct (ReadFull _ _); cbn; congruence.
  - destruct (Nat.eqb_spec (String.length CODEC_KEY) 32) as [H32|H32];
      cbn [negb].
    + assert (Hlen : length (list_byte_of_string CODEC_KEY) = 32%nat)
        by (rewrite length_list_byte_of_string; exact H32).
      unfold NewEncryptionCodec. rewrite Hlen. cbn [Nat.eqb negb]. split.
      * split; [discriminate|]. intros [_ H]. congruence.
      * intros c [= <-]. cbn [codec_keyID codec_key].
        split; [reflexivity|]. split; [exact Hlen|]. split; [reflexivity|].
        intros data s e. unfold EncryptionCodec_encrypt. cbn [codec_key].
        rewrite (aes_NewCipher_32 _ Hlen). cbn [cipher_NewGCM].
        unfold bind, rand_ReadFull, fail, ret. cbn [fst].
        destruct (ReadFull _ _); cbn; congruence.
    + split; [|discriminate]. split; [auto|reflexivity].
Qed.

(** X12: the line keygen prints is the base64 form of the 32 bytes it
    drew: 44 characters that decode to those bytes.  Set as [CODEC_KEY] as
    it is, it stops the codec without KMS, which wants 32 characters. *)
Theorem X12_keygen_prints_44_characters r k :
  keygen_main r = Some k ->
  String.length k = 44%nat
  /\ (exists key : list byte,
        length key = 32%nat /\ Base64.DecodeString k = Some key)
  /\ EncryptionCodec_main k = None.
Proof.
  unfold keygen_main. destruct (ReadFull r 32) as [key|] eqn:Hr; [|discriminate].
  intros [= <-]. pose proof (ReadFull_length _ _ _ Hr) as Hlen.
  assert (H44 : String.length (Base64.EncodeToString key) = 44%nat).
  { unfold Base64.EncodeToString.
    rewrite length_string_of_list_ascii, Encode_length, Hlen. reflexivity. }
  split; [exact H44|]. split.
  - exists key. split; [exact Hlen|apply DecodeString_EncodeToString].
  - unfold EncryptionCodec_main.
    destruct (String.eqb_spec (Base64.EncodeToString key) "") as [He|_].
    + rewrite He in H44. discriminate.
    + rewrite H44. reflexivity.
Qed.

End StartFacts.

(** * The client of the codec server *)

Section ClientFacts.
Context (env : Env) {gcm : AEAD}.
Context (Post : string -> CodecRequest -> State -> option http_response * State).
Import Base64Facts.

Lemma http_status_not_200 e : http_status e <> Some 200%nat.
Proof. destruct e; discriminate. Qed.

Lemma local_http_status_not_200 e : local_http_status e <> Some 200%nat.
Proof. destruct e; discriminate. Qed.

(** [sendRequest] over a lossless link to [handler]. *)
Lemma sendRequest_link {E} path (status : E -> option nat) handler req s :
  lossless_link Post path status handler ->
  (forall e, status e <> Some 200%nat) ->
  sendRequest Post path req s =
  match handler req s with
  | (Ok resp, s') => (Ok resp, s')
  | (Err e, s') =>
      (Err match status e with
           | Some code => ErrStatus code
           | None => ErrHTTPRequest
           end, s')
  end.
Proof.
  intros Hlink Hst. unfold sendRequest. rewrite Hlink. unfold serve.
  destruct (handler req s) as [[resp|e] s']; [reflexivity|].
  specialize (Hst e). destruct (status e) as [code|]; [|reflexivity].
  cbn [StatusCode]. destruct (Nat.eqb_spec code 200); [congruence|reflexivity].
Qed.

Lemma to_PayloadData_encoding p :
  Metadata (to_PayloadData p) !! "encoding" = Payload_encoding p.
Proof. unfold to_PayloadData, Payload_encoding. cbn. apply lookup_fmap. Qed.

Lemma to_PayloadData_is_encrypted p :
  is_encrypted (to_PayloadData p) = Payload_is_encrypted p.
Proof.
  unfold is_encrypted, Payload_is_encrypted.
  rewrite to_PayloadData_encoding. reflexivity.
Qed.

Lemma to_PayloadData_is_candidate p :
  is_candidate (to_PayloadData p) = Payload_is_candidate p.
Proof.
  unfold is_candidate, Payload_is_candidate.
  rewrite to_PayloadData_encoding. reflexivity.
Qed.

(** The bytes an encode handler encrypts for a payload of the client. *)
Lemma to_PayloadData_dataToEncrypt p :
  dataToEncrypt (to_PayloadData p) = Payload_Data p.
Proof.
  unfold dataToEncrypt, to_PayloadData. cbn [Data].
  rewrite DecodeString_EncodeToString.
  destruct (String.eqb_spec (Base64.EncodeToString (Payload_Data p)) "")
    as [He|_]; [|reflexivity].
  destruct (Payload_Data p) as [|b l]; [reflexivity|].
  exfalso. revert He. apply EncodeToString_nonempty. discriminate.
Qed.

Lemma bytes_of_strings_of_bytes (m : gmap string (list byte)) :
  list_byte_of_string <$> (string_of_list_byte <$> m) = m.
Proof.
  rewrite <- map_fmap_compose. rewrite <- (map_fmap_id m) at 2.
  apply map_fmap_ext. intros k v _. apply list_byte_of_string_of_list_byte.
Qed.

Lemma strings_of_bytes_of_strings (m : gmap string string) :
  string_of_list_byte <$> (list_byte_of_string <$> m) = m.
Proof.
  rewrite <- map_fmap_compose. rewrite <- (map_fmap_id m) at 2.
  apply map_fmap_ext. intros k v _. apply string_of_list_byte_of_string.
Qed.

(** The request entry of a payload reads back as the payload. *)
Lemma to_Payload_to_PayloadData p : to_Payload (to_PayloadData p) = Some p.
Proof.
  unfold to_Payload, to_PayloadData. cbn [Data Metadata].
  rewrite DecodeString_EncodeToString, bytes_of_strings_of_bytes.
  destruct p; reflexivity.
Qed.

Lemma to_Payloads_fmap {A} (f : A -> PayloadData) (g : A -> Payload) l :
  (forall x, In x l -> to_Payload (f x) = Some (g x)) ->
  to_Payloads (f <$> l) = Some (g <$> l).
Proof.
  induction l as [|x l IH]; intros H; [reflexivity|].
  cbn [fmap list_fmap to_Payloads].
  rewrite (H x (or_introl eq_refl)).
  change (list_fmap A PayloadData f l) with (f <$> l).
  rewrite IH by (intros y Hy; apply H; right; exact Hy). reflexivity.
Qed.

Lemma to_Payloads_Some l : forall out,
  to_Payloads l = Some out ->
  Forall2 (fun q p => to_Payload q = Some p) l out.
Proof.
  induction l as [|q l IH]; intros out.
  - intros [= <-]. constructor.
  - cbn [to_Payloads]. destruct (to_Payload q) as [p|] eqn:Hq; [|discriminate].
    destruct (to_Payloads l) as [ps|]; [|discriminate].
    intros [= <-]. constructor; [exact Hq|apply IH; reflexivity].
Qed.

(** A response entry without key fields whose data is in canonical base64
    is the request entry of the payload the client makes of it. *)
Lemma to_PayloadData_to_Payload q p :
  to_Payload q = Some p ->
  KMSKeyID q = "" -> EncryptedDataKey q = "" -> Algorithm q = "" ->
  (exists ct, Data q = Base64.EncodeToString ct) ->
  to_PayloadData p = q.
Proof.
  unfold to_Payload. destruct q as [md d k e a].
  cbn [Data Metadata KMSKeyID EncryptedDataKey Algorithm].
  intros Hp -> -> -> [ct ->]. rewrite DecodeString_EncodeToString in Hp.
  injection Hp as <-. unfold to_PayloadData.
  cbn [Payload_Metadata Payload_Data].
  rewrite strings_of_bytes_of_strings. reflexivity.
Qed.

(** The decode loop of the KMS codec over payloads without a wrapped data
    key: it stops at the first one that is marked as encrypted. *)
Lemma decodeLoop_keyless payloads : forall response s,
  Forall (fun p => EncryptedDataKey p = "") payloads ->
  decodeLoop env payloads response s =
  if existsb is_encrypted payloads
  then (Err MissingEncryptedDataKey, s)
  else (Ok (response ++ payloads), s).
Proof.
  induction payloads as [|payload rest IH]; intros response s Hall.
  - cbn. rewrite app_nil_r. reflexivity.
  - inversion Hall as [|? ? Hp Hrest]; subst.
    cbn [decodeLoop existsb]. unfold bind.
    destruct (is_encrypted payload) eqn:Henc; cbn [orb].
    + rewrite (decodePayload_missing env payload response s (conj Henc Hp)).
      reflexivity.
    + rewrite (decodePayload_plain env _ _ _ Henc), (IH _ _ Hrest).
      destruct (existsb is_encrypted rest); [reflexivity|].
      rewrite <- app_assoc. reflexivity.
Qed.

Lemma existsb_fmap {A B} (f : B -> bool) (g : A -> B) (h : A -> bool) l :
  (forall x, f (g x) = h x) -> existsb f (g <$> l) = existsb h l.
Proof.
  intros H. induction l as [|x l IH]; [reflexivity|].
  cbn. rewrite <- IH, H. reflexivity.
Qed.

(** [Decode] over a lossless link to the decode handler of the KMS codec. *)
Lemma RemoteCodecClient_Decode_KMS payloads s :
  lossless_link Post "/decode" http_status (handleDecode env) ->
  RemoteCodecClient_Decode Post payloads s =
  if existsb Payload_is_encrypted payloads
  then (Err (DecodeRequestFailed (ErrStatus 400)), s)
  else (Ok payloads, s).
Proof.
  intros Hlink. unfold RemoteCodecClient_Decode.
  destruct payloads as [|p ps]; [reflexivity|].
  cbn [length Nat.eqb]. unfold bind, wrap_err.
  rewrite (sendRequest_link _ _ _ _ _ Hlink http_status_not_200).
  unfold handleDecode, bind. cbn [Payloads].
  rewrite decodeLoop_keyless
    by (apply Forall_fmap, Forall_forall; intros x _; reflexivity).
  rewrite (existsb_fmap _ _ Payload_is_encrypted)
    by apply to_PayloadData_is_encrypted.
  destruct (existsb Payload_is_encrypted (p :: ps)); [reflexivity|].
  unfold ret. cbn [Response_Payloads app].
  rewrite (to_Payloads_fmap to_PayloadData id)
    by (intros x _; apply to_Payload_to_PayloadData).
  rewrite list_fmap_id. reflexivity.
Qed.

(** X13: through the client, the KMS codec never decrypts anything.  The
    request the client builds carries the metadata and the data of each
    payload and no wrapped data key, so over a lossless link to
    [handleDecode] a batch that holds a payload marked [binary/encrypted]
    is refused with status 400, and any other batch comes back as it is;
    the state of the server is the same afterwards in both cases. *)
Theorem X13_client_Decode_never_decrypts payloads s :
  lossless_link Post "/decode" http_status (handleDecode env) ->
  RemoteCodecClient_Decode Post payloads s =
  if existsb Payload_is_encrypted payloads
  then (Err (DecodeRequestFailed (ErrStatus 400)), s)
  else (Ok payloads, s).
Proof. apply RemoteCodecClient_Decode_KMS. Qed.

(** What [Encode] returns over a lossless link to an encode handler. *)
Lemma RemoteCodecClient_Encode_Ok handler payloads s out s1 :
  lossless_link Post "/encode" http_status handler ->
  RemoteCodecClient_Encode Post payloads s = (Ok out, s1) ->
  (payloads = [] /\ out = [] /\ s1 = s)
  \/ exists resp,
       payloads <> []
       /\ handler {| Payloads := to_PayloadData <$> payloads |} s = (Ok resp, s1)
       /\ to_Payloads (Response_Payloads resp) = Some out.
Proof.
  intros Hlink. unfold RemoteCodecClient_Encode.
  destruct payloads as [|p ps].
  - intros [= <- <-]. left. auto.
  - cbn [length Nat.eqb]. unfold bind, wrap_err.
    rewrite (sendRequest_link _ _ _ _ _ Hlink http_status_not_200).
    destruct (handler _ s) as [[resp|e] s'] eqn:Hrun; [|discriminate].
    destruct (to_Payloads (Response_Payloads resp)) as [ps'|] eqn:Hps;
      [|discriminate].
    intros [= <- <-]. right. exists resp. repeat split; [discriminate|].
    exact Hps.
Qed.

(** X14: what the client encoded through the KMS codec it cannot decode
    through it.  Over lossless links to [handleEncode] and [handleDecode]:
    a batch that [Encode] returned holds one payload per candidate of the
    batch it was given, and [Decode] of it, unless it is empty, is refused
    with status 400: the wrapped data key of the server's answer is not
    part of the payloads the client returns. *)
Theorem X14_client_cannot_decode_what_it_encoded payloads s out s1 :
  lossless_link Post "/encode" http_status (handleEncode env) ->
  lossless_link Post "/decode" http_status (handleDecode env) ->
  RemoteCodecClient_Encode Post payloads s = (Ok out, s1) ->
  length out = length (List.filter Payload_is_candidate payloads)
  /\ (out <> [] ->
      RemoteCodecClient_Decode Post out s1
      = (Err (DecodeRequestFailed (ErrStatus 400)), s1)).
Proof.
  intros Henc Hdec Hrun.
  destruct (RemoteCodecClient_Encode_Ok _ _ _ _ _ Henc Hrun)
    as [(-> & -> & ->)|(resp & Hne & Hserver & Hout)].
  { split; [reflexivity|congruence]. }
  pose proof (to_Payloads_Some _ _ Hout) as Hall.
  revert Hserver. unfold handleEncode, bind. cbn [Payloads].
  destruct (encodeLoop env (to_PayloadData <$> payloads) [] s)
    as [[added|e] s'] eqn:Hloop; [|discriminate].
  intros [= <- <-]. cbn [Response_Payloads] in Hall. split.
  - rewrite <- (Forall2_length _ _ _ Hall).
    rewrite (encodeLoop_length env _ _ _ _ _ Hloop). cbn [length plus].
    clear. induction payloads as [|p ps IH]; [reflexivity|].
    cbn [fmap list_fmap List.filter].
    rewrite to_PayloadData_is_candidate.
    destruct (Payload_is_candidate p); cbn [length]; rewrite <- IH;
      reflexivity.
  - intros Hout_ne. rewrite (RemoteCodecClient_Decode_KMS _ _ Hdec).
    replace (existsb Payload_is_encrypted out) with true; [reflexivity|].
    symmetry.
    destruct (encodeLoop_Ok env (fun _ => True)
      (fun q => Metadata q = {[ "encoding" := "binary/encrypted" ]}))
      with (payloads := to_PayloadData <$> payloads)
           (response := @nil PayloadData) (s := s) (out := added) (s' := s')
      as (_ & added' & Hadded & Hmeta); [|exact I|exact Hloop|].
    { intros payload response si response' si' _ Hstep. split; [exact I|].
      destruct (is_candidate payload) eqn:Hcand.
      - destruct (encodePayload_Ok env _ _ _ _ _ Hcand Hstep)
          as (ck & data & -> & _ & _).
        right. eexists. split; reflexivity.
      - rewrite (encodePayload_skip env _ _ _ Hcand) in Hstep.
        injection Hstep as <- <-. left. reflexivity. }
    cbn [app] in Hadded. subst added'.
    destruct Hall as [|q p qs ps Hq Hrest]; [congruence|].
    cbn [existsb]. apply orb_true_iff. left.
    inversion Hmeta as [|? ? Hmq _]; subst.
    unfold to_Payload in Hq.
    destruct (Base64.DecodeString (Data q)); [|discriminate].
    injection Hq as <-. unfold Payload_is_encrypted, Payload_encoding.
    cbn [Payload_Metadata]. rewrite Hmq, map_fmap_singleton.
    rewrite lookup_singleton_eq. cbn [fmap option_fmap option_map default].
    rewrite string_of_list_byte_of_string. reflexivity.
Qed.

Lemma to_Payload_local_round_trip c p :
  to_Payload (local_round_trip c (to_PayloadData p))
  = Some (client_round_trip c p).
Proof.
  unfold local_round_trip, client_round_trip.
  rewrite to_PayloadData_is_candidate.
  destruct (Payload_is_candidate p); [|apply to_Payload_to_PayloadData].
  unfold to_Payload. cbn [Data Metadata].
  rewrite DecodeString_EncodeToString, to_PayloadData_dataToEncrypt.
  rewrite fmap_insert, map_fmap_singleton. reflexivity.
Qed.

(** The batch [Encode] returns, sent again, is the batch the encode
    handler of the codec without KMS answered. *)
Lemma sealed_reply_is_request c payloads : forall added out,
  Forall2 (fun p q => local_sealed_from c (to_PayloadData p) q) payloads added ->
  Forall2 (fun q p => to_Payload q = Some p) added out ->
  to_PayloadData <$> out = added.
Proof.
  induction payloads as [|p ps IH]; intros added out Hsealed Hall.
  - inversion Hsealed; subst. inversion Hall; subst. reflexivity.
  - inversion Hsealed as [|? q ? qs Hq Hrest]; subst.
    inversion Hall as [|? p' ? out' Hp' Hall']; subst.
    cbn [fmap list_fmap]. f_equal; [|apply IH; assumption].
    unfold local_sealed_from in Hq.
    destruct (is_candidate (to_PayloadData p)).
    + destruct Hq as (nonce & _ & _ & ->).
      apply (to_PayloadData_to_Payload _ _ Hp'); try reflexivity.
      eexists. reflexivity.
    + subst q. rewrite to_Payload_to_PayloadData in Hp'.
      injection Hp' as <-. reflexivity.
Qed.

(** X15: through the client, the codec without KMS gives back what it
    was given.  Over lossless links to its two handlers, for a batch
    without payloads marked [binary/encrypted]: when [Encode] returns a
    batch, [Decode] of that batch returns, without a change of state, one
    payload per payload of the first batch, in order: a payload that was
    no candidate as it was, and a candidate with its data as it was and
    with the metadata [encoding = json/plain] and [keyID]; whatever else
    the candidate had in its metadata is gone. *)
Theorem X15_client_round_trip_without_KMS c payloads s out s1 :
  lossless_link Post "/encode" http_status (EncryptionCodec_handleEncode env c) ->
  lossless_link Post "/decode" local_http_status
    (EncryptionCodec_handleDecode c) ->
  Forall (fun p => Payload_is_encrypted p = false) payloads ->
  RemoteCodecClient_Encode Post payloads s = (Ok out, s1) ->
  RemoteCodecClient_Decode Post out s1
  = (Ok (client_round_trip c <$> payloads), s1).
Proof.
  intros Henc Hdec Hplain Hrun.
  destruct (RemoteCodecClient_Encode_Ok _ _ _ _ _ Henc Hrun)
    as [(-> & -> & ->)|(resp & Hne & Hserver & Hout)]; [reflexivity|].
  pose proof (to_Payloads_Some _ _ Hout) as Hall.
  revert Hserver. unfold EncryptionCodec_handleEncode, bind. cbn [Payloads].
  destruct (EncryptionCodec_encodeLoop env c (to_PayloadData <$> payloads) [] s)
    as [[added|e] s'] eqn:Hloop; [|discriminate].
  intros [= <- <-]. cbn [Response_Payloads] in Hall.
  destruct (EncryptionCodec_encodeLoop_Ok env _ _ _ _ _ _ Hloop)
    as (added' & Hadded & Hsealed).
  cbn [app] in Hadded. subst added'.
  pose proof (proj1 (Forall2_fmap_l _ _ _ _) Hsealed) as Hsealed'.
  pose proof (sealed_reply_is_request _ _ _ _ Hsealed' Hall) as Hreq.
  unfold RemoteCodecClient_Decode.
  destruct out as [|p0 out'].
  { apply Forall2_length in Hall. apply Forall2_length in Hsealed.
    destruct payloads; [congruence|]. cbn in *. lia. }
  cbn [length Nat.eqb]. unfold bind, wrap_err.
  rewrite (sendRequest_link _ _ _ _ _ Hdec local_http_status_not_200).
  rewrite Hreq. unfold EncryptionCodec_handleDecode, bind. cbn [Payloads].
  rewrite (EncryptionCodec_decodeLoop_sealed c (to_PayloadData <$> payloads)).
  - unfold ret. cbn [Response_Payloads app].
    rewrite <- list_fmap_compose.
    rewrite (to_Payloads_fmap _ (client_round_trip c))
      by (intros x _; apply to_Payload_local_round_trip).
    reflexivity.
  - apply Forall_fmap. eapply Forall_impl; [exact Hplain|].
    intros x Hx. cbn. rewrite to_PayloadData_is_encrypted. exact Hx.
  - exact Hsealed.
Qed.

End ClientFacts.

(** * The buffers of the keys on a running server *)

Section KeyBufferFacts.
Context (env : Env) {gcm : AEAD}.
Import Base64Facts.

Lemma key_buffers_sound_frame s s' :
  manager s' = manager s -> heap s' = heap s ->
  key_buffers_sound env s -> key_buffers_sound env s'.
Proof.
  intros Hm Hh. unfold key_buffers_sound. rewrite Hm, Hh. auto.
Qed.

Lemma rotateDataKeyLocked_buffers s :
  key_buffers_sound env s ->
  key_buffers_sound env (snd (rotateDataKeyLocked env s)).
Proof.
  intros [HA HB].
  destruct (env_GenerateDataKey env (length (kms_calls s)) (keyID (manager s)))
    as [[pt blob]|] eqn:Hkms.
  - rewrite (rotateDataKeyLocked_succeeds env s pt blob Hkms).
    set (h' := match currentDataKey (manager s) with
               | Some old => zero_at (PlaintextKey old) (heap s ++ [pt])
               | None => heap s ++ [pt]
               end).
    assert (Hlen : length h' = S (length (heap s))).
    { subst h'. destruct (currentDataKey (manager s));
        rewrite ?length_zero_at, length_app; cbn; lia. }
    assert (Hnew : bytes_at h' (length (heap s)) = pt).
    { subst h'. destruct (currentDataKey (manager s)) as [old|] eqn:Hold.
      - destruct (HB old eq_refl) as (Hlt & _).
        rewrite bytes_at_zero_at_other by lia. apply bytes_at_app_new.
      - apply bytes_at_app_new. }
    split; cbn [snd manager heap with_currentDataKey decryptionCache
                currentDataKey keyID].
    + intros key e He. rewrite Hlen. specialize (HA key e He). lia.
    + intros c [= <-]. cbn [rotated_key PlaintextKey EncryptedKey].
      split; [lia|]. split.
      * intros key e He. specialize (HA key e He). lia.
      * exists (length (kms_calls s)), blob. rewrite Hnew.
        split; [exact Hkms|reflexivity].
  - rewrite (rotateDataKeyLocked_fails env s Hkms).
    apply (key_buffers_sound_frame s); [reflexivity|reflexivity|].
    split; assumption.
Qed.

Lemma GetCurrentDataKey_buffers s :
  key_buffers_sound env s ->
  key_buffers_sound env (snd (GetCurrentDataKey env s)).
Proof.
  intros Hinv.
  assert (Htick : forall n,
    key_buffers_sound env
      {| manager := manager s; heap := heap s; clock_reads := n;
         rand_reads := rand_reads s; kms_calls := kms_calls s |}).
  { intros n. apply (key_buffers_sound_frame s); [reflexivity|reflexivity|].
    exact Hinv. }
  unfold GetCurrentDataKey, bind, get, needs_rotation.
  cbn -[rotateDataKeyLocked].
  destruct (currentDataKey (manager s)) as [c|] eqn:Hc.
  - unfold bind, Now, ret. cbn -[rotateDataKeyLocked].
    destruct (ExpiresAt c <? env_now env (clock_reads s))%Z; [|apply Htick].
    cbn -[rotateDataKeyLocked]. rewrite Hc. cbn -[rotateDataKeyLocked].
    destruct (ExpiresAt c <? env_now env (S (clock_reads s)))%Z;
      [|apply Htick].
    match goal with
    | |- context [rotateDataKeyLocked env ?x] =>
        pose proof (rotateDataKeyLocked_buffers x (Htick _)) as Hrot;
        destruct (rotateDataKeyLocked env x) as [[u|e] s1]
    end; exact Hrot.
  - unfold ret. rewrite ?Hc.
    pose proof (rotateDataKeyLocked_buffers s Hinv) as Hrot.
    destruct (rotateDataKeyLocked env s) as [[u|e] s1]; exact Hrot.
Qed.

Lemma encodePayload_buffers payload response s :
  key_buffers_sound env s ->
  key_buffers_sound env (snd (encodePayload env payload response s)).
Proof.
  intros Hinv. unfold encodePayload.
  destruct (match Metadata payload !! "encoding" with
            | Some e => String.eqb e "json/plain"
            | None => true
            end); [|exact Hinv].
  unfold bind at 1. unfold wrap_err at 1.
  pose proof (GetCurrentDataKey_buffers s Hinv) as Hget.
  destruct (GetCurrentDataKey env s) as [[[ck|]|e] s1]; try exact Hget.
  unfold bind, get, wrap_err, ret.
  match goal with
  | |- context [EncryptWithDataKey env ?d ?k s1] =>
      destruct (EncryptWithDataKey_frame env d k s1) as (Hm & Hh & Hk);
      destruct (EncryptWithDataKey env d k s1) as [[data|e] s2]
  end; cbn in *;
    (eapply key_buffers_sound_frame; [| |exact Hget]; assumption).
Qed.

Lemma encodeLoop_buffers payloads : forall response s,
  key_buffers_sound env s ->
  key_buffers_sound env (snd (encodeLoop env payloads response s)).
Proof.
  induction payloads as [|payload rest IH]; intros response s Hinv;
    [exact Hinv|].
  cbn [encodeLoop]. unfold bind.
  pose proof (encodePayload_buffers payload response s Hinv) as H1.
  destruct (encodePayload env payload response s) as [[r1|e] s1];
    [apply IH|]; exact H1.
Qed.

Lemma DecryptDataKey_buffers s encryptedKey masterKeyARN :
  cache_keys_base64 s ->
  key_buffers_sound env s ->
  key_buffers_sound env (snd (DecryptDataKey env encryptedKey masterKeyARN s)).
Proof.
  intros Hcache Hinv. destruct (is_current s encryptedKey) eqn:Hcur.
  - unfold is_current in Hcur.
    destruct (currentDataKey (manager s)) as [c|] eqn:Hc; [|discriminate].
    rewrite (DecryptDataKey_current env s c _ _ Hc
               (proj1 (String.eqb_eq _ _) Hcur)).
    exact Hinv.
  - rewrite DecryptDataKey_slow_path
      by (try apply cache_lookup_misses; assumption).
    destruct (Base64.DecodeString encryptedKey) as [raw|]; [|exact Hinv].
    destruct (env_Decrypt env _ raw masterKeyARN) as [pt|].
    + destruct Hinv as [HA HB].
      split; cbn [snd after_kms_decrypt manager heap with_decryptionCache
                  decryptionCache currentDataKey keyID].
      * intros key e. rewrite length_app. cbn [length].
        destruct (decide (encryptedKey = key)) as [<-|Hne].
        -- rewrite lookup_insert_eq. intros [= <-]. cbn. lia.
        -- rewrite lookup_insert_ne by exact Hne. intros He.
           specialize (HA key e He). lia.
      * intros c Hc. destruct (HB c Hc) as (Hlt & Hother & n & blob & Hn & Hb).
        rewrite length_app. cbn [length]. split; [lia|]. split.
        -- intros key e. destruct (decide (encryptedKey = key)) as [<-|Hne].
           ++ rewrite lookup_insert_eq. intros [= <-]. cbn. lia.
           ++ rewrite lookup_insert_ne by exact Hne. apply Hother.
        -- exists n, blob. rewrite bytes_at_app_l by exact Hlt.
           split; assumption.
    + apply (key_buffers_sound_frame s); [reflexivity|reflexivity|exact Hinv].
Qed.

Lemma decodePayload_buffers payload response s :
  cache_keys_base64 s ->
  key_buffers_sound env s ->
  key_buffers_sound env (snd (decodePayload env payload response s)).
Proof.
  intros Hcache Hinv. unfold decodePayload.
  destruct (negb _); [exact Hinv|].
  destruct (String.eqb (EncryptedDataKey payload) ""); [exact Hinv|].
  unfold bind, wrap_err, get.
  pose proof (DecryptDataKey_buffers s (EncryptedDataKey payload)
                (KMSKeyID payload) Hcache Hinv) as H1.
  destruct (DecryptDataKey env _ _ s) as [[dataKey|e] s1]; [|exact H1].
  destruct (DecryptWithDataKey _ _); exact H1.
Qed.

Lemma decodeLoop_buffers payloads : forall response s,
  cache_keys_base64 s ->
  key_buffers_sound env s ->
  key_buffers_sound env (snd (decodeLoop env payloads response s)).
Proof.
  induction payloads as [|payload rest IH]; intros response s Hcache Hinv;
    [exact Hinv|].
  cbn [decodeLoop]. unfold bind.
  pose proof (decodePayload_buffers payload response s Hcache Hinv) as H1.
  pose proof (decodePayload_keeps_invariant env payload response s Hcache) as H2.
  destruct (decodePayload env payload response s) as [[r1|e] s1];
    [apply IH|]; assumption.
Qed.

(** The sweep changes no buffer but those of the entries it removes. *)
Lemma sweep_keeps now h m0 m p :
  (forall key e, m !! key = Some e -> expired now e = true -> Key e <> p) ->
  bytes_at (fst (sweep now h m0 m)) p = bytes_at h p.
Proof.
  unfold sweep.
  apply (map_fold_weak_ind
    (fun r (m : gmap string CachedKey) =>
       (forall key e, m !! key = Some e -> expired now e = true -> Key e <> p) ->
       bytes_at (fst r) p = bytes_at h p)).
  - reflexivity.
  - intros i x m' r Hi IH Hall.
    assert (IH' : bytes_at (fst r) p = bytes_at h p).
    { apply IH. intros key e He Hexp'. apply (Hall key e); [|exact Hexp'].
      rewrite lookup_insert_ne by (intros ->; congruence). exact He. }
    destruct (CachedKey_ExpiresAt x <? now)%Z eqn:Hexp; cbn; [|exact IH'].
    rewrite bytes_at_zero_at_other; [exact IH'|].
    apply (Hall i x); [apply lookup_insert_eq|exact Hexp].
Qed.

Lemma CleanupCache_buffers s :
  key_buffers_sound env s ->
  key_buffers_sound env (snd (@CleanupCache env error s)).
Proof.
  intros [HA HB].
  assert (Hsub : forall key e,
    decryptionCache (manager (snd (@CleanupCache env error s))) !! key = Some e ->
    decryptionCache (manager s) !! key = Some e).
  { intros key e. rewrite CleanupCache_lookup.
    destruct (decryptionCache (manager s) !! key) as [e'|]; [|discriminate].
    destruct (expired _ e'); [discriminate|auto]. }
  split.
  - intros key e He. rewrite CleanupCache_sweep. cbn [snd heap].
    rewrite length_sweep. apply (HA key e), Hsub, He.
  - intros c Hc. assert (Hc' : currentDataKey (manager s) = Some c) by exact Hc.
    destruct (HB c Hc') as (Hlt & Hother & n & blob & Hn & Hb).
    split; [|split].
    + rewrite CleanupCache_sweep. cbn [snd heap]. rewrite length_sweep.
      exact Hlt.
    + intros key e He. apply (Hother key e), Hsub, He.
    + exists n, blob. split; [|exact Hb].
      rewrite CleanupCache_sweep. cbn [snd heap manager with_decryptionCache keyID].
      rewrite sweep_keeps; [exact Hn|].
      intros key e He _. apply (Hother key e He).
Qed.

(** In every state of a running server the buffers of the keys are sound. *)
Lemma reachable_key_buffers_sound s :
  reachable env s -> key_buffers_sound env s.
Proof.
  induction 1 as [s0 keyID ttl interval|s _ IH|s _ IH|s k arn Hs IH|s _ IH
                 |s req _ IH|s req Hs IH].
  - unfold NewKMSManager, bind, modify. cbn -[rotateDataKey].
    match goal with
    | |- context [rotateDataKey env ?x] =>
        assert (Hx : key_buffers_sound env x)
          by (split;
              [intros key e He; cbn in He; rewrite lookup_empty in He
              |intros c Hc]; discriminate);
        pose proof (rotateDataKeyLocked_buffers x Hx) as Hrot;
        unfold rotateDataKey;
        destruct (rotateDataKeyLocked env x) as [[u|e] s1]
    end; exact Hrot.
  - apply GetCurrentDataKey_buffers, IH.
  - apply rotateDataKeyLocked_buffers, IH.
  - apply DecryptDataKey_buffers;
      [apply (reachable_cache_keys_base64 env), Hs|exact IH].
  - apply CleanupCache_buffers, IH.
  - unfold handleEncode, bind.
    pose proof (encodeLoop_buffers (Payloads req) [] s IH) as H1.
    destruct (encodeLoop env (Payloads req) [] s) as [[out|e] s1]; exact H1.
  - unfold handleDecode, bind.
    pose proof (decodeLoop_buffers (Payloads req) [] s
                  (reachable_cache_keys_base64 env s Hs) IH) as H1.
    destruct (decodeLoop env (Payloads req) [] s) as [[out|e] s1]; exact H1.
Qed.

End KeyBufferFacts.

(** * The buffers nothing refers to *)

Section UnreferencedBuffers.
Context (env : Env) {gcm : AEAD}.

(** The step from [s] to [s'] keeps the buffer [p], to which nothing
    refers: nothing refers to it afterwards, and it holds what it held. *)
Definition buffer_kept (p : slice) (s s' : State) : Prop :=
  (p < length (heap s))%nat -> unreferenced s p ->
  (p < length (heap s'))%nat
  /\ unreferenced s' p
  /\ bytes_at (heap s') p = bytes_at (heap s) p.

Lemma buffer_kept_frame p s s' :
  manager s' = manager s -> heap s' = heap s -> buffer_kept p s s'.
Proof.
  intros Hm Hh Hlt Hun. unfold unreferenced. rewrite Hm, Hh. auto.
Qed.

Lemma buffer_kept_trans p s s1 s2 :
  buffer_kept p s s1 -> buffer_kept p s1 s2 -> buffer_kept p s s2.
Proof.
  intros H1 H2 Hlt Hun. destruct (H1 Hlt Hun) as (Hlt1 & Hun1 & Hb1).
  destruct (H2 Hlt1 Hun1) as (Hlt2 & Hun2 & Hb2).
  split; [exact Hlt2|]. split; [exact Hun2|congruence].
Qed.

Lemma rotateDataKeyLocked_kept p s :
  buffer_kept p s (snd (rotateDataKeyLocked env s)).
Proof.
  destruct (env_GenerateDataKey env (length (kms_calls s)) (keyID (manager s)))
    as [[pt blob]|] eqn:Hkms.
  - rewrite (rotateDataKeyLocked_succeeds env s pt blob Hkms).
    intros Hlt [Hcache Hcur].
    cbn [snd manager heap with_currentDataKey decryptionCache currentDataKey].
    split; [|split].
    + destruct (currentDataKey (manager s));
        rewrite ?length_zero_at, length_app; cbn; lia.
    + split; [exact Hcache|].
      intros c [= <-]. cbn [rotated_key PlaintextKey]. lia.
    + destruct (currentDataKey (manager s)) as [old|] eqn:Hold.
      * rewrite bytes_at_zero_at_other by (apply Hcur; reflexivity).
        apply bytes_at_app_l, Hlt.
      * apply bytes_at_app_l, Hlt.
  - rewrite (rotateDataKeyLocked_fails env s Hkms).
    apply buffer_kept_frame; reflexivity.
Qed.

Lemma GetCurrentDataKey_kept p s :
  buffer_kept p s (snd (GetCurrentDataKey env s)).
Proof.
  assert (Htick : forall n,
    buffer_kept p s
      {| manager := manager s; heap := heap s; clock_reads := n;
         rand_reads := rand_reads s; kms_calls := kms_calls s |})
    by (intros n; apply buffer_kept_frame; reflexivity).
  unfold GetCurrentDataKey, bind, get, needs_rotation.
  cbn -[rotateDataKeyLocked].
  destruct (currentDataKey (manager s)) as [c|] eqn:Hc.
  - unfold bind, Now, ret. cbn -[rotateDataKeyLocked].
    destruct (ExpiresAt c <? env_now env (clock_reads s))%Z; [|apply Htick].
    cbn -[rotateDataKeyLocked]. rewrite Hc. cbn -[rotateDataKeyLocked].
    destruct (ExpiresAt c <? env_now env (S (clock_reads s)))%Z;
      [|apply Htick].
    match goal with
    | |- context [rotateDataKeyLocked env ?x] =>
        pose proof (buffer_kept_trans p s x _ (Htick _)
                      (rotateDataKeyLocked_kept p x)) as Hrot;
        destruct (rotateDataKeyLocked env x) as [[u|e] s1]
    end; exact Hrot.
  - unfold ret. rewrite ?Hc.
    pose proof (rotateDataKeyLocked_kept p s) as Hrot.
    destruct (rotateDataKeyLocked env s) as [[u|e] s1]; exact Hrot.
Qed.

Lemma encodePayload_kept p payload response s :
  buffer_kept p s (snd (encodePayload env payload response s)).
Proof.
  unfold encodePayload.
  destruct (match Metadata payload !! "encoding" with
            | Some e => String.eqb e "json/plain"
            | None => true
            end); [|apply buffer_kept_frame; reflexivity].
  unfold bind at 1. unfold wrap_err at 1.
  pose proof (GetCurrentDataKey_kept p s) as Hget.
  destruct (GetCurrentDataKey env s) as [[[ck|]|e] s1]; try exact Hget.
  unfold bind, get, wrap_err, ret.
  match goal with
  | |- context [EncryptWithDataKey env ?d ?k s1] =>
      destruct (EncryptWithDataKey_frame env d k s1) as (Hm & Hh & Hk);
      destruct (EncryptWithDataKey env d k s1) as [[data|e] s2]
  end; cbn in *;
    exact (buffer_kept_trans p s s1 _ Hget (buffer_kept_frame p s1 _ Hm Hh)).
Qed.

Lemma encodeLoop_kept p payloads : forall response s,
  buffer_kept p s (snd (encodeLoop env payloads response s)).
Proof.
  induction payloads as [|payload rest IH]; intros response s;
    [apply buffer_kept_frame; reflexivity|].
  cbn [encodeLoop]. unfold bind.
  pose proof (encodePayload_kept p payload response s) as H1.
  destruct (encodePayload env payload response s) as [[r1|e] s1];
    [|exact H1].
  exact (buffer_kept_trans p s s1 _ H1 (IH r1 s1)).
Qed.

Lemma DecryptDataKey_kept p s encryptedKey masterKeyARN :
  cache_keys_base64 s ->
  buffer_kept p s (snd (DecryptDataKey env encryptedKey masterKeyARN s)).
Proof.
  intros Hcache. destruct (is_current s encryptedKey) eqn:Hcur.
  - unfold is_current in Hcur.
    destruct (currentDataKey (manager s)) as [c|] eqn:Hc; [|discriminate].
    rewrite (DecryptDataKey_current env s c _ _ Hc
               (proj1 (String.eqb_eq _ _) Hcur)).
    apply buffer_kept_frame; reflexivity.
  - rewrite DecryptDataKey_slow_path
      by (try apply cache_lookup_misses; assumption).
    destruct (Base64.DecodeString encryptedKey) as [raw|];
      [|apply buffer_kept_frame; reflexivity].
    destruct (env_Decrypt env _ raw masterKeyARN) as [pt|];
      [|apply buffer_kept_frame; reflexivity].
    intros Hlt [Hc Hk]. unfold unreferenced.
    cbn [snd after_kms_decrypt manager heap with_decryptionCache
         decryptionCache currentDataKey].
    split; [rewrite length_app; lia|]. split; [split|].
    + intros key e. destruct (decide (encryptedKey = key)) as [<-|Hne].
      * rewrite lookup_insert_eq. intros [= <-]. cbn [cached_entry Key]. lia.
      * rewrite lookup_insert_ne by exact Hne. apply Hc.
    + exact Hk.
    + apply bytes_at_app_l, Hlt.
Qed.

Lemma decodePayload_kept p payload response s :
  cache_keys_base64 s ->
  buffer_kept p s (snd (decodePayload env payload response s)).
Proof.
  intros Hcache. unfold decodePayload.
  destruct (negb _); [apply buffer_kept_frame; reflexivity|].
  destruct (String.eqb (EncryptedDataKey payload) "");
    [apply buffer_kept_frame; reflexivity|].
  unfold bind, wrap_err, get.
  pose proof (DecryptDataKey_kept p s (EncryptedDataKey payload)
                (KMSKeyID payload) Hcache) as H1.
  destruct (DecryptDataKey env _ _ s) as [[dataKey|e] s1]; [|exact H1].
  destruct (DecryptWithDataKey _ _); exact H1.
Qed.

Lemma decodeLoop_kept p payloads : forall response s,
  cache_keys_base64 s ->
  buffer_kept p s (snd (decodeLoop env payloads response s)).
Proof.
  induction payloads as [|payload rest IH]; intros response s Hcache;
    [apply buffer_kept_frame; reflexivity|].
  cbn [decodeLoop]. unfold bind.
  pose proof (decodePayload_kept p payload response s Hcache) as H1.
  pose proof (decodePayload_keeps_invariant env payload response s Hcache) as H2.
  destruct (decodePayload env payload response s) as [[r1|e] s1];
    [|exact H1].
  exact (buffer_kept_trans p s s1 _ H1 (IH r1 s1 H2)).
Qed.

Lemma CleanupCache_kept p s :
  buffer_kept p s (snd (@CleanupCache env error s)).
Proof.
  intros Hlt [Hc Hk]. split; [|split; [split|]].
  - rewrite CleanupCache_sweep. cbn [snd heap]. rewrite length_sweep.
    exact Hlt.
  - intros key e. rewrite CleanupCache_lookup.
    destruct (decryptionCache (manager s) !! key) as [e'|] eqn:He';
      [|discriminate].
    destruct (expired _ e'); [discriminate|].
    intros [= <-]. apply (Hc key e' He').
  - exact Hk.
  - rewrite CleanupCache_sweep. cbn [snd heap]. apply sweep_keeps.
    intros key e He _. apply (Hc key e He).
Qed.

Lemma runs_to_reachable s s' :
  reachable env s -> runs_to env s s' -> reachable env s'.
Proof.
  intros Hreach. induction 1; [exact Hreach|..];
    [apply reachable_GetCurrentDataKey|apply reachable_rotateDataKey
    |apply reachable_DecryptDataKey|apply reachable_CleanupCache
    |apply reachable_handleEncode|apply reachable_handleDecode]; assumption.
Qed.

(** Whatever a running server does, a buffer that nothing refers to stays
    as it is, and nothing comes to refer to it. *)
Lemma runs_to_kept p s s' :
  reachable env s -> runs_to env s s' -> buffer_kept p s s'.
Proof.
  intros Hreach Hrun.
  induction Hrun as [|s' Hrun IH|s' Hrun IH|s' k arn Hrun IH|s' Hrun IH
                    |s' req Hrun IH|s' req Hrun IH].
  - apply buffer_kept_frame; reflexivity.
  - eapply buffer_kept_trans; [exact IH|apply GetCurrentDataKey_kept].
  - eapply buffer_kept_trans; [exact IH|apply rotateDataKeyLocked_kept].
  - eapply buffer_kept_trans; [exact IH|]. apply DecryptDataKey_kept.
    apply (reachable_cache_keys_base64 env), (runs_to_reachable s); assumption.
  - eapply buffer_kept_trans; [exact IH|apply CleanupCache_kept].
  - eapply buffer_kept_trans; [exact IH|].
    unfold handleEncode, bind.
    pose proof (encodeLoop_kept p (Payloads req) [] s') as H1.
    destruct (encodeLoop env (Payloads req) [] s') as [[out|e] s1]; exact H1.
  - eapply buffer_kept_trans; [exact IH|].
    unfold handleDecode, bind.
    assert (Hc : cache_keys_base64 s')
      by (apply (reachable_cache_keys_base64 env), (runs_to_reachable s);
          assumption).
    pose proof (decodeLoop_kept p (Payloads req) [] s' Hc) as H1.
    destruct (decodeLoop env (Payloads req) [] s') as [[out|e] s1]; exact H1.
Qed.

End UnreferencedBuffers.

(** * Decoding after the data key has changed *)

Section LaterDecoding.
Context (env : Env) {gcm : AEAD}.
Import Base64Facts.



(** X17: on a running server [CleanupCache] zeroes the buffer of every
    entry it removes and no other buffer: the plaintext of the current data
    key is as it was, and so is every buffer that is not the buffer of an
    entry whose expiry the clock has passed. *)
Theorem X17_CleanupCache_zeroes_only_removed_keys s :
  reachable env s ->
  let s' := snd (@CleanupCache env error s) in
  let now := env_now env (clock_reads s) in
  (forall key e,
      decryptionCache (manager s) !! key = Some e ->
      expired now e = true ->
      Forall (fun b => b = x00) (bytes_at (heap s') (Key e)))
  /\ (forall c,
        currentDataKey (manager s) = Some c ->
        currentDataKey (manager s') = Some c
        /\ bytes_at (heap s') (PlaintextKey c)
           = bytes_at (heap s) (PlaintextKey c))
  /\ (forall p,
        (forall key e,
            decryptionCache (manager s) !! key = Some e ->
            expired now e = true -> Key e <> p) ->
        bytes_at (heap s') p = bytes_at (heap s) p)
  /\ length (heap s') = length (heap s).
Proof.
  intros Hreach s' now. subst s'. rewrite CleanupCache_sweep.
  cbn [snd heap manager with_decryptionCache currentDataKey].
  split; [|split; [|split]].
  - intros key e He Hexp. eapply sweep_zeroes; eassumption.
  - intros c Hc. split; [exact Hc|].
    destruct (reachable_key_buffers_sound env s Hreach) as [_ HB].
    destruct (HB c Hc) as (_ & Hother & _).
    apply sweep_keeps. intros key e He _. apply (Hother key e He).
  - intros p Hp. apply sweep_keeps, Hp.
  - apply length_sweep.
Qed.

(** X18: a cache entry that is overwritten leaves its plaintext key in
    memory for good.  On a running server the second resolution of a blob
    that is not the current key's stores a new entry with a new buffer
    under the blob; the buffer of the first resolution still holds the
    plaintext key and nothing in the manager refers to it any more.  The
    code zeroes the buffer of a key only when it replaces the current key
    or sweeps a cache entry, so whatever the server does from then on, that
    buffer holds the key as before. *)
Theorem X18_overwritten_entry_is_never_zeroed s blob arn raw pt1 pt2 :
  reachable env s ->
  is_current s blob = false ->
  Base64.DecodeString blob = Some raw ->
  env_Decrypt env (length (kms_calls s)) raw arn = Some pt1 ->
  env_Decrypt env (S (length (kms_calls s))) raw arn = Some pt2 ->
  let s1 := snd (DecryptDataKey env blob arn s) in
  let s2 := snd (DecryptDataKey env blob arn s1) in
  let p := length (heap s) in
  bytes_at (heap s1) p = pt1
  /\ (exists e, decryptionCache (manager s1) !! blob = Some e /\ Key e = p)
  /\ bytes_at (heap s2) p = pt1
  /\ (forall key e, decryptionCache (manager s2) !! key = Some e -> Key e <> p)
  /\ (forall c, currentDataKey (manager s2) = Some c -> PlaintextKey c <> p)
  /\ forall s', runs_to env s2 s' -> bytes_at (heap s') p = pt1.
Proof.
  intros Hreach Hcur Hraw Hkms1 Hkms2 s1 s2 p.
  pose proof (reachable_cache_keys_base64 env s Hreach) as Hinv.
  destruct (reachable_key_buffers_sound env s Hreach) as [HA HB].
  assert (Hs1 : DecryptDataKey env blob arn s
                = (Ok p, after_kms_decrypt env s blob arn raw pt1)).
  { rewrite DecryptDataKey_slow_path
      by (try apply cache_lookup_misses; assumption).
    rewrite Hraw, Hkms1. reflexivity. }
  assert (Es1 : s1 = after_kms_decrypt env s blob arn raw pt1)
    by (subst s1; rewrite Hs1; reflexivity).
  assert (Hinv1 : cache_keys_base64 s1)
    by (apply DecryptDataKey_keeps_invariant, Hinv).
  assert (Hcur1 : is_current s1 blob = false) by (rewrite Es1; exact Hcur).
  assert (Hs2 : DecryptDataKey env blob arn s1
                = (Ok (S p), after_kms_decrypt env s1 blob arn raw pt2)).
  { rewrite DecryptDataKey_slow_path
      by (try apply cache_lookup_misses; assumption).
    rewrite Hraw. rewrite Es1 at 1. cbn [after_kms_decrypt kms_calls].
    rewrite length_app. cbn [length]. rewrite Nat.add_1_r, Hkms2.
    rewrite Es1 at 1. cbn [after_kms_decrypt heap]. rewrite length_app.
    cbn [length]. rewrite Nat.add_1_r. reflexivity. }
  assert (Es2 : s2 = after_kms_decrypt env s1 blob arn raw pt2)
    by (subst s2; rewrite Hs2; reflexivity).
  assert (Hheap2 : heap s2 = (heap s ++ [pt1]) ++ [pt2])
    by (rewrite Es2, Es1; reflexivity).
  assert (Hp2 : bytes_at (heap s2) p = pt1).
  { rewrite Hheap2. rewrite bytes_at_app_l
      by (rewrite length_app; cbn; subst p; lia).
    apply bytes_at_app_new. }
  assert (Hcache2 : forall key e,
            decryptionCache (manager s2) !! key = Some e -> Key e <> p).
  { intros key e. rewrite Es2. cbn [after_kms_decrypt manager
      with_decryptionCache decryptionCache].
    destruct (decide (blob = key)) as [<-|Hne].
    - rewrite lookup_insert_eq. intros [= <-]. cbn [cached_entry Key].
      rewrite Es1. cbn [after_kms_decrypt heap]. rewrite length_app.
      cbn [length]. subst p. lia.
    - rewrite lookup_insert_ne by exact Hne. rewrite Es1.
      cbn [after_kms_decrypt manager with_decryptionCache decryptionCache].
      rewrite lookup_insert_ne by exact Hne. intros He.
      specialize (HA key e He). subst p. lia. }
  split; [rewrite Es1; apply bytes_at_app_new|].
  split.
  { exists (cached_entry env s). rewrite Es1. split; [|reflexivity].
    cbn [after_kms_decrypt manager with_decryptionCache decryptionCache].
    apply lookup_insert_eq. }
  split; [exact Hp2|]. split; [exact Hcache2|]. split.
  - intros c. rewrite Es2, Es1. cbn. intros Hc.
    destruct (HB c Hc) as (Hlt & _). subst p. lia.
  - intros s' Hrun.
    assert (Hreach2 : reachable env s2)
      by (subst s2 s1; apply reachable_DecryptDataKey,
            reachable_DecryptDataKey, Hreach).
    destruct (runs_to_kept env p s2 s' Hreach2 Hrun) as (_ & _ & Hkept).
    + rewrite Hheap2, !length_app. cbn. subst p. lia.
    + split; [exact Hcache2|].
      intros c. rewrite Es2, Es1. cbn. intros Hc.
      destruct (HB c Hc) as (Hlt & _). subst p. lia.
    + rewrite Hkept. exact Hp2.
Qed.

End LaterDecoding.

(** * What the handlers leave alone *)

Section HandlerFrames.
Context (env : Env) {gcm : AEAD}.
Import Base64Facts.

Lemma encode_frame_refl n s : encode_frame n s s.
Proof.
  split; [reflexivity|]. split; [reflexivity|].
  exists []. rewrite app_nil_r. split; [reflexivity|].
  split; [constructor|cbn; lia].
Qed.

Lemma encode_frame_trans n m s s1 s2 :
  encode_frame n s s1 -> encode_frame m s1 s2 -> encode_frame (n + m) s s2.
Proof.
  intros (Hc1 & Hk1 & calls1 & E1 & F1 & L1) (Hc2 & Hk2 & calls2 & E2 & F2 & L2).
  split; [congruence|]. split; [congruence|].
  exists (calls1 ++ calls2). rewrite E2, E1, <- app_assoc.
  split; [reflexivity|]. split.
  - apply Forall_app. split; [exact F1|]. rewrite <- Hk1. exact F2.
  - rewrite length_app. lia.
Qed.

Lemma encode_frame_weaken n m s s' :
  (n <= m)%nat -> encode_frame n s s' -> encode_frame m s s'.
Proof.
  intros Hle (Hc & Hk & calls & E & F & L).
  split; [exact Hc|]. split; [exact Hk|]. exists calls. repeat split; auto. lia.
Qed.

(** A state that differs from [s] in its clock and random counters only. *)
Lemma encode_frame_tick n s s' :
  manager s' = manager s -> kms_calls s' = kms_calls s -> encode_frame n s s'.
Proof.
  intros Hm Hk. unfold encode_frame. rewrite Hm, Hk.
  split; [reflexivity|]. split; [reflexivity|].
  exists []. rewrite app_nil_r. split; [reflexivity|].
  split; [constructor|cbn; lia].
Qed.

Lemma rotateDataKeyLocked_frame s :
  encode_frame 1 s (snd (rotateDataKeyLocked env s)).
Proof.
  destruct (env_GenerateDataKey env (length (kms_calls s)) (keyID (manager s)))
    as [[pt blob]|] eqn:Hkms.
  - rewrite (rotateDataKeyLocked_succeeds env s pt blob Hkms).
    split; [reflexivity|]. split; [reflexivity|].
    eexists. split; [reflexivity|]. split; [|cbn; lia].
    repeat constructor. eexists. reflexivity.
  - rewrite (rotateDataKeyLocked_fails env s Hkms).
    split; [reflexivity|]. split; [reflexivity|].
    eexists. split; [reflexivity|]. split; [|cbn; lia].
    repeat constructor. eexists. reflexivity.
Qed.

Lemma GetCurrentDataKey_frame s :
  encode_frame 1 s (snd (GetCurrentDataKey env s)).
Proof.
  assert (Htick : forall n,
    encode_frame 1 s
      {| manager := manager s; heap := heap s; clock_reads := n;
         rand_reads := rand_reads s; kms_calls := kms_calls s |})
    by (intros n; apply encode_frame_tick; reflexivity).
  unfold GetCurrentDataKey, bind, get, needs_rotation.
  cbn -[rotateDataKeyLocked].
  destruct (currentDataKey (manager s)) as [c|] eqn:Hc.
  - unfold bind, Now, ret. cbn -[rotateDataKeyLocked].
    destruct (ExpiresAt c <? env_now env (clock_reads s))%Z; [|apply Htick].
    cbn -[rotateDataKeyLocked]. rewrite Hc. cbn -[rotateDataKeyLocked].
    destruct (ExpiresAt c <? env_now env (S (clock_reads s)))%Z;
      [|apply Htick].
    match goal with
    | |- context [rotateDataKeyLocked env ?x] =>
        pose proof (rotateDataKeyLocked_frame x) as Hrot;
        destruct (rotateDataKeyLocked env x) as [[u|e] s1]
    end; exact Hrot.
  - unfold ret. rewrite ?Hc.
    pose proof (rotateDataKeyLocked_frame s) as Hrot.
    destruct (rotateDataKeyLocked env s) as [[u|e] s1]; exact Hrot.
Qed.

Lemma encodePayload_frame payload response s :
  encode_frame (if is_candidate payload then 1 else 0) s
    (snd (encodePayload env payload response s)).
Proof.
  unfold encodePayload. fold (is_candidate payload).
  destruct (is_candidate payload); [|apply encode_frame_refl].
  unfold bind at 1. unfold wrap_err at 1.
  pose proof (GetCurrentDataKey_frame s) as Hget.
  destruct (GetCurrentDataKey env s) as [[[ck|]|e] s1]; try exact Hget.
  unfold bind, get, wrap_err, ret.
  match goal with
  | |- context [EncryptWithDataKey env ?d ?k s1] =>
      destruct (EncryptWithDataKey_frame env d k s1) as (Hm & Hh & Hk);
      destruct (EncryptWithDataKey env d k s1) as [[data|e] s2]
  end; cbn in *;
    exact (encode_frame_trans 1 0 s s1 _ Hget (encode_frame_tick 0 s1 _ Hm Hk)).
Qed.

Lemma encodeLoop_frame payloads : forall response s,
  encode_frame (length (List.filter is_candidate payloads)) s
    (snd (encodeLoop env payloads response s)).
Proof.
  induction payloads as [|payload rest IH]; intros response s;
    [apply encode_frame_refl|].
  cbn [encodeLoop List.filter]. unfold bind.
  pose proof (encodePayload_frame payload response s) as H1.
  destruct (encodePayload env payload response s) as [[r1|e] s1].
  - specialize (IH r1 s1). cbn [snd] in H1.
    pose proof (encode_frame_trans _ _ _ _ _ H1 IH) as H.
    destruct (is_candidate payload); exact H.
  - cbn [snd] in *. eapply encode_frame_weaken; [|exact H1].
    destruct (is_candidate payload); cbn; lia.
Qed.

(** X19: an encode request leaves the decryption cache and the master key
    identifier as they are, whatever its outcome, and the only calls of the
    KMS it makes are requests for a new data key under the master key, at
    most one per candidate payload: it never asks the KMS to decrypt. *)
Theorem X19_handleEncode_frame req s :
  encode_frame (length (List.filter is_candidate (Payloads req))) s
    (snd (handleEncode env req s)).
Proof.
  unfold handleEncode, bind.
  pose proof (encodeLoop_frame (Payloads req) [] s) as H.
  destruct (encodeLoop env (Payloads req) [] s) as [[out|e] s1]; exact H.
Qed.

Lemma decode_frame_refl n s : decode_frame n s s.
Proof.
  split; [reflexivity|]. split; [reflexivity|]. split; [reflexivity|].
  split; [exists []; rewrite app_nil_r; reflexivity|].
  exists []. rewrite app_nil_r. split; [reflexivity|].
  split; [constructor|cbn; lia].
Qed.

Lemma decode_frame_trans n m s s1 s2 :
  decode_frame n s s1 -> decode_frame m s1 s2 -> decode_frame (n + m) s s2.
Proof.
  intros (Hc1 & Hk1 & Hr1 & [new1 Hh1] & calls1 & E1 & F1 & L1)
         (Hc2 & Hk2 & Hr2 & [new2 Hh2] & calls2 & E2 & F2 & L2).
  split; [congruence|]. split; [congruence|]. split; [congruence|].
  split.
  - exists (new1 ++ new2). rewrite Hh2, Hh1, <- app_assoc. reflexivity.
  - exists (calls1 ++ calls2). rewrite E2, E1, <- app_assoc.
    split; [reflexivity|]. split.
    + apply Forall_app. split; assumption.
    + rewrite length_app. lia.
Qed.

Lemma DecryptDataKey_frame s encryptedKey masterKeyARN :
  decode_frame 1 s (snd (DecryptDataKey env encryptedKey masterKeyARN s)).
Proof.
  assert (Htick : forall n,
    decode_frame 1 s
      {| manager := manager s; heap := heap s; clock_reads := n;
         rand_reads := rand_reads s; kms_calls := kms_calls s |}).
  { intros n. split; [reflexivity|]. split; [reflexivity|].
    split; [reflexivity|].
    split; [exists []; cbn; rewrite app_nil_r; reflexivity|].
    exists []. cbn. rewrite app_nil_r. split; [reflexivity|].
    split; [constructor|lia]. }
  assert (Hkms : forall n,
    match Base64.DecodeString encryptedKey with
    | None => True
    | Some raw =>
        forall s0, s0 = {| manager := manager s; heap := heap s;
                           clock_reads := n; rand_reads := rand_reads s;
                           kms_calls := kms_calls s |} ->
        decode_frame 1 s
          (snd ((result <- client_Decrypt env raw masterKeyARN ;;
                 match result with
                 | None => fail ErrDecryptDataKey
                 | Some Plaintext =>
                     plaintext <- alloc Plaintext ;;
                     now <- Now env ;;
                     modify (fun s => let k := manager s in
                       with_manager
                         (with_decryptionCache
                            (<[encryptedKey :=
                                 {| Key := plaintext;
                                    CachedKey_ExpiresAt := (now + cacheTTL k)%Z |}]>
                               (decryptionCache k)) k) s) ;;;
                     ret plaintext
                 end)%M s0))
    end).
  { intros n. destruct (Base64.DecodeString encryptedKey) as [raw|]; [|exact I].
    intros s0 ->. unfold bind, client_Decrypt. cbn.
    destruct (env_Decrypt env _ raw masterKeyARN) as [pt|]; cbn.
    - split; [reflexivity|]. split; [reflexivity|]. split; [reflexivity|].
      split; [eexists; reflexivity|].
      eexists. split; [reflexivity|]. split; [|cbn; lia].
      repeat constructor. eexists _, _. reflexivity.
    - split; [reflexivity|]. split; [reflexivity|]. split; [reflexivity|].
      split; [exists []; rewrite app_nil_r; reflexivity|].
      eexists. split; [reflexivity|]. split; [|cbn; lia].
      repeat constructor. eexists _, _. reflexivity. }
  unfold DecryptDataKey. unfold bind at 1. unfold get at 1.
  destruct (match currentDataKey (manager s) with
            | Some c => if String.eqb (EncryptedKey c) encryptedKey
                        then Some (PlaintextKey c) else None
            | None => None
            end) as [key|]; [apply decode_frame_refl|].
  unfold bind at 1.
  destruct (decryptionCache (manager s) !! cacheKey encryptedKey masterKeyARN)
    as [cached|].
  - unfold bind at 1. unfold Now at 1. unfold ret at 1.
    destruct (env_now env (clock_reads s) <? CachedKey_ExpiresAt cached)%Z.
    + apply Htick.
    + specialize (Hkms (S (clock_reads s))).
      destruct (Base64.DecodeString encryptedKey) as [raw|]; [|apply Htick].
      apply Hkms. reflexivity.
  - unfold ret at 1. specialize (Hkms (clock_reads s)).
    destruct (Base64.DecodeString encryptedKey) as [raw|];
      [|apply decode_frame_refl].
    apply Hkms. destruct s; reflexivity.
Qed.

Lemma decodePayload_frame payload response s :
  decode_frame (if is_encrypted payload then 1 else 0) s
    (snd (decodePayload env payload response s)).
Proof.
  unfold decodePayload. fold (is_encrypted payload).
  destruct (is_encrypted payload); cbn [negb]; [|apply decode_frame_refl].
  destruct (String.eqb (EncryptedDataKey payload) "");
    [apply decode_frame_refl|].
  unfold bind, wrap_err, get.
  pose proof (DecryptDataKey_frame s (EncryptedDataKey payload)
                (KMSKeyID payload)) as H1.
  destruct (DecryptDataKey env _ _ s) as [[dataKey|e] s1]; [|exact H1].
  destruct (DecryptWithDataKey _ _); exact H1.
Qed.

Lemma decodeLoop_frame payloads : forall response s,
  decode_frame (length (List.filter is_encrypted payloads)) s
    (snd (decodeLoop env payloads response s)).
Proof.
  induction payloads as [|payload rest IH]; intros response s;
    [apply decode_frame_refl|].
  cbn [decodeLoop List.filter]. unfold bind.
  pose proof (decodePayload_frame payload response s) as H1.
  destruct (decodePayload env payload response s) as [[r1|e] s1].
  - specialize (IH r1 s1). cbn [snd] in H1.
    pose proof (decode_frame_trans _ _ _ _ _ H1 IH) as H.
    destruct (is_encrypted payload); exact H.
  - cbn [snd] in *.
    destruct H1 as (Hc & Hk & Hr & Hh & calls & E & F & L).
    split; [exact Hc|]. split; [exact Hk|]. split; [exact Hr|].
    split; [exact Hh|]. exists calls. split; [exact E|]. split; [exact F|].
    destruct (is_encrypted payload); cbn; lia.
Qed.

(** X20: a decode request leaves the current data key and the master key
    identifier as they are, whatever its outcome; it draws no random bytes
    and changes no buffer that exists, and the only calls of the KMS it
    makes are decryptions of a wrapped key, at most one per payload marked
    as encrypted: it never rotates the data key. *)
Theorem X20_handleDecode_frame req s :
  decode_frame (length (List.filter is_encrypted (Payloads req))) s
    (snd (handleDecode env req s)).
Proof.
  unfold handleDecode, bind.
  pose proof (decodeLoop_frame (Payloads req) [] s) as H.
  destruct (decodeLoop env (Payloads req) [] s) as [[out|e] s1]; exact H.
Qed.

End HandlerFrames.

(** * The statistics of the manager *)

Section StatsFacts.
Context (env : Env).

(** X21: what [GetKeyStats] reports.  It changes nothing but the clock,
    and always reports the number of entries of the decryption cache,
    expired ones included.  Without a current key that is the whole map;
    with one, the map has three more entries, each from a clock reading of
    its own.  For a clock that never runs backwards the three agree as far
    as this: a key reported as not expired has a remaining time that is
    not negative, a negative remaining time comes with a key reported as
    expired, and age and remaining time add up to at most the life span of
    the key. *)
Theorem X21_GetKeyStats_reading s :
  (forall n m, (n <= m)%nat -> (env_now env n <= env_now env m)%Z) ->
  match currentDataKey (manager s) with
  | None =>
      @GetKeyStats env error s
      = (Ok {[ "cached_keys_count" :=
                 StatCount (size (decryptionCache (manager s))) ]}, s)
  | Some c =>
      exists stats age left flag,
        @GetKeyStats env error s
        = (Ok stats,
           {| manager := manager s; heap := heap s;
              clock_reads := 3 + clock_reads s;
              rand_reads := rand_reads s; kms_calls := kms_calls s |})
        /\ stats !! "cached_keys_count"
           = Some (StatCount (size (decryptionCache (manager s))))
        /\ stats !! "current_key_age" = Some (StatDuration age)
        /\ stats !! "current_key_expires_in" = Some (StatDuration left)
        /\ stats !! "current_key_expired" = Some (StatFlag flag)
        /\ size stats = 4%nat
        /\ (flag = false -> (0 <= left)%Z)
        /\ ((left < 0)%Z -> flag = true)
        /\ (age + left <= ExpiresAt c - GeneratedAt c)%Z
  end.
Proof.
  intros Hmono. unfold GetKeyStats, bind, get.
  destruct (currentDataKey (manager s)) as [c|] eqn:Hc; rewrite ?Hc;
    [|reflexivity].
  unfold bind, Now, ret. cbn [manager heap clock_reads rand_reads kms_calls].
  pose proof (Hmono (clock_reads s) (S (clock_reads s)) ltac:(lia)) as H12.
  pose proof (Hmono (S (clock_reads s)) (S (S (clock_reads s))) ltac:(lia))
    as H23.
  eexists _, _, _, _. split; [reflexivity|].
  split.
  { rewrite !lookup_insert_ne by discriminate. apply lookup_singleton_eq. }
  split.
  { rewrite !lookup_insert_ne by discriminate. apply lookup_insert_eq. }
  split.
  { rewrite lookup_insert_ne by discriminate. apply lookup_insert_eq. }
  split; [apply lookup_insert_eq|].
  split.
  { rewrite !map_size_insert_None, map_size_singleton; [reflexivity|..].
    - apply lookup_singleton_ne. discriminate.
    - rewrite lookup_insert_ne by discriminate.
      apply lookup_singleton_ne. discriminate.
    - rewrite !lookup_insert_ne by discriminate.
      apply lookup_singleton_ne. discriminate. }
  split; [|split].
  - intros Hflag. apply Z.ltb_ge in Hflag. lia.
  - intros Hleft. apply Z.ltb_lt. lia.
  - lia.
Qed.

End StatsFacts.

(** * The errors of the handlers *)

Section HandlerErrors.
Context (env : Env) {gcm : AEAD}.
Import Base64Facts.

Lemma EncryptWithDataKey_Err (data key : list byte) s e :
  fst (EncryptWithDataKey env data key s) = Err e ->
  e = ErrInvalidKeyLength \/ e = ErrRandom.
Proof.
  destruct (Nat.eq_dec (length key) 32) as [H|H].
  - rewrite (EncryptWithDataKey_32 env data key s H).
    destruct (ReadFull _ _); [discriminate|]. intros [= <-]. auto.
  - unfold EncryptWithDataKey. rewrite (proj2 (key_length_test key) H).
    intros [= <-]. auto.
Qed.

Lemma DecryptWithDataKey_Err encodedData (key : list byte) e :
  DecryptWithDataKey encodedData key = Err e ->
  e = ErrInvalidKeyLength \/ e = ErrBase64Decode
  \/ e = ErrCiphertextTooShort \/ e = ErrAuthentication.
Proof.
  destruct (Nat.eq_dec (length key) 32) as [H|H].
  - rewrite (DecryptWithDataKey_32 _ key H).
    repeat break_match; intros [= <-]; auto.
  - unfold DecryptWithDataKey. rewrite (proj2 (key_length_test key) H).
    intros [= <-]. auto.
Qed.

Lemma rotateDataKeyLocked_Err s e :
  fst (rotateDataKeyLocked env s) = Err e -> e = ErrGenerateDataKey.
Proof.
  destruct (env_GenerateDataKey env (length (kms_calls s)) (keyID (manager s)))
    as [[pt blob]|] eqn:Hkms.
  - rewrite (rotateDataKeyLocked_succeeds env s pt blob Hkms). discriminate.
  - rewrite (rotateDataKeyLocked_fails env s Hkms). intros [= <-]. reflexivity.
Qed.

Lemma GetCurrentDataKey_Err s e :
  fst (GetCurrentDataKey env s) = Err e -> e = ErrGenerateDataKey.
Proof.
  unfold GetCurrentDataKey, bind, get, needs_rotation.
  cbn -[rotateDataKeyLocked].
  destruct (currentDataKey (manager s)) as [c|] eqn:Hc.
  - unfold bind, Now, ret. cbn -[rotateDataKeyLocked].
    destruct (ExpiresAt c <? env_now env (clock_reads s))%Z; [|discriminate].
    cbn -[rotateDataKeyLocked]. rewrite Hc. cbn -[rotateDataKeyLocked].
    destruct (ExpiresAt c <? env_now env (S (clock_reads s)))%Z;
      [|discriminate].
    match goal with
    | |- context [rotateDataKeyLocked env ?x] =>
        pose proof (rotateDataKeyLocked_Err x e) as Hrot;
        destruct (rotateDataKeyLocked env x) as [[u|e'] s1]
    end; [discriminate|intros [= <-]; apply Hrot; reflexivity].
  - unfold ret. rewrite ?Hc.
    pose proof (rotateDataKeyLocked_Err s e) as Hrot.
    destruct (rotateDataKeyLocked env s) as [[u|e'] s1];
      [discriminate|intros [= <-]; apply Hrot; reflexivity].
Qed.

Lemma DecryptDataKey_Err s encryptedKey masterKeyARN e :
  fst (DecryptDataKey env encryptedKey masterKeyARN s) = Err e ->
  e = ErrDecodeEncryptedKey \/ e = ErrDecryptDataKey.
Proof.
  assert (Hkms : forall s0,
    match Base64.DecodeString encryptedKey with
    | None => True
    | Some raw =>
        fst ((result <- client_Decrypt env raw masterKeyARN ;;
              match result with
              | None => fail ErrDecryptDataKey
              | Some Plaintext =>
                  plaintext <- alloc Plaintext ;;
                  now <- Now env ;;
                  modify (fun s => let k := manager s in
                    with_manager
                      (with_decryptionCache
                         (<[encryptedKey :=
                              {| Key := plaintext;
                                 CachedKey_ExpiresAt := (now + cacheTTL k)%Z |}]>
                            (decryptionCache k)) k) s) ;;;
                  ret plaintext
              end)%M s0) = Err e ->
        e = ErrDecryptDataKey
    end).
  { intros s0. destruct (Base64.DecodeString encryptedKey) as [raw|]; [|exact I].
    unfold bind, client_Decrypt. cbn.
    destruct (env_Decrypt env _ raw masterKeyARN) as [pt|]; cbn;
      [discriminate|]. intros [= <-]. reflexivity. }
  unfold DecryptDataKey. unfold bind at 1. unfold get at 1.
  destruct (match currentDataKey (manager s) with
            | Some c => if String.eqb (EncryptedKey c) encryptedKey
                        then Some (PlaintextKey c) else None
            | None => None
            end) as [key|]; [discriminate|].
  unfold bind at 1.
  destruct (decryptionCache (manager s) !! cacheKey encryptedKey masterKeyARN)
    as [cached|].
  - unfold bind at 1. unfold Now at 1. unfold ret at 1.
    destruct (env_now env (clock_reads s) <? CachedKey_ExpiresAt cached)%Z;
      [discriminate|].
    match goal with
    | |- fst (match _ with _ => _ end ?x) = _ -> _ => specialize (Hkms x)
    end.
    destruct (Base64.DecodeString encryptedKey) as [raw|].
    + intros H. right. apply Hkms, H.
    + intros [= <-]. left. reflexivity.
  - unfold ret at 1. specialize (Hkms s).
    destruct (Base64.DecodeString encryptedKey) as [raw|].
    + intros H. right. apply Hkms, H.
    + intros [= <-]. left. reflexivity.
Qed.

Lemma encodePayload_Err payload response s e :
  fst (encodePayload env payload response s) = Err e -> encode_error e.
Proof.
  unfold encodePayload, encode_error.
  destruct (match Metadata payload !! "encoding" with
            | Some e => String.eqb e "json/plain"
            | None => true
            end); [|discriminate].
  unfold bind at 1. unfold wrap_err at 1.
  pose proof (GetCurrentDataKey_Err s) as Herr.
  destruct (GetCurrentDataKey env s) as [[r|e0] s1] eqn:Hget.
  - destruct (GetCurrentDataKey_Ok env s r s1 Hget) as (_ & [ck ->] & _).
    unfold bind, get, wrap_err, ret.
    match goal with
    | |- context [EncryptWithDataKey env ?d ?k s1] =>
        pose proof (EncryptWithDataKey_Err d k s1) as Henc;
        destruct (EncryptWithDataKey env d k s1) as [[data|e1] s2]
    end; [discriminate|].
    intros [= <-]. destruct (Henc e1 eq_refl) as [->| ->]; auto.
  - intros [= <-]. rewrite (Herr e0 eq_refl). auto.
Qed.

Lemma encodeLoop_Err payloads : forall response s e,
  fst (encodeLoop env payloads response s) = Err e -> encode_error e.
Proof.
  induction payloads as [|payload rest IH]; intros response s e;
    [discriminate|].
  cbn [encodeLoop]. unfold bind.
  pose proof (encodePayload_Err payload response s) as H1.
  destruct (encodePayload env payload response s) as [[r1|e1] s1].
  - apply IH.
  - intros [= <-]. apply H1. reflexivity.
Qed.

Lemma decodePayload_Err payload response s e :
  fst (decodePayload env payload response s) = Err e -> decode_error e.
Proof.
  unfold decodePayload, decode_error.
  destruct (negb _); [discriminate|].
  destruct (String.eqb (EncryptedDataKey payload) "");
    [intros [= <-]; auto|].
  unfold bind, wrap_err, get.
  pose proof (DecryptDataKey_Err s (EncryptedDataKey payload)
                (KMSKeyID payload)) as H1.
  destruct (DecryptDataKey env _ _ s) as [[dataKey|e1] s1].
  - match goal with
    | |- context [DecryptWithDataKey ?d ?k] =>
        pose proof (DecryptWithDataKey_Err d k) as H2;
        destruct (DecryptWithDataKey d k) as [p|e2]
    end; [discriminate|].
    intros [= <-].
    destruct (H2 e2 eq_refl) as [->|[->|[->| ->]]]; auto 10.
  - intros [= <-]. destruct (H1 e1 eq_refl) as [->| ->]; auto.
Qed.

Lemma decodeLoop_Err payloads : forall response s e,
  fst (decodeLoop env payloads response s) = Err e -> decode_error e.
Proof.
  induction payloads as [|payload rest IH]; intros response s e;
    [discriminate|].
  cbn [decodeLoop]. unfold bind.
  pose proof (decodePayload_Err payload response s) as H1.
  destruct (decodePayload env payload response s) as [[r1|e1] s1].
  - apply IH.
  - intros [= <-]. apply H1. reflexivity.
Qed.

(** X22: the errors of the two handlers of the KMS codec.  An encode
    request fails only because the KMS did not generate a data key, because
    the data key is not 32 bytes long or for want of random bytes; a decode
    request only because a wrapped data key is missing, is not base64 or
    is refused by the KMS, or because the data does not decrypt.  Neither
    handler dereferences a nil data key, and the errors of [aes.NewCipher]
    and [cipher.NewGCM] are never met: the length check in front of them
    leaves them no key to refuse. *)
Theorem X22_handler_errors req s e :
  (fst (handleEncode env req s) = Err e -> encode_error e)
  /\ (fst (handleDecode env req s) = Err e -> decode_error e).
Proof.
  split.
  - unfold handleEncode, bind.
    pose proof (encodeLoop_Err (Payloads req) [] s e) as H.
    destruct (encodeLoop env (Payloads req) [] s) as [[out|e1] s1];
      [discriminate|intros [= <-]; apply H; reflexivity].
  - unfold handleDecode, bind.
    pose proof (decodeLoop_Err (Payloads req) [] s e) as H.
    destruct (decodeLoop env (Payloads req) [] s) as [[out|e1] s1];
      [discriminate|intros [= <-]; apply H; reflexivity].
Qed.

End HandlerErrors.

(** * Worked examples

    A small world to run the model in: a stand-in for AES-GCM, a clock that
    advances by 100ns per reading, a random source, and a KMS. *)

#[local] Instance byte_eq_dec : EqDecision byte := Byte.byte_eq_dec.

(** A stand-in AEAD that meets the contract of [AEAD]: the ciphertext is
    the plaintext followed by a 16-byte tag made of key, nonce and
    additional data. *)
Definition tag_of (key nonce ad : list byte) : list byte :=
  take 16 (key ++ nonce ++ ad ++ replicate 16 x00).

Definition tagged_Seal (key nonce plaintext ad : list byte) : list byte :=
  plaintext ++ tag_of key nonce ad.

Definition tagged_Open (key nonce ciphertext ad : list byte)
  : option (list byte) :=
  let n := (length ciphertext - 16)%nat in
  if (length ciphertext <? 16)%nat then None
  else if bool_decide (drop n ciphertext = tag_of key nonce ad)
       then Some (take n ciphertext)
       else None.

Lemma tag_of_length key nonce ad : length (tag_of key nonce ad) = 16%nat.
Proof.
  unfold tag_of. rewrite length_take, !length_app, length_replicate. lia.
Qed.

Lemma tagged_Open_Seal key nonce plaintext ad :
  length nonce = 12%nat ->
  tagged_Open key nonce (tagged_Seal key nonce plaintext ad) ad = Some plaintext.
Proof.
  intros _. unfold tagged_Open, tagged_Seal.
  rewrite length_app, tag_of_length.
  destruct (Nat.ltb_spec (length plaintext + 16) 16) as [H|_]; [lia|].
  replace (length plaintext + 16 - 16)%nat with (length plaintext) by lia.
  rewrite drop_app_length, take_app_length.
  rewrite bool_decide_eq_true_2 by reflexivity. reflexivity.
Qed.

#[local] Instance tagged_aead : AEAD :=
  {| NonceSize := 12; Overhead := 16;
     Seal := tagged_Seal; Open := tagged_Open;
     Open_Seal := tagged_Open_Seal |}.

Definition ex_plaintext_key (n : nat) : list byte :=
  replicate 32 (Base64.byte_of_uint (N.of_nat (65 + n))).

(** The wrapped key of the [n]-th KMS call: [n + 1] bytes. *)
Definition ex_blob (n : nat) : list byte := replicate (S n) x01.

Definition ex_now (n : nat) : Z := (100 * Z.of_nat n)%Z.

(** The plaintext key that [blob] wraps. *)
Definition ex_unwrap (blob : list byte) : option (list byte) :=
  match blob with
  | _ :: rest => Some (ex_plaintext_key (length rest))
  | [] => None
  end.

(** A KMS that answers every request. *)
Definition world : Env :=
  {| env_now := ex_now;
     env_rand := fun _ k => Some (replicate k x2a);
     env_GenerateDataKey := fun n _ => Some (ex_plaintext_key n, ex_blob n);
     env_Decrypt := fun _ blob _ => ex_unwrap blob |}.

(** A KMS that is down. *)
Definition world_kms_down : Env :=
  {| env_now := ex_now;
     env_rand := fun _ k => Some (replicate k x2a);
     env_GenerateDataKey := fun _ _ => None;
     env_Decrypt := fun _ _ _ => None |}.

(** A KMS that goes down after its second call. *)
Definition world_kms_flaky : Env :=
  {| env_now := ex_now;
     env_rand := fun _ k => Some (replicate k x2a);
     env_GenerateDataKey := fun n _ =>
       if (n <? 2)%nat then Some (ex_plaintext_key n, ex_blob n) else None;
     env_Decrypt := fun n blob _ =>
       if (n <? 2)%nat then ex_unwrap blob else None |}.

Definition ex_arn : string := "arn:aws:kms:eu-west-1:111122223333:key/k1".

Definition blank : State :=
  {| manager := {| keyID := ""; currentDataKey := None; decryptionCache := ∅;
                   cacheTTL := 0; keyRotationInterval := 0 |};
     heap := []; clock_reads := 0; rand_reads := 0; kms_calls := [] |}.

(** The server after start-up: a 24h cache TTL and hourly rotation. *)
Definition started : State :=
  snd (NewKMSManager world ex_arn 86400000000000 3600000000000 blank).

(** The same with a cache TTL of 50ns. *)
Definition started_short_ttl : State :=
  snd (NewKMSManager world_kms_flaky ex_arn 50 3600000000000 blank).

Lemma world_never_repeats : kms_never_repeats world.
Proof.
  intros n m KeyId KeyId' p p' blob blob' [= _ <-] [= _ <-] Hne Heq.
  apply Hne. apply (f_equal length) in Heq. unfold ex_blob in Heq.
  rewrite !length_replicate in Heq. lia.
Qed.

Lemma world_blobs_nonempty : kms_blobs_nonempty world.
Proof. intros blob (n & KeyId & Plaintext & [= _ <-]). discriminate. Qed.

Example started_state :
  started =
  {| manager :=
       {| keyID := ex_arn;
          currentDataKey :=
            Some {| PlaintextKey := 0; EncryptedKey := "AQ==";
                    GeneratedAt := 100; ExpiresAt := 3600000000100 |};
          decryptionCache := ∅;
          cacheTTL := 86400000000000;
          keyRotationInterval := 3600000000000 |};
     heap := [ex_plaintext_key 0];
     clock_reads := 2; rand_reads := 0;
     kms_calls := [CallGenerateDataKey ex_arn 0] |}.
Proof. reflexivity. Qed.

Definition ex_payload_bytes : list byte :=
  list_byte_of_string "{id:123}".

(** C1 at a concrete key and plaintext. *)
Lemma C1_round_trip_witness :
  exists c,
    fst (EncryptWithDataKey world ex_payload_bytes (ex_plaintext_key 0) started)
      = Ok c
    /\ DecryptWithDataKey c (ex_plaintext_key 0) = Ok ex_payload_bytes.
Proof.
  apply (C1_encrypt_decrypt_round_trip world ex_payload_bytes
           (ex_plaintext_key 0) started (replicate 12 x2a)); reflexivity.
Defined.

(** C8 at a 16-byte key, which both helpers refuse. *)
Lemma C8_invalid_key_length_witness :
  fst (EncryptWithDataKey world ex_payload_bytes (replicate 16 x2a) started)
    = Err ErrInvalidKeyLength
  /\ DecryptWithDataKey "AAEC" (replicate 16 x2a) = Err ErrInvalidKeyLength.
Proof.
  split.
  - apply (proj1 (C8_invalid_key_length_iff world)). vm_compute. lia.
  - apply (proj2 (C8_invalid_key_length_iff world)). vm_compute. lia.
Defined.

(** A manager whose key expired at 50ns, read at 100ns, with the KMS down. *)
Definition expired_state : State :=
  {| manager :=
       {| keyID := ex_arn;
          currentDataKey :=
            Some {| PlaintextKey := 0; EncryptedKey := "AAEC";
                    GeneratedAt := 0; ExpiresAt := 50 |};
          decryptionCache := ∅;
          cacheTTL := 86400000000000;
          keyRotationInterval := 50 |};
     heap := [ex_plaintext_key 0];
     clock_reads := 1; rand_reads := 0;
     kms_calls := [CallGenerateDataKey ex_arn 0] |}.

Lemma C5_failed_rotation_witness :
  fst (GetCurrentDataKey world_kms_down expired_state) = Err ErrGenerateDataKey
  /\ manager (snd (GetCurrentDataKey world_kms_down expired_state))
     = manager expired_state
  /\ heap (snd (GetCurrentDataKey world_kms_down expired_state))
     = heap expired_state
  /\ currentDataKey (manager (snd (GetCurrentDataKey world_kms_down expired_state)))
     = currentDataKey (manager expired_state)
  /\ bytes_at (heap (snd (GetCurrentDataKey world_kms_down expired_state))) 0
     = ex_plaintext_key 0.
Proof.
  apply (C5_failed_rotation_keeps_current_key world_kms_down expired_state
           {| PlaintextKey := 0; EncryptedKey := "AAEC";
              GeneratedAt := 0; ExpiresAt := 50 |});
    reflexivity.
Defined.

Lemma C6_rotation_witness :
  fst (rotateDataKey world started) = Ok tt
  /\ fst (GetCurrentDataKey world (snd (rotateDataKey world started)))
     = Ok (Some (rotated_key world started (ex_blob 1)))
  /\ EncryptedKey (rotated_key world started (ex_blob 1)) <> "AQ=="
  /\ ExpiresAt (rotated_key world started (ex_blob 1))
     = (GeneratedAt (rotated_key world started (ex_blob 1)) + 3600000000000)%Z
  /\ bytes_at (heap (snd (rotateDataKey world started))) 0
     = replicate 32 x00
  /\ bytes_at (heap (snd (rotateDataKey world started))) 1
     = ex_plaintext_key 1.
Proof.
  apply (C6_rotation_replaces_and_zeroes world started
           {| PlaintextKey := 0; EncryptedKey := "AQ==";
              GeneratedAt := 100; ExpiresAt := 3600000000100 |}
           (ex_plaintext_key 1) (ex_blob 1)).
  - apply reachable_new.
  - apply world_never_repeats.
  - reflexivity.
  - reflexivity.
  - vm_compute. discriminate.
Defined.

(** The bytes [ABC], whose base64 form is [QUJD]. *)
Definition ex_raw : list byte := list_byte_of_string "ABC".

(** C2 on the started server: the blob [QUJD] is resolved twice in a row,
    and both calls reach the KMS although the first one cached its result
    for 24 hours. *)
Lemma C2_second_call_reaches_kms_witness :
  fst (DecryptDataKey world "QUJD" ex_arn started) = Ok 1%nat
  /\ decryptionCache
       (manager (snd (DecryptDataKey world "QUJD" ex_arn started))) !! "QUJD"
     = Some {| Key := 1; CachedKey_ExpiresAt := 86400000000200 |}
  /\ kms_calls (snd (DecryptDataKey world "QUJD" ex_arn started))
     = [CallGenerateDataKey ex_arn 0; CallDecrypt ex_raw ex_arn]
  /\ kms_calls
       (snd (DecryptDataKey world "QUJD" ex_arn
               (snd (DecryptDataKey world "QUJD" ex_arn started))))
     = [CallGenerateDataKey ex_arn 0; CallDecrypt ex_raw ex_arn]
         ++ [CallDecrypt ex_raw ex_arn].
Proof.
  apply (C2_resolved_blob_is_decrypted_again world started "QUJD" ex_arn
           ex_raw (ex_plaintext_key 2)).
  - apply reachable_new.
  - reflexivity.
  - reflexivity.
  - reflexivity.
Defined.

(** A payload that is already encrypted. *)
Definition ex_encrypted_payload : PayloadData :=
  {| Metadata := {[ "encoding" := "binary/encrypted" ]};
     Data := "AAEC"; KMSKeyID := ex_arn; EncryptedDataKey := "QUJD";
     Algorithm := "AES-256-GCM" |}.

(** C3 on the started server: encoding a batch that holds one payload
    that is already encrypted answers an empty batch. *)
Lemma C3_encrypted_payload_dropped_witness :
  encodePayload world ex_encrypted_payload [] started = (Ok [], started)
  /\ handleEncode world {| Payloads := [ex_encrypted_payload] |} started
     = (Ok {| Response_Payloads := [] |}, started)
  /\ forall req resp s',
       handleEncode world req started = (Ok resp, s') ->
       length (Response_Payloads resp)
       = length (List.filter is_candidate (Payloads req)).
Proof.
  apply (C3_other_encodings_are_dropped world ex_encrypted_payload
           "binary/encrypted" [] started).
  - reflexivity.
  - discriminate.
Defined.

(** An encrypted payload without its wrapped data key. *)
Definition ex_no_key_payload : PayloadData :=
  {| Metadata := {[ "encoding" := "binary/encrypted" ]};
     Data := "AAEC"; KMSKeyID := ""; EncryptedDataKey := "";
     Algorithm := "" |}.

(** A payload that was never encrypted. *)
Definition ex_plain_payload : PayloadData :=
  {| Metadata := {[ "encoding" := "json/plain" ]};
     Data := "eyJpZCI6MTIzfQ=="; KMSKeyID := ""; EncryptedDataKey := "";
     Algorithm := "" |}.

(** What the started server answers when it encodes the plain payload. *)
Definition ex_encoded_batch : list PayloadData :=
  match fst (handleEncode world {| Payloads := [ex_plain_payload] |} started)
  with
  | Ok r => Response_Payloads r
  | Err _ => []
  end.

(** The server after that request and a rotation of its data key. *)
Definition after_rotation : State :=
  snd (rotateDataKey world
         (snd (handleEncode world {| Payloads := [ex_plain_payload] |} started))).

(** With the KMS at hand, the rotated server decodes the batch: the old
    data key is fetched from the KMS. *)
Example ex_encoded_batch_decodes :
  length ex_encoded_batch = 1%nat
  /\ fst (handleDecode world {| Payloads := ex_encoded_batch |} after_rotation)
     = Ok {| Response_Payloads := [ex_plain_payload] |}.
Proof. split; reflexivity. Qed.

(** C4 as stated does not hold.  The batch is the payload the server
    itself produced before its key was rotated, followed by a payload
    without key material; the KMS is down, so the first payload fails on the
    resolution of its data key and the request is answered with that key
    decryption error, not with the missing-key error. *)
Lemma C4_earlier_failure_is_reported :
  ~ (forall (env : Env) (gcm : AEAD) req s,
       Exists missing_key_material (Payloads req) ->
       fst (handleDecode env req s) = Err MissingEncryptedDataKey).
Proof.
  intros H.
  specialize (H world_kms_down tagged_aead
                {| Payloads := ex_encoded_batch ++ [ex_no_key_payload] |}
                after_rotation).
  assert (Hex : Exists missing_key_material
                  (ex_encoded_batch ++ [ex_no_key_payload])).
  { apply Exists_app. right. left. split; reflexivity. }
  specialize (H Hex). vm_compute in H. discriminate H.
Qed.

Example C4_reported_error :
  fst (handleDecode world_kms_down
         {| Payloads := ex_encoded_batch ++ [ex_no_key_payload] |}
         after_rotation)
  = Err (KeyDecryptionFailed ErrDecryptDataKey).
Proof. reflexivity. Qed.

(** C4 on the started server: a plain payload followed by an encrypted
    payload without key material; the request fails with the missing-key
    error and nothing is returned. *)
Lemma C4_missing_key_material_witness :
  (exists e,
      fst (handleDecode world
             {| Payloads := [ex_plain_payload; ex_no_key_payload] |} started)
      = Err e)
  /\ handleDecode world
       {| Payloads := [ex_plain_payload; ex_no_key_payload] |} started
     = (Err MissingEncryptedDataKey, started).
Proof.
  pose proof (C4_missing_key_material_fails_the_batch world
                {| Payloads := [ex_plain_payload; ex_no_key_payload] |}
                started) as H.
  destruct H as (Hfail & Hmissing & _).
  - right. left. split; reflexivity.
  - split; [exact Hfail|].
    apply (Hmissing [ex_plain_payload] ex_no_key_payload [] [ex_plain_payload]).
    + reflexivity.
    + split; reflexivity.
    + reflexivity.
Defined.

(** The short-TTL server after it resolved [QUJD] once: the entry expires
    at 250ns and the next clock reading is 300ns. *)
Definition after_first_lookup : State :=
  snd (DecryptDataKey world_kms_flaky "QUJD" ex_arn started_short_ttl).

Example after_first_lookup_cache :
  decryptionCache (manager after_first_lookup)
    = {[ "QUJD" := {| Key := 1; CachedKey_ExpiresAt := 250 |} ]}
  /\ env_now world_kms_flaky (clock_reads after_first_lookup) = 300%Z.
Proof. split; reflexivity. Qed.

(** C7 as stated does not hold: a call that meets an expired entry does
    not remove it.  Here the KMS is down when the entry is looked up again,
    the call fails, and the expired entry is still in the cache. *)
Lemma C7_expired_entry_survives_the_read :
  ~ (forall (env : Env) s blob arn c,
       decryptionCache (manager s) !! blob = Some c ->
       (CachedKey_ExpiresAt c < env_now env (clock_reads s))%Z ->
       decryptionCache (manager (snd (DecryptDataKey env blob arn s))) !! blob
       = None).
Proof.
  intros H.
  specialize (H world_kms_flaky after_first_lookup "QUJD" ex_arn
                {| Key := 1; CachedKey_ExpiresAt := 250 |}
                eq_refl eq_refl).
  vm_compute in H. discriminate H.
Qed.

Lemma C7_expired_entry_witness :
  kms_calls (snd (DecryptDataKey world_kms_flaky "QUJD" ex_arn after_first_lookup))
    = kms_calls after_first_lookup ++ [CallDecrypt ex_raw ex_arn]
  /\ fst (DecryptDataKey world_kms_flaky "QUJD" ex_arn after_first_lookup)
     = Err ErrDecryptDataKey
  /\ decryptionCache
       (manager (snd (DecryptDataKey world_kms_flaky "QUJD" ex_arn
                        after_first_lookup))) !! "QUJD"
     = Some {| Key := 1; CachedKey_ExpiresAt := 250 |}
  /\ decryptionCache
       (manager (snd (@CleanupCache world_kms_flaky error after_first_lookup)))
       !! "QUJD" = None
  /\ Forall (fun b => b = x00)
       (bytes_at (heap (snd (@CleanupCache world_kms_flaky error
                               after_first_lookup))) 1).
Proof.
  destruct (C7_expired_entry_bypassed_not_removed world_kms_flaky
              after_first_lookup "QUJD" ex_arn ex_raw
              {| Key := 1; CachedKey_ExpiresAt := 250 |})
    as (Hcalls & Hkms & _ & Hcleanup & Hzero).
  - apply reachable_DecryptDataKey, reachable_new.
  - reflexivity.
  - reflexivity.
  - reflexivity.
  - reflexivity.
  - split; [exact Hcalls|].
    change (env_Decrypt world_kms_flaky (length (kms_calls after_first_lookup))
              ex_raw ex_arn) with (@None (list byte)) in Hkms.
    destruct Hkms as [Herr Hcache].
    split; [exact Herr|]. split; [rewrite Hcache; reflexivity|].
    split; [exact Hcleanup|exact Hzero].
Defined.

(** C9 on the started server, for a batch of one plain and one encrypted
    payload. *)
Lemma C9_key_metadata_witness :
  match handleEncode world
          {| Payloads := [ex_plain_payload; ex_encrypted_payload] |} started
  with
  | (Ok resp, _) =>
      Forall (carries_key_metadata (manager started)) (Response_Payloads resp)
  | (Err _, _) => False
  end.
Proof.
  destruct (C9_emitted_payloads_carry_key_metadata world started)
    as [_ Hbatch].
  - apply reachable_new.
  - discriminate.
  - apply world_blobs_nonempty.
  - destruct (handleEncode world
                {| Payloads := [ex_plain_payload; ex_encrypted_payload] |}
                started) as [[resp|e] s'] eqn:H.
    + exact (Hbatch _ _ _ H).
    + vm_compute in H. discriminate H.
Defined.

Example encode_then_decode :
  exists resp s1,
    handleEncode world {| Payloads := [ex_plain_payload] |} started
      = (Ok resp, s1)
    /\ fst (handleDecode world {| Payloads := Response_Payloads resp |} s1)
       = Ok {| Response_Payloads := [ex_plain_payload] |}.
Proof. eexists _, _. split; reflexivity. Qed.

(** What [handleEncode] answers for the plain payload on the started
    server, followed by the plain payload itself. *)
Definition ex_mixed_batch : CodecRequest :=
  {| Payloads :=
       match fst (handleEncode world {| Payloads := [ex_plain_payload] |} started)
       with
       | Ok r => Response_Payloads r
       | Err _ => []
       end ++ [ex_plain_payload] |}.

(** C10 on the started server: the answer to a decode request of one
    encrypted payload, as [handleEncode] built it, and one plain payload. *)
Lemma C10_only_encoding_witness :
  length (Payloads ex_mixed_batch) = 2%nat
  /\ match handleDecode world ex_mixed_batch started with
     | (Ok resp, _) =>
         Forall2 decoded_from (Payloads ex_mixed_batch) (Response_Payloads resp)
     | (Err _, _) => False
     end.
Proof.
  split; [reflexivity|].
  destruct (handleDecode world ex_mixed_batch started) as [[resp|e] s'] eqn:H.
  - eapply (C10_built_payloads_have_only_encoding world), H.
  - vm_compute in H. discriminate H.
Defined.


(** X2 on the started server, for a batch of two plain payloads. *)
Lemma X2_plain_batch_witness :
  handleDecode world {| Payloads := [ex_plain_payload; ex_plain_payload] |}
    started
  = (Ok {| Response_Payloads := [ex_plain_payload; ex_plain_payload] |},
     started).
Proof.
  apply (X2_decode_passes_plain_payloads world
           {| Payloads := [ex_plain_payload; ex_plain_payload] |} started).
  repeat constructor.
Defined.

(** X3 on the started server, whose current key has the blob [AQ==]. *)
Lemma X3_current_key_witness :
  DecryptDataKey world "AQ==" ex_arn started = (Ok 0%nat, started).
Proof.
  apply (X3_current_key_resolved_without_kms world started
           {| PlaintextKey := 0; EncryptedKey := "AQ==";
              GeneratedAt := 100; ExpiresAt := 3600000000100 |} ex_arn).
  reflexivity.
Defined.

(** X5 on the started server, read at 200ns. *)
Lemma X5_valid_key_witness :
  fst (GetCurrentDataKey world started)
    = Ok (Some {| PlaintextKey := 0; EncryptedKey := "AQ==";
                  GeneratedAt := 100; ExpiresAt := 3600000000100 |})
  /\ manager (snd (GetCurrentDataKey world started)) = manager started
  /\ heap (snd (GetCurrentDataKey world started)) = heap started
  /\ kms_calls (snd (GetCurrentDataKey world started)) = kms_calls started.
Proof.
  apply (X5_valid_key_is_returned_as_is world started).
  - reflexivity.
  - vm_compute. discriminate.
Defined.

(** X6 on the server that has [QUJD] in its cache. *)
Lemma X6_lookup_miss_witness :
  decryptionCache (manager after_first_lookup) !! cacheKey "QUJD" ex_arn = None.
Proof.
  apply (X6_cache_lookup_never_hits world_kms_flaky after_first_lookup).
  apply reachable_DecryptDataKey, reachable_new.
Defined.

(** ** The codec without KMS *)

(** The codec that starts when [CODEC_KEY] is not set. *)
Definition ex_codec : EncryptionCodec :=
  {| codec_keyID := "123abc";
     codec_key := list_byte_of_string "12345678901234567890123456789012" |}.

(** A payload of another encoding, with more metadata. *)
Definition ex_other_payload : PayloadData :=
  {| Metadata := <[ "messageType" := "Order" ]> {[ "encoding" := "binary/protobuf" ]};
     Data := "CgVoZWxsbw=="; KMSKeyID := ""; EncryptedDataKey := "";
     Algorithm := "" |}.

Definition ex_local_batch : CodecRequest :=
  {| Payloads := [ex_plain_payload; ex_other_payload] |}.

Example ex_codec_is_the_default : EncryptionCodec_main "" = Some ex_codec.
Proof. reflexivity. Qed.

(** X8 for the default codec. *)
Lemma X8_local_round_trip_witness :
  match EncryptionCodec_encrypt world ex_codec ex_payload_bytes started with
  | (Ok enc, _) => EncryptionCodec_decrypt ex_codec enc = Ok ex_payload_bytes
  | (Err e, _) => e = ErrRandom
  end.
Proof.
  apply (X8_local_encrypt_then_decrypt world
           (list_byte_of_string "12345678901234567890123456789012") "123abc").
  reflexivity.
Defined.

(** X9 for a batch of a plain payload and one of another encoding. *)
Lemma X9_local_encode_witness :
  match EncryptionCodec_handleEncode world ex_codec ex_local_batch started with
  | (Ok resp, _) =>
      Forall2 (local_encoded_from ex_codec) (Payloads ex_local_batch)
        (Response_Payloads resp)
  | (Err _, _) => False
  end.
Proof.
  destruct (EncryptionCodec_handleEncode world ex_codec ex_local_batch started)
    as [[resp|e] s'] eqn:H.
  - apply (X9_local_handleEncode_keeps_every_payload world ex_codec
             ex_local_batch started resp s' H).
  - vm_compute in H. discriminate H.
Defined.

(** X10 for the same batch. *)
Lemma X10_local_round_trip_witness :
  match EncryptionCodec_handleEncode world ex_codec ex_local_batch started with
  | (Ok resp, s1) =>
      EncryptionCodec_handleDecode ex_codec
        {| Payloads := Response_Payloads resp |} s1
      = (Ok {| Response_Payloads :=
                 local_round_trip ex_codec <$> Payloads ex_local_batch |}, s1)
  | (Err _, _) => False
  end.
Proof.
  destruct (EncryptionCodec_handleEncode world ex_codec ex_local_batch started)
    as [[resp|e] s1] eqn:H.
  - apply (X10_local_encode_then_decode world ex_codec ex_local_batch started
             resp s1); [|exact H].
    repeat constructor.
  - vm_compute in H. discriminate H.
Defined.

(** The round trip of the batch, computed: the plain payload has lost
    nothing but gained the key identifier. *)
Example ex_local_round_trip :
  local_round_trip ex_codec <$> Payloads ex_local_batch
  = [ {| Metadata := <[ "keyID" := "123abc" ]> {[ "encoding" := "json/plain" ]};
         Data := "eyJpZCI6MTIzfQ=="; KMSKeyID := ""; EncryptedDataKey := "";
         Algorithm := "" |};
      ex_other_payload ].
Proof. reflexivity. Qed.

(** X12 for a random source that delivers the byte [*]. *)
Lemma X12_keygen_witness :
  String.length "KioqKioqKioqKioqKioqKioqKioqKioqKioqKioqKio=" = 44%nat
  /\ (exists key : list byte,
        length key = 32%nat
        /\ Base64.DecodeString "KioqKioqKioqKioqKioqKioqKioqKioqKioqKioqKio="
           = Some key)
  /\ EncryptionCodec_main "KioqKioqKioqKioqKioqKioqKioqKioqKioqKioqKio="
     = None.
Proof.
  apply (X12_keygen_prints_44_characters (fun n => Some (replicate n x2a))).
  reflexivity.
Defined.

(** ** The client *)

(** The KMS codec behind a link that loses nothing. *)
Definition ex_kms_server (path : string) (req : CodecRequest)
  : State -> option http_response * State :=
  if String.eqb path "/encode" then serve http_status (handleEncode world) req
  else if String.eqb path "/decode"
       then serve http_status (handleDecode world) req
       else fun s => (Some {| StatusCode := 404; Body := None |}, s).

(** The codec without KMS behind such a link. *)
Definition ex_local_server (path : string) (req : CodecRequest)
  : State -> option http_response * State :=
  if String.eqb path "/encode"
  then serve http_status (EncryptionCodec_handleEncode world ex_codec) req
  else if String.eqb path "/decode"
       then serve local_http_status (EncryptionCodec_handleDecode ex_codec) req
       else fun s => (Some {| StatusCode := 404; Body := None |}, s).

(** A plain payload of the workflow engine, with more metadata. *)
Definition ex_client_payload : Payload :=
  {| Payload_Metadata :=
       <[ "messageType" := list_byte_of_string "Order" ]>
         {[ "encoding" := list_byte_of_string "json/plain" ]};
     Payload_Data := ex_payload_bytes |}.

(** A payload of another encoding. *)
Definition ex_client_other : Payload :=
  {| Payload_Metadata := {[ "encoding" := list_byte_of_string "binary/null" ]};
     Payload_Data := [] |}.

(** A payload marked as encrypted. *)
Definition ex_client_encrypted : Payload :=
  {| Payload_Metadata :=
       {[ "encoding" := list_byte_of_string "binary/encrypted" ]};
     Payload_Data := ex_raw |}.

(** X13 on the started server: a batch with an encrypted payload is
    refused, and one without comes back as it is. *)
Lemma X13_client_decode_witness :
  RemoteCodecClient_Decode ex_kms_server
    [ex_client_payload; ex_client_encrypted] started
  = (Err (DecodeRequestFailed (ErrStatus 400)), started).
Proof.
  apply (X13_client_Decode_never_decrypts world ex_kms_server
           [ex_client_payload; ex_client_encrypted] started).
  intros req s. reflexivity.
Defined.

(** X14 on the started server. *)
Lemma X14_client_encode_then_decode_witness :
  match RemoteCodecClient_Encode ex_kms_server
          [ex_client_payload; ex_client_other] started with
  | (Ok out, s1) =>
      length out = 1%nat
      /\ (out <> [] ->
          RemoteCodecClient_Decode ex_kms_server out s1
          = (Err (DecodeRequestFailed (ErrStatus 400)), s1))
  | (Err _, _) => False
  end.
Proof.
  destruct (RemoteCodecClient_Encode ex_kms_server
              [ex_client_payload; ex_client_other] started)
    as [[out|e] s1] eqn:H.
  - apply (X14_client_cannot_decode_what_it_encoded world ex_kms_server
             [ex_client_payload; ex_client_other] started out s1);
      [intros req s; reflexivity|intros req s; reflexivity|exact H].
  - vm_compute in H. discriminate H.
Defined.

(** X15 for the default codec. *)
Lemma X15_client_round_trip_witness :
  match RemoteCodecClient_Encode ex_local_server
          [ex_client_payload; ex_client_other] started with
  | (Ok out, s1) =>
      RemoteCodecClient_Decode ex_local_server out s1
      = (Ok [ {| Payload_Metadata :=
                   <[ "keyID" := list_byte_of_string "123abc" ]>
                     {[ "encoding" := list_byte_of_string "json/plain" ]};
                 Payload_Data := ex_payload_bytes |};
              ex_client_other ], s1)
  | (Err _, _) => False
  end.
Proof.
  destruct (RemoteCodecClient_Encode ex_local_server
              [ex_client_payload; ex_client_other] started)
    as [[out|e] s1] eqn:H.
  - apply (X15_client_round_trip_without_KMS world ex_local_server ex_codec
             [ex_client_payload; ex_client_other] started out s1);
      [intros req s; reflexivity|intros req s; reflexivity| |exact H].
    repeat constructor.
  - vm_compute in H. discriminate H.
Defined.

(** ** Later decoding and the buffers of the keys *)



(** X17 on the server that has [QUJD] in its cache, swept at 300ns: the
    buffer of the entry, which expired at 250ns, is zeroed, and the buffer
    of the current key is not. *)
Lemma X17_sweep_witness :
  Forall (fun b => b = x00)
    (bytes_at (heap (snd (@CleanupCache world_kms_flaky error
                            after_first_lookup))) 1)
  /\ bytes_at (heap (snd (@CleanupCache world_kms_flaky error
                            after_first_lookup))) 0
     = ex_plaintext_key 0.
Proof.
  destruct (X17_CleanupCache_zeroes_only_removed_keys world_kms_flaky
              after_first_lookup) as (Hzero & Hcur & _).
  - apply reachable_DecryptDataKey, reachable_new.
  - split.
    + apply (Hzero "QUJD" {| Key := 1; CachedKey_ExpiresAt := 250 |});
        reflexivity.
    + destruct (Hcur {| PlaintextKey := 0; EncryptedKey := "AQ==";
                        GeneratedAt := 100; ExpiresAt := 3600000000100 |}
                  eq_refl) as [_ Hbytes].
      etransitivity; [exact Hbytes|reflexivity].
Defined.

(** The started server with a cache TTL of 50ns and a KMS that answers. *)
Definition started_ttl_50 : State :=
  snd (NewKMSManager world ex_arn 50 3600000000000 blank).

(** X18 on that server: the blob [QUJD] is resolved twice; the buffer of
    the first resolution, at index 1, still holds the key after the second
    and after a rotation of the data key followed by a sweep of the
    cache. *)
Lemma X18_overwritten_entry_witness :
  let s1 := snd (DecryptDataKey world "QUJD" ex_arn started_ttl_50) in
  let s2 := snd (DecryptDataKey world "QUJD" ex_arn s1) in
  let s3 := snd (@CleanupCache world error (snd (rotateDataKey world s2))) in
  bytes_at (heap s2) 1 = ex_plaintext_key 2
  /\ (forall key e,
        decryptionCache (manager s2) !! key = Some e -> Key e <> 1%nat)
  /\ bytes_at (heap s3) 1 = ex_plaintext_key 2.
Proof.
  intros s1 s2 s3.
  destruct (X18_overwritten_entry_is_never_zeroed world started_ttl_50
              "QUJD" ex_arn ex_raw (ex_plaintext_key 2) (ex_plaintext_key 2))
    as (_ & _ & Hp & Hcache & _ & Hlater).
  - apply reachable_new.
  - reflexivity.
  - reflexivity.
  - reflexivity.
  - reflexivity.
  - split; [exact Hp|]. split; [exact Hcache|].
    apply Hlater. apply runs_to_CleanupCache, runs_to_rotateDataKey,
      runs_to_refl.
Defined.

(** After that rotation and sweep the cache is empty, and the buffers of
    the old current key and of the second resolution are zeroed; the first
    resolution's buffer still holds its key, beside the new current key. *)
Example ex_overwritten_entry_after_sweep :
  let s1 := snd (DecryptDataKey world "QUJD" ex_arn started_ttl_50) in
  let s2 := snd (DecryptDataKey world "QUJD" ex_arn s1) in
  let s3 := snd (@CleanupCache world error (snd (rotateDataKey world s2))) in
  decryptionCache (manager s3) = ∅
  /\ heap s3 = [replicate 32 x00; ex_plaintext_key 2; replicate 32 x00;
                ex_plaintext_key 3].
Proof. split; reflexivity. Qed.

(** ** The statistics *)

(** X21 on the started server, whose clock advances with every reading. *)
Lemma X21_stats_witness :
  exists stats age left flag,
    @GetKeyStats world error started
    = (Ok stats,
       {| manager := manager started; heap := heap started;
          clock_reads := 5; rand_reads := 0;
          kms_calls := kms_calls started |})
    /\ stats !! "cached_keys_count" = Some (StatCount 0)
    /\ stats !! "current_key_age" = Some (StatDuration age)
    /\ stats !! "current_key_expires_in" = Some (StatDuration left)
    /\ stats !! "current_key_expired" = Some (StatFlag flag)
    /\ size stats = 4%nat
    /\ (flag = false -> (0 <= left)%Z)
    /\ ((left < 0)%Z -> flag = true)
    /\ (age + left <= 3600000000100 - 100)%Z.
Proof.
  apply (X21_GetKeyStats_reading world started).
  intros n m H. unfold world, ex_now. cbn [env_now]. lia.
Defined.

(** The statistics of the started server, computed: the key is 100ns old
    at the first reading and not expired at the third. *)
Example ex_stats :
  fst (@GetKeyStats world error started)
  = Ok (<[ "current_key_expired" := StatFlag false ]>
        (<[ "current_key_expires_in" := StatDuration 3599999999800 ]>
         (<[ "current_key_age" := StatDuration 100 ]>
          {[ "cached_keys_count" := StatCount 0 ]}))).
Proof. reflexivity. Qed.
